(** * DART plugin subsystem: localization catalog, permission store,
      extension registry and lifecycle runner

    A shallow embedding of [modules/localization.py],
    [modules/plugin_loader.py], [manage_permissions.py] and the plugin
    start-up of [main.py].  Python dictionaries whose iteration order is
    never observed by the modelled code are [gmap]s; dictionaries whose
    insertion order is observable (the result mappings) are ordered
    association lists; the console, the operator and the permission file are
    an explicit [World] threaded through a state-and-exception monad. *)

From stdpp Require Import gmap strings list fin_maps pretty.
From Stdlib Require Import ZArith Sorted.

Open Scope string_scope.
Open Scope list_scope.

(** ** Python values, exceptions, truthiness *)

#[local] Unset Elimination Schemes.
Inductive pyval :=
| PyNone
| PyBool (b : bool)
| PyInt (z : Z)
| PyStr (s : string)
| PyList (l : list pyval)
| PyDict (d : list (string * pyval)).
#[local] Set Elimination Schemes.

(** An exception object, as far as the code looks at it:
    [type(e).__name__] and [str(e)]. *)
Record exn := { exc_type : string; exc_msg : string }.

Inductive res (A : Type) :=
| Ok (a : A)
| Raise (e : exn).
Arguments Ok {A} a.
Arguments Raise {A} e.

(** [a or b] where [a] is an optional string and [b] a string. *)
Definition py_or (a : option string) (b : string) : string :=
  match a with
  | Some s => if String.eqb s "" then b else s
  | None => b
  end.

(** [sep.join(l)] *)
Definition join (sep : string) (l : list string) : string := String.concat sep l.

(** [x in l] for a list of strings. *)
Definition str_in (x : string) (l : list string) : bool :=
  existsb (String.eqb x) l.

(** [l.remove(x)]: drops the first occurrence. *)
Fixpoint list_remove (x : string) (l : list string) : list string :=
  match l with
  | [] => []
  | y :: l' => if String.eqb x y then l' else y :: list_remove x l'
  end.

(** [s.split("\n")] *)
Fixpoint split_lines_aux (cur : string) (s : string) : list string :=
  match s with
  | EmptyString => [cur]
  | String c s' =>
      if Nat.eqb (Ascii.nat_of_ascii c) 10 then cur :: split_lines_aux "" s'
      else split_lines_aux (cur +:+ String c EmptyString) s'
  end.
Definition split_lines (s : string) : list string := split_lines_aux "" s.

(** [c.isspace()] on the ASCII range. *)
Definition is_space (c : Ascii.ascii) : bool :=
  let n := Ascii.nat_of_ascii c in
  ((9 <=? n)%nat && (n <=? 13)%nat) || ((28 <=? n)%nat && (n <=? 32)%nat).

(** [bool(line.strip())]: some character of the line is not white space. *)
Fixpoint has_text (s : string) : bool :=
  match s with
  | EmptyString => false
  | String c s' => negb (is_space c) || has_text s'
  end.

(** ** Insertion-ordered dictionaries ([dict] where the order is observed) *)

Module odict.
Definition t (V : Type) := list (string * V).

Fixpoint get {V} (k : string) (d : t V) : option V :=
  match d with
  | [] => None
  | (k', v) :: d' => if String.eqb k' k then Some v else get k d'
  end.

(** [d[k] = v]: an existing key keeps its position, a new key goes last. *)
Fixpoint set {V} (k : string) (v : V) (d : t V) : t V :=
  match d with
  | [] => [(k, v)]
  | (k', v') :: d' =>
      if String.eqb k' k then (k', v) :: d' else (k', v') :: set k v d'
  end.

Definition keys {V} (d : t V) : list string := map fst d.
End odict.

(** ** The world outside the interpreter *)

Inductive event :=
| Print (line : string)      (* print(line) *)
| Input (prompt : string).   (* input(prompt) was called *)

Abbreviation permission_store := (gmap string (gmap string bool)).

(** The permission file [~/.tdcs/permissions.json].  A file that opens and
    parses holds what [json.dump] wrote for a store: extension name to
    capability name to boolean.  [Corrupt err] is a file on which [open] or
    [json.load] raises, [err] being [str(e)]. *)
Inductive file_state :=
| Missing
| Corrupt (err : string)
| Stored (store : permission_store).

(** One [*.json] translation file: its stem and its flat key-to-text content,
    [None] when loading it raises. *)
Record locale_file := {
  lf_stem : string;
  lf_content : option (list (string * string));
}.

(** A locales directory: language sub-directory to its json files, in glob
    order. *)
Abbreviation locale_tree := (gmap string (list locale_file)).

Record World := {
  home : string;                        (* str(Path.home()) *)
  install_dir : string;                 (* Path(__file__).parent.parent *)
  stdin : list string;                  (* operator replies still unread, each
                                           as input(...).lower().strip() *)
  console : list event;                 (* oldest first *)
  perm_file : file_state;
  perm_disk_error : option string;      (* Some msg: open(file, 'w') raises *)
  perm_writes : list permission_store;  (* every completed json.dump *)
  locale_dirs : gmap string locale_tree;(* existing locales directories *)
}.

Definition set_console (f : list event → list event) (w : World) : World :=
  {| home := home w; install_dir := install_dir w; stdin := stdin w;
     console := f (console w); perm_file := perm_file w;
     perm_disk_error := perm_disk_error w; perm_writes := perm_writes w;
     locale_dirs := locale_dirs w |}.

Definition set_stdin (l : list string) (w : World) : World :=
  {| home := home w; install_dir := install_dir w; stdin := l;
     console := console w; perm_file := perm_file w;
     perm_disk_error := perm_disk_error w; perm_writes := perm_writes w;
     locale_dirs := locale_dirs w |}.

(** A completed [open(file, 'w')] + [json.dump(store, f)]. *)
Definition write_perm_file (s : permission_store) (w : World) : World :=
  {| home := home w; install_dir := install_dir w; stdin := stdin w;
     console := console w; perm_file := Stored s;
     perm_disk_error := perm_disk_error w;
     perm_writes := perm_writes w ++ [s];
     locale_dirs := locale_dirs w |}.

Definition path_join (a b : string) : string := a +:+ "/" +:+ b.

(** ** State and exception monad *)

Definition M (S A : Type) : Type := S → res A * S.

Definition ret {S A} (a : A) : M S A := λ s, (Ok a, s).

Definition bind {S A B} (c : M S A) (k : A → M S B) : M S B :=
  λ s, match c s with
       | (Ok a, s') => k a s'
       | (Raise e, s') => (Raise e, s')
       end.

Definition get_state {S} : M S S := λ s, (Ok s, s).

Definition modify {S} (f : S → S) : M S unit := λ s, (Ok tt, f s).

Notation "x <~ c ;;; k" := (bind c (λ x, k))
  (at level 20, c at level 99, k at level 200, only parsing).
Notation "c ;;; k" := (bind c (λ _, k))
  (at level 100, k at level 200, right associativity, only parsing).

(** [for x in l: body x] *)
Fixpoint for_each {S A} (l : list A) (body : A → M S unit) : M S unit :=
  match l with
  | [] => ret tt
  | x :: l' => body x ;;; for_each l' body
  end.

(** ** [plugin_print] (plugin_loader.py) *)

Definition level_prefix (level : string) : string :=
  if String.eqb level "info" then "[Plugin]"
  else if String.eqb level "warning" then "[Plugin][Warning]"
  else if String.eqb level "error" then "[Plugin][Error]"
  else "[Plugin]".

Definition plugin_line (plugin_name message level : string) : string :=
  level_prefix level +:+ ":" +:+ plugin_name +:+ " " +:+ message.

Definition print_line (line : string) (w : World) : World :=
  set_console (λ c, c ++ [Print line]) w.

Definition plugin_print_w (plugin_name message level : string) (w : World) : World :=
  print_line (plugin_line plugin_name message level) w.

(** [s * n] for a string [s]. *)
Fixpoint str_mul (s : string) (n : nat) : string :=
  match n with
  | O => ""
  | S n' => s +:+ str_mul s n'
  end.

(** Monadic left fold: a loop that carries an accumulator. *)
Fixpoint foldM {S A B} (f : B → A → M S B) (l : list A) (b : B) : M S B :=
  match l with
  | [] => ret b
  | x :: l' => b' <~ f b x ;;; foldM f l' b'
  end.

(** * modules/localization.py *)

Module localization.

Definition SUPPORTED_LANGUAGES : list string := ["ko"; "en"].
Definition DEFAULT_LANGUAGE : string := "ko".
Definition FALLBACK_LANGUAGE : string := "en".

Record LocalizationManager := {
  locales_dir : string;
  current_language : string;
  translations : gmap string (gmap string string);
      (* {lang: {key: value}} *)
  plugin_translations : gmap string (gmap string (gmap string string));
      (* {plugin_name: {lang: {key: value}}} *)
  plugin_permissions : gmap string (list string);
      (* {plugin_name: [granted_permissions]} *)
  permission_storage_file : string;
  permission_cache : permission_store;
      (* {plugin_name: {permission: granted}} *)
}.

Definition set_current_language (v : string) (m : LocalizationManager) :=
  {| locales_dir := locales_dir m; current_language := v;
     translations := translations m;
     plugin_translations := plugin_translations m;
     plugin_permissions := plugin_permissions m;
     permission_storage_file := permission_storage_file m;
     permission_cache := permission_cache m |}.

Definition set_translations (v : gmap string (gmap string string))
    (m : LocalizationManager) :=
  {| locales_dir := locales_dir m; current_language := current_language m;
     translations := v;
     plugin_translations := plugin_translations m;
     plugin_permissions := plugin_permissions m;
     permission_storage_file := permission_storage_file m;
     permission_cache := permission_cache m |}.

Definition set_plugin_translations
    (v : gmap string (gmap string (gmap string string)))
    (m : LocalizationManager) :=
  {| locales_dir := locales_dir m; current_language := current_language m;
     translations := translations m;
     plugin_translations := v;
     plugin_permissions := plugin_permissions m;
     permission_storage_file := permission_storage_file m;
     permission_cache := permission_cache m |}.

Definition set_plugin_permissions (v : gmap string (list string))
    (m : LocalizationManager) :=
  {| locales_dir := locales_dir m; current_language := current_language m;
     translations := translations m;
     plugin_translations := plugin_translations m;
     plugin_permissions := v;
     permission_storage_file := permission_storage_file m;
     permission_cache := permission_cache m |}.

Definition set_permission_cache (v : permission_store)
    (m : LocalizationManager) :=
  {| locales_dir := locales_dir m; current_language := current_language m;
     translations := translations m;
     plugin_translations := plugin_translations m;
     plugin_permissions := plugin_permissions m;
     permission_storage_file := permission_storage_file m;
     permission_cache := v |}.

(** The manager object together with the world its methods act on. *)
Record state := { self : LocalizationManager; os : World }.

Definition on_self (f : LocalizationManager → LocalizationManager) : M state unit :=
  modify (λ s, {| self := f (self s); os := os s |}).

Definition on_world (f : World → World) : M state unit :=
  modify (λ s, {| self := self s; os := f (os s) |}).

Definition plugin_print (plugin_name message level : string) : M state unit :=
  on_world (plugin_print_w plugin_name message level).

Definition print (line : string) : M state unit := on_world (print_line line).

Definition _load_permissions_from_file : M state unit :=
  s <~ get_state ;;;
  match perm_file (os s) with
  | Missing => ret tt
  | Stored store =>
      on_self (set_permission_cache store) ;;;
      plugin_print "LocalizationManager"
        ("저장된 권한 로드: " +:+ permission_storage_file (self s)) "info"
  | Corrupt err =>
      plugin_print "LocalizationManager"
        ("[Error] 권한 파일 로드 실패: " +:+ err) "error"
  end.

Definition _save_permissions_to_file : M state unit :=
  s <~ get_state ;;;
  match perm_disk_error (os s) with
  | None => on_world (write_perm_file (permission_cache (self s)))
  | Some err =>
      plugin_print "LocalizationManager"
        ("[Error] 권한 파일 저장 실패: " +:+ err) "error"
  end.

(** The body of the loop over [lang_dir.glob("*.json")] in
    [_load_main_translations]: keys are prefixed with the file's stem. *)
Definition load_main_file (lang_dir : string) (tr : gmap string string)
    (f : locale_file) : M state (gmap string string) :=
  match lf_content f with
  | Some items =>
      ret (foldl (λ t kv, <[lf_stem f +:+ "." +:+ kv.1 := kv.2]> t) tr items)
  | None =>
      plugin_print "LocalizationManager"
        ("[Error] 번역 파일 로드 실패: "
           +:+ path_join lang_dir (lf_stem f +:+ ".json")) "error" ;;;
      ret tr
  end.

Definition _load_main_translations : M state unit :=
  for_each SUPPORTED_LANGUAGES (λ lang,
    s <~ get_state ;;;
    match default ∅ (locale_dirs (os s) !! locales_dir (self s)) !! lang with
    | None => ret tt
    | Some files =>
        tr <~ foldM (load_main_file (path_join (locales_dir (self s)) lang))
                files ∅ ;;;
        on_self (λ m, set_translations (<[lang := tr]> (translations m)) m)
    end).

(** The body of the loop over the json files in [load_plugin_translations]:
    [translations.update(file_translations)], keys are not prefixed. *)
Definition load_plugin_file (plugin_name : string) (tr : gmap string string)
    (f : locale_file) : M state (gmap string string) :=
  match lf_content f with
  | Some items => ret (foldl (λ t kv, <[kv.1 := kv.2]> t) tr items)
  | None =>
      plugin_print "LocalizationManager"
        ("[Error] 플러그인 번역 로드 실패: " +:+ plugin_name) "error" ;;;
      ret tr
  end.

Definition load_plugin_translations (plugin_name plugin_dir : string) : M state unit :=
  s <~ get_state ;;;
  match locale_dirs (os s) !! path_join plugin_dir "locales" with
  | None => ret tt
  | Some tree =>
      plugin_trans <~ foldM (λ (acc : gmap string (gmap string string)) lang,
          match tree !! lang with
          | None => ret acc
          | Some files =>
              tr <~ foldM (load_plugin_file plugin_name) files ∅ ;;;
              ret (<[lang := tr]> acc)
          end) SUPPORTED_LANGUAGES ∅ ;;;
      if decide (plugin_trans = ∅) then ret tt
      else
        on_self (λ m, set_plugin_translations
                        (<[plugin_name := plugin_trans]> (plugin_translations m)) m) ;;;
        plugin_print "LocalizationManager"
          ("플러그인 번역 로드: " +:+ plugin_name) "info"
  end.

Definition set_language (language : string) : M state bool :=
  if str_in language SUPPORTED_LANGUAGES then
    on_self (set_current_language language) ;;; ret true
  else ret false.

Definition _check_permission (m : LocalizationManager)
    (plugin_name permission : string) : bool :=
  if String.eqb permission "read_locales" then true
  else
    match plugin_permissions m !! plugin_name with
    | Some granted => str_in permission granted
    | None => false
    end.

(** [if plugin_name:] in [get_text]: the lookup is scoped to an extension
    when the argument is a non-empty name. *)
Definition extension_scope (plugin_name : option string) : option string :=
  match plugin_name with
  | Some p => if String.eqb p "" then None else Some p
  | None => None
  end.

(** [key in t[lang]] guarded by [lang in t], then [t[lang][key]]. *)
Definition text_in (t : gmap string (gmap string string)) (lang key : string)
    : option string :=
  match t !! lang with
  | Some table => table !! key
  | None => None
  end.

(** The three lookups [get_text] writes out for either namespace: the
    current language, then "ko", then "en". *)
Definition find_text (t : gmap string (gmap string string))
    (current key : string) : option string :=
  match text_in t current key with
  | Some v => Some v
  | None =>
      match text_in t "ko" key with
      | Some v => Some v
      | None => text_in t "en" key
      end
  end.

Definition get_text (key : string) (plugin_name dflt : option string) : M state string :=
  s <~ get_state ;;;
  match extension_scope plugin_name with
  | Some p =>
      if negb (_check_permission (self s) p "read_locales") then
        plugin_print "LocalizationManager" ("[Error] 권한 없음: " +:+ p) "error" ;;;
        ret (py_or dflt key)
      else
        match plugin_translations (self s) !! p with
        | Some plugin_trans =>
            match find_text plugin_trans (current_language (self s)) key with
            | Some v => ret v
            | None => ret (py_or dflt key)
            end
        | None => ret (py_or dflt key)
        end
  | None =>
      match find_text (translations (self s)) (current_language (self s)) key with
      | Some v => ret v
      | None => ret (py_or dflt key)
      end
  end.

Definition grant_plugin_permission (plugin_name : string)
    (permissions : list string) : M state unit :=
  on_self (λ m,
    let held := default [] (plugin_permissions m !! plugin_name) in
    let held' := foldl (λ acc perm, if str_in perm acc then acc else acc ++ [perm])
                       held permissions in
    set_plugin_permissions (<[plugin_name := held']> (plugin_permissions m)) m) ;;;
  plugin_print "LocalizationManager"
    (plugin_name +:+ "에 권한 부여: " +:+ join ", " permissions) "info".

Definition deny_plugin_permission (plugin_name permission : string) : M state unit :=
  on_self (λ m,
    match plugin_permissions m !! plugin_name with
    | Some held =>
        if str_in permission held then
          set_plugin_permissions
            (<[plugin_name := list_remove permission held]> (plugin_permissions m)) m
        else m
    | None => m
    end) ;;;
  plugin_print "LocalizationManager"
    (plugin_name +:+ "의 권한 거부: " +:+ permission) "info".

Definition perm_desc (permission : string) : string :=
  if String.eqb permission "read_main_locales" then "메인 애플리케이션 번역 읽기"
  else if String.eqb permission "write_locales" then "번역 파일 쓰기"
  else permission.

Definition rule : string := str_mul "=" 70.
Definition ask_prompt : string := "이 권한을 허용하시겠습니까? (y/n): ".
Definition EOFError : exn :=
  {| exc_type := "EOFError"; exc_msg := "EOF when reading a line" |}.

(** The [while True] loop of [_ask_user_permission], run on the replies the
    operator has left: the answer or the [EOFError] of [input], the replies
    still unread, and what was written to the console. *)
Fixpoint read_choice (replies : list string) (out : list event)
    : res bool * list string * list event :=
  match replies with
  | [] => (Raise EOFError, [], out ++ [Input ask_prompt])
  | choice :: rest =>
      let out := out ++ [Input ask_prompt] in
      if str_in choice ["y"; "yes"] then
        (Ok true, rest, out ++ [Print "✓ 권한이 부여되었습니다."; Print rule])
      else if str_in choice ["n"; "no"] then
        (Ok false, rest, out ++ [Print "✗ 권한이 거부되었습니다."; Print rule])
      else read_choice rest (out ++ [Print "y 또는 n을 입력하세요."])
  end.

Definition banner (plugin_name : string) : string := "[권한 요청] " +:+ plugin_name.

Definition _ask_user_permission (plugin_name permission reason : string) : M state bool :=
  print "" ;;;
  print rule ;;;
  print (banner plugin_name) ;;;
  print rule ;;;
  print ("요청 권한: " +:+ perm_desc permission) ;;;
  (if String.eqb reason "" then ret tt else print ("이유: " +:+ reason)) ;;;
  print "" ;;;
  (λ s, let '(r, rest, out) := read_choice (stdin (os s)) [] in
        (r, {| self := self s;
               os := set_stdin rest (set_console (λ c, c ++ out) (os s)) |})).

(** The two nested [in] tests at the head of the loop of
    [request_plugin_permission] and the value they guard: the decision the
    cache holds for an (extension, capability) pair, if any. *)
Definition decision (m : LocalizationManager) (plugin_name permission : string)
    : option bool :=
  match permission_cache m !! plugin_name with
  | Some decided => decided !! permission
  | None => None
  end.

(** One turn of the loop of [request_plugin_permission]; the accumulator is
    [(result, need_save)]. *)
Definition request_one (plugin_name reason : string)
    (acc : odict.t bool * bool) (permission : string)
    : M state (odict.t bool * bool) :=
  s <~ get_state ;;;
  match decision (self s) plugin_name permission with
  | Some b => ret (odict.set permission b acc.1, acc.2)
  | None =>
      granted <~ _ask_user_permission plugin_name permission reason ;;;
      on_self (λ m, set_permission_cache
         (<[plugin_name := <[permission := granted]>
              (default ∅ (permission_cache m !! plugin_name))]>
            (permission_cache m)) m) ;;;
      (if granted : bool then grant_plugin_permission plugin_name [permission]
       else deny_plugin_permission plugin_name permission) ;;;
      ret (odict.set permission granted acc.1, true)
  end.

Definition request_plugin_permission (plugin_name : string)
    (permissions : list string) (reason : string) : M state (odict.t bool) :=
  acc <~ foldM (request_one plugin_name reason) permissions ([], false) ;;;
  (if acc.2 : bool then _save_permissions_to_file else ret tt) ;;;
  ret acc.1.

Definition get_supported_languages : list string := SUPPORTED_LANGUAGES.

Definition get_current_language (m : LocalizationManager) : string :=
  current_language m.

Definition get_plugin_permissions (m : LocalizationManager)
    (plugin_name : string) : list string :=
  default [] (plugin_permissions m !! plugin_name).

(** [LocalizationManager(locales_dir, system_language)]. *)
Definition __init__ (locales_dir system_language : option string) (w : World)
    : LocalizationManager * World :=
  let m0 :=
    {| locales_dir :=
         match locales_dir with
         | Some d => d
         | None => path_join (install_dir w) "locales"
         end;
       current_language := py_or system_language DEFAULT_LANGUAGE;
       translations := ∅;
       plugin_translations := ∅;
       plugin_permissions := ∅;
       permission_storage_file :=
         path_join (path_join (home w) ".tdcs") "permissions.json";
       permission_cache := ∅ |} in
  let s := ((_load_permissions_from_file ;;; _load_main_translations)
              {| self := m0; os := w |}).2 in
  (self s, os s).

End localization.

(** * modules/plugin_loader.py *)

Module plugin_loader.

Record PluginMetadata := {
  name : string;
  stage : string;                (* "pre-main", "splash", "post-main", ... *)
  priority : Z;                  (* higher runs first *)
  enabled : bool;
  description : string;
  version : string;
  permissions : list string;
}.

Definition set_enabled (b : bool) (md : PluginMetadata) : PluginMetadata :=
  {| name := name md; stage := stage md; priority := priority md;
     enabled := b; description := description md; version := version md;
     permissions := permissions md |}.

(** The shared [context] dict of a stage run. *)
Abbreviation context := (gmap string pyval).

(** What calling an entry point does: it returns a value or raises an
    [Exception] ([tb] is what [traceback.format_exc()] gives in the handler),
    and it may have written to the shared context either way.  An entry
    point acts on the context it is given and on nothing else; and what is
    raised is an [Exception], the class the handler of [run_plugins]
    catches ([KeyboardInterrupt] and [SystemExit] end the process). *)
Inductive call_result :=
| Returned (v : pyval)
| Raised (e : exn) (tb : string).

(** [func(context=..., config=...)] *)
Definition callable : Type := context → pyval → call_result * context.

(** [PluginMetadata] objects are shared by reference between [plugins] and
    [plugin_funcs]; a reference is an index into the object store. *)
Abbreviation ref := nat.

Record plugin_info := {
  metadata : ref;
  func : callable;
  module : string;
  path : string;
}.

Record PluginLoader := {
  plugins_dir : string;
  plugins : gmap string plugin_info;                 (* {name: info} *)
  plugin_funcs : gmap string (list (ref * callable));(* {stage: [(metadata, func)]} *)
  config : gmap string pyval;
  localization_manager : option localization.LocalizationManager;
}.

Definition set_plugins (v : gmap string plugin_info) (l : PluginLoader) :=
  {| plugins_dir := plugins_dir l; plugins := v;
     plugin_funcs := plugin_funcs l; config := config l;
     localization_manager := localization_manager l |}.

Definition set_plugin_funcs (v : gmap string (list (ref * callable)))
    (l : PluginLoader) :=
  {| plugins_dir := plugins_dir l; plugins := plugins l;
     plugin_funcs := v; config := config l;
     localization_manager := localization_manager l |}.

Definition set_config (v : gmap string pyval) (l : PluginLoader) :=
  {| plugins_dir := plugins_dir l; plugins := plugins l;
     plugin_funcs := plugin_funcs l; config := v;
     localization_manager := localization_manager l |}.

Definition set_localization_manager
    (v : option localization.LocalizationManager) (l : PluginLoader) :=
  {| plugins_dir := plugins_dir l; plugins := plugins l;
     plugin_funcs := plugin_funcs l; config := config l;
     localization_manager := v |}.

(** The loader, the metadata objects it refers to, the world, and the trace
    of entry points called so far (each named by its metadata object). *)
Record state := {
  objects : list PluginMetadata;
  self : PluginLoader;
  os : World;
  invoked : list ref;
}.

Definition on_objects (f : list PluginMetadata → list PluginMetadata) : M state unit :=
  modify (λ s, {| objects := f (objects s); self := self s; os := os s;
                  invoked := invoked s |}).

Definition on_self (f : PluginLoader → PluginLoader) : M state unit :=
  modify (λ s, {| objects := objects s; self := f (self s); os := os s;
                  invoked := invoked s |}).

Definition on_world (f : World → World) : M state unit :=
  modify (λ s, {| objects := objects s; self := self s; os := f (os s);
                  invoked := invoked s |}).

Definition note_call (r : ref) : M state unit :=
  modify (λ s, {| objects := objects s; self := self s; os := os s;
                  invoked := invoked s ++ [r] |}).

Definition plugin_print (plugin_name message level : string) : M state unit :=
  on_world (plugin_print_w plugin_name message level).

(** Reading a field through a reference. *)
Definition null_metadata : PluginMetadata :=
  {| name := ""; stage := "pre-main"; priority := 0; enabled := true;
     description := ""; version := "1.0.0"; permissions := [] |}.

Definition deref (objs : list PluginMetadata) (r : ref) : PluginMetadata :=
  default null_metadata (objs !! r).

(** [l.sort(key=key, reverse=True)].  Python's sort is stable, also with
    [reverse=True]: elements with equal keys keep their order.  It is
    modelled by a stable insertion sort into descending key order: an
    element is put behind the elements of greater key and in front of those
    of equal or smaller key that followed it. *)
Fixpoint insert_desc {A} (key : A → Z) (x : A) (l : list A) : list A :=
  match l with
  | [] => [x]
  | y :: l' => if (key x <? key y)%Z then y :: insert_desc key x l' else x :: l
  end.

Definition sort_desc {A} (key : A → Z) (l : list A) : list A :=
  foldr (insert_desc key) [] l.

(** Run a method of the localization manager the loader holds. *)
Definition with_localization {A} (lm : localization.LocalizationManager)
    (c : M localization.state A) : M state A :=
  λ s, let '(r, ls) := c {| localization.self := lm; localization.os := os s |} in
       (r, {| objects := objects s;
              self := set_localization_manager (Some (localization.self ls)) (self s);
              os := localization.os ls;
              invoked := invoked s |}).

Definition _handle_plugin_permissions (md : PluginMetadata) : M state unit :=
  s <~ get_state ;;;
  match localization_manager (self s) with
  | None => ret tt
  | Some lm =>
      results <~ with_localization lm
        (localization.request_plugin_permission
           (name md) (permissions md) (description md)) ;;;
      for_each results (λ kv,
        plugin_print (name md)
          ("권한 " +:+ kv.1 +:+ ": " +:+ (if kv.2 : bool then "✓ 승인" else "✗ 거부"))
          "info")
  end.

(** What the plugins directory holds.  A module either fails to execute or
    exposes, in [dir(module)] order, its attributes that carry
    [__plugin_metadata__], each with the metadata its decorator built (one
    metadata object per decorated attribute). *)
Inductive module_body :=
| ExecFails (e : exn)
| Attributes (attrs : list (PluginMetadata * callable)).

Record py_file := { stem : string; body : module_body }.

(** The body of the loop over the attributes in [load_all_plugins], for one
    attribute that has [__plugin_metadata__].  The metadata object enters the
    object store here, where the loader first reads it. *)
Definition register (module_name : string) (attr : PluginMetadata * callable)
    : M state unit :=
  s <~ get_state ;;;
  let md := attr.1 in
  let r : ref := length (objects s) in
  on_objects (λ objs, objs ++ [md]) ;;;
  on_self (λ l, set_plugins
     (<[name md := {| metadata := r; func := attr.2; module := module_name;
                      path := plugins_dir l |}]> (plugins l)) l) ;;;
  on_self (λ l, set_plugin_funcs
     (<[stage md := default [] (plugin_funcs l !! stage md) ++ [(r, attr.2)]]>
        (plugin_funcs l)) l) ;;;
  s1 <~ get_state ;;;
  on_self (λ l, set_plugin_funcs
     (<[stage md :=
          sort_desc (λ x, priority (deref (objects s1) x.1))
            (default [] (plugin_funcs l !! stage md))]>
        (plugin_funcs l)) l) ;;;
  (match localization_manager (self s) with
   | Some lm =>
       with_localization lm
         (localization.load_plugin_translations (name md) (plugins_dir (self s)))
   | None => ret tt
   end) ;;;
  match permissions md with
  | [] => ret tt
  | _ :: _ => _handle_plugin_permissions md
  end.

(** The attribute loop with its counter: [plugin_count] is a local variable,
    so what was counted before an exception stays counted. *)
Fixpoint register_attrs (module_name : string)
    (attrs : list (PluginMetadata * callable)) (count : nat) (s : state)
    : nat * option exn * state :=
  match attrs with
  | [] => (count, None, s)
  | attr :: rest =>
      match register module_name attr s with
      | (Ok _, s') => register_attrs module_name rest (S count) s'
      | (Raise e, s') => (count, Some e, s')
      end
  end.

Definition load_failed (module_name : string) (e : exn) : M state unit :=
  plugin_print "PluginLoader" ("[Error] 플러그인 로드 실패: " +:+ module_name) "error" ;;;
  plugin_print "PluginLoader" ("  상세: " +:+ exc_msg e) "info".

(** One turn of the loop over [plugins_dir.glob("*.py")]. *)
Definition load_file (count : nat) (f : py_file) : M state nat :=
  if String.eqb (stem f +:+ ".py") "__init__.py" then ret count
  else
    match body f with
    | ExecFails e => load_failed (stem f) e ;;; ret count
    | Attributes attrs =>
        λ s, match register_attrs (stem f) attrs count s with
             | (count', None, s') => (Ok count', s')
             | (count', Some e, s') => (load_failed (stem f) e ;;; ret count') s'
             end
    end.

(** [dir] is the listing of the plugins directory, [None] when the directory
    does not exist. *)
Definition load_all_plugins (dir : option (list py_file)) : M state nat :=
  match dir with
  | None =>
      s <~ get_state ;;;
      plugin_print "PluginLoader"
        ("플러그인 디렉터리 없음: " +:+ plugins_dir (self s)) "info" ;;;
      ret 0%nat
  | Some files => foldM load_file files 0%nat
  end.

(** The outcome dictionaries [run_plugins] stores under a plugin's name. *)
Definition success_outcome (result : pyval) : odict.t pyval :=
  [("status", PyStr "success"); ("result", result)].

Definition error_outcome (e : exn) : odict.t pyval :=
  [("status", PyStr "error"); ("error", PyStr (exc_msg e))].

(** The body of the loop of [run_plugins]; the accumulator is the [results]
    dict and the shared context. *)
Definition run_entry (config : gmap string pyval)
    (acc : odict.t (odict.t pyval) * context) (entry : ref * callable)
    : M state (odict.t (odict.t pyval) * context) :=
  s <~ get_state ;;;
  let md := deref (objects s) entry.1 in
  if negb (enabled md) then
    plugin_print (name md) "[Skip] 비활성화됨" "info" ;;;
    ret acc
  else
    plugin_print (name md) "실행 중..." "info" ;;;
    note_call entry.1 ;;;
    match entry.2 acc.2 (default (PyDict []) (config !! name md)) with
    | (Returned result, ctx) =>
        plugin_print (name md) "완료" "info" ;;;
        ret (odict.set (name md) (success_outcome result) acc.1, ctx)
    | (Raised e tb, ctx) =>
        plugin_print (name md) "[Error] 실행 중 오류 발생" "info" ;;;
        plugin_print (name md) ("  " +:+ exc_type e +:+ ": " +:+ exc_msg e) "error" ;;;
        for_each (split_lines tb) (λ line,
          if has_text line then plugin_print (name md) ("  " +:+ line) "error"
          else ret tt) ;;;
        ret (odict.set (name md) (error_outcome e) acc.1, ctx)
    end.

(** [run_plugins(stage, context, config)]: the results and the context as
    the entry points left it. *)
Definition run_plugins (stage : string) (ctx : context)
    (config : gmap string pyval)
    : M state (odict.t (odict.t pyval) * context) :=
  on_self (set_config config) ;;;
  s <~ get_state ;;;
  match plugin_funcs (self s) !! stage with
  | None => ret ([], ctx)
  | Some entries => foldM (run_entry config) entries ([], ctx)
  end.

Definition enable_plugin (name : string) : M state bool :=
  s <~ get_state ;;;
  match plugins (self s) !! name with
  | Some info =>
      on_objects (alter (set_enabled true) (metadata info)) ;;; ret true
  | None => ret false
  end.

Definition disable_plugin (name : string) : M state bool :=
  s <~ get_state ;;;
  match plugins (self s) !! name with
  | Some info =>
      on_objects (alter (set_enabled false) (metadata info)) ;;; ret true
  | None => ret false
  end.

(** [PluginLoader(plugins_dir, localization_manager)] with nothing loaded. *)
Definition new_loader (dir : string)
    (lm : option localization.LocalizationManager) : PluginLoader :=
  {| plugins_dir := dir; plugins := ∅; plugin_funcs := ∅; config := ∅;
     localization_manager := lm |}.

Definition start (dir : string) (lm : option localization.LocalizationManager)
    (w : World) : state :=
  {| objects := []; self := new_loader dir lm; os := w; invoked := [] |}.

End plugin_loader.

(** * Notions the statements about the catalog are written with *)

Module catalog_notions.
Import localization.


(** The tables a lookup is resolved in: the extension's own, or the host's. *)
Definition namespace (m : LocalizationManager) (plugin_name : option string)
    : gmap string (gmap string string) :=
  match extension_scope plugin_name with
  | Some p => default ∅ (plugin_translations m !! p)
  | None => translations m
  end.

(** A key's text in one language table of the namespace a lookup targets. *)
Definition table_text (s : state) (plugin_name : option string)
    (lang key : string) : option string :=
  text_in (namespace (self s) plugin_name) lang key.

(** The resolution order in the specification's words: current language,
    then the fallback language, then the supplied default, then the key. *)
Definition spec_resolve (t : gmap string (gmap string string))
    (current key : string) (dflt : option string) : string :=
  match text_in t current key with
  | Some v => v
  | None =>
      match text_in t FALLBACK_LANGUAGE key with
      | Some v => v
      | None =>
          match dflt with
          | Some d => d
          | None => key
          end
      end
  end.

Definition with_world (w : World) (s : state) : state :=
  {| self := self s; os := w |}.

Definition with_permissions (perms : gmap string (list string)) (s : state) : state :=
  {| self := set_plugin_permissions perms (self s); os := os s |}.

#[global] Instance event_eq_dec : EqDecision event.
Proof. solve_decision. Defined.

(** How many times the permission-request banner of an extension has been
    shown to the operator: [_ask_user_permission] prints it once per call. *)
Definition banners (plugin_name : string) (l : list event) : nat :=
  length (filter (λ e, e = Print (banner plugin_name)) l).

Definition shown (plugin_name : string) (w : World) : nat :=
  banners plugin_name (console w).

(** The permission file and the record of writes to it are the same in two
    worlds. *)
Definition same_disk (w w' : World) : Prop :=
  perm_file w' = perm_file w
  ∧ perm_writes w' = perm_writes w
  ∧ perm_disk_error w' = perm_disk_error w.

(** A step that leaves the permission side of a session alone: the decision
    cache, the granted lists and the permission file. *)
Definition keeps_permissions (s s' : state) : Prop :=
  permission_cache (self s') = permission_cache (self s)
  ∧ plugin_permissions (self s') = plugin_permissions (self s)
  ∧ same_disk (os s) (os s').

(** The capabilities of a request that have no decision yet. *)
Definition undecided (m : LocalizationManager) (plugin_name : string)
    (permissions : list string) : bool :=
  existsb (λ q, bool_decide (decision m plugin_name q = None)) permissions.

(** ** Worked inputs *)

Definition quiet_world : World :=
  {| home := "/home/op"; install_dir := "/opt/dart"; stdin := [];
     console := []; perm_file := Missing; perm_disk_error := None;
     perm_writes := []; locale_dirs := ∅ |}.

Definition answers (replies : list string) : World :=
  set_stdin replies quiet_world.

(** A host catalog with a Korean-only greeting, an English-only welcome and
    a title in both languages, and an extension [weather_overlay] with one text of its own. *)
Definition host_tables : gmap string (gmap string string) :=
  <["ko" := <["common.greeting" := "안녕하세요"]> (<["app.title" := "다트"]> ∅)]>
    (<["en" := <["common.welcome" := "Welcome"]> (<["app.title" := "DART"]> ∅)]> ∅).

Definition overlay_tables : gmap string (gmap string string) :=
  <["ko" := <["greeting" := "날씨"]> ∅]> ∅.

Definition catalog (lang : string) : LocalizationManager :=
  {| locales_dir := "/opt/dart/locales"; current_language := lang;
     translations := host_tables;
     plugin_translations := <["weather_overlay" := overlay_tables]> ∅;
     plugin_permissions := ∅;
     permission_storage_file := "/home/op/.tdcs/permissions.json";
     permission_cache := ∅ |}.

Definition session (lang : string) (w : World) : state :=
  {| self := catalog lang; os := w |}.

Definition granted_store : permission_store :=
  <["weather_overlay" := <["read_main_locales" := true]> ∅]> ∅.

End catalog_notions.

(** * Notions the statements about the registry are written with *)

Module registry_notions.
Import plugin_loader.

(** The sort key of [load_all_plugins]: the priority read through the
    entry's metadata object. *)
Definition prio (objs : list PluginMetadata) (x : ref * callable) : Z :=
  priority (deref objs x.1).

(** Priority descending and, among equal priorities, discovery order:
    metadata objects enter the store in the order the loader discovers them,
    so the earlier discovered entry has the smaller reference. *)
Definition before (objs : list PluginMetadata) (a b : ref * callable) : Prop :=
  (prio objs b < prio objs a)%Z ∨ (prio objs a = prio objs b ∧ a.1 < b.1).

(** Equal keys are in discovery order: what a list must satisfy for a stable
    sort to leave ties in discovery order. *)
Definition ties_in_order (objs : list PluginMetadata) (a b : ref * callable) : Prop :=
  prio objs a = prio objs b → a.1 < b.1.

Definition is_enabled (objs : list PluginMetadata) (x : ref * callable) : bool :=
  enabled (deref objs x.1).

Definition name_of (objs : list PluginMetadata) (r : ref) : string :=
  name (deref objs r).

(** The calls a stage run makes: each enabled entry in list order, on the
    context the earlier ones left, with what the call did; and the context
    at the end. *)
Fixpoint stage_calls (objs : list PluginMetadata) (config : gmap string pyval)
    (entries : list (ref * callable)) (ctx : context)
    : list (ref * call_result) * context :=
  match entries with
  | [] => ([], ctx)
  | entry :: rest =>
      if is_enabled objs entry then
        let cr := entry.2 ctx (default (PyDict []) (config !! name_of objs entry.1)) in
        let tl := stage_calls objs config rest cr.2 in
        ((entry.1, cr.1) :: tl.1, tl.2)
      else stage_calls objs config rest ctx
  end.

Definition outcome_of (cr : call_result) : odict.t pyval :=
  match cr with
  | Returned result => success_outcome result
  | Raised e _ => error_outcome e
  end.

(** [results[metadata.name] = outcome] for one call. *)
Definition record (objs : list PluginMetadata)
    (results : odict.t (odict.t pyval)) (c : ref * call_result)
    : odict.t (odict.t pyval) :=
  odict.set (name_of objs c.1) (outcome_of c.2) results.

(** The lines the handler of [run_plugins] prints for an error. *)
Definition trace_lines (plugin_name : string) (lines : list string) : list event :=
  map (λ line, Print (plugin_line plugin_name ("  " +:+ line) "error"))
      (filter (λ line, has_text line = true) lines).

Definition error_lines (plugin_name : string) (e : exn) (tb : string) : list event :=
  Print (plugin_line plugin_name "[Error] 실행 중 오류 발생" "info")
  :: Print (plugin_line plugin_name ("  " +:+ exc_type e +:+ ": " +:+ exc_msg e) "error")
  :: trace_lines plugin_name (split_lines tb).

Definition skip_line (plugin_name : string) : event :=
  Print (plugin_line plugin_name "[Skip] 비활성화됨" "info").

(** The outcome of the last call made under a name, if any call was. *)
Fixpoint last_outcome (objs : list PluginMetadata)
    (calls : list (ref * call_result)) (nm : string) : option (odict.t pyval) :=
  match calls with
  | [] => None
  | c :: rest =>
      match last_outcome objs rest nm with
      | Some o => Some o
      | None =>
          if String.eqb (name_of objs c.1) nm then Some (outcome_of c.2)
          else None
      end
  end.

(** What one call prints after the "running" line. *)
Definition call_lines (plugin_name : string) (cr : call_result) : list event :=
  match cr with
  | Returned _ => [Print (plugin_line plugin_name "완료" "info")]
  | Raised e tb => error_lines plugin_name e tb
  end.

(** The entries of a stage list a run calls: the enabled ones, in order. *)
Definition enabled_refs (objs : list PluginMetadata)
    (entries : list (ref * callable)) : list ref :=
  map fst (filter (λ x, is_enabled objs x = true) entries).

(** [self.config = config] *)
Definition configured (config : gmap string pyval) (s : state) : state :=
  {| objects := objects s; self := set_config config (self s); os := os s;
     invoked := invoked s |}.

(** A state changed only by what was printed and which entries were called. *)
Definition ran (out : list event) (called : list ref) (s : state) : state :=
  {| objects := objects s; self := self s;
     os := set_console (λ c, c ++ out) (os s);
     invoked := invoked s ++ called |}.

(** The registry invariant: every stage list is in priority order with ties
    in discovery order and holds live entries of that stage; every metadata
    object is in the list of its stage; every name in [plugins] refers to a
    metadata object of that name. *)
Record registry_ok (objs : list PluginMetadata)
    (pl : gmap string plugin_info)
    (pf : gmap string (list (ref * callable))) : Prop := {
  stage_sorted : ∀ st entries, pf !! st = Some entries →
    StronglySorted (before objs) entries;
  stage_sound : ∀ st entries x, pf !! st = Some entries → x ∈ entries →
    x.1 < length objs ∧ stage (deref objs x.1) = st;
  stage_complete : ∀ r md, objs !! r = Some md →
    ∃ entries f, pf !! stage md = Some entries ∧ (r, f) ∈ entries;
  plugins_sound : ∀ nm info, pl !! nm = Some info →
    ∃ md, objs !! metadata info = Some md ∧ name md = nm;
}.

Definition state_ok (s : state) : Prop :=
  registry_ok (objects s) (plugins (self s)) (plugin_funcs (self s)).

(** A step that leaves the registry and the call trace alone. *)
Definition same_registry (s s' : state) : Prop :=
  objects s' = objects s
  ∧ plugins (self s') = plugins (self s)
  ∧ plugin_funcs (self s') = plugin_funcs (self s)
  ∧ invoked s' = invoked s.

(** The host's calls into the loader. *)
Inductive op :=
| Load (dir : option (list py_file))
| Run (stage : string) (ctx : context) (config : gmap string pyval)
| Enable (name : string)
| Disable (name : string).

Definition step (s : state) (o : op) : state :=
  match o with
  | Load dir => (load_all_plugins dir s).2
  | Run stage ctx config => (run_plugins stage ctx config s).2
  | Enable name => (enable_plugin name s).2
  | Disable name => (disable_plugin name s).2
  end.

Definition after (ops : list op) (s : state) : state := foldl step s ops.

(** A state the host can reach: a new loader, then calls into it. *)
Definition reached (dir : string)
    (lm : option localization.LocalizationManager) (w : World)
    (ops : list op) : state :=
  after ops (start dir lm w).

(** ** Worked inputs *)

Definition nl : string := String (Ascii.ascii_of_nat 10) "".

(** An entry point that raises [ValueError()] (no message). *)
Definition boom : callable :=
  λ ctx _,
    (Raised {| exc_type := "ValueError"; exc_msg := "" |}
       ("Traceback (most recent call last):" +:+ nl +:+
        "  File plugins/broken.py, line 9, in broken" +:+ nl +:+
        "ValueError" +:+ nl),
     ctx).

(** An entry point that leaves its mark in the context and returns it. *)
Definition mark (tag : string) : callable :=
  λ ctx _, (Returned (PyStr tag), <[tag := PyBool true]> ctx).

Definition meta (nm st : string) (p : Z) (on : bool) : PluginMetadata :=
  {| name := nm; stage := st; priority := p; enabled := on;
     description := ""; version := "1.0.0"; permissions := [] |}.

Definition fresh : state := start "/opt/dart/modules/plugins" None catalog_notions.quiet_world.

Definition plugins_with_raiser : option (list py_file) :=
  Some [ {| stem := "broken";
            body := Attributes [(meta "broken" "splash" 3 true, boom)] |};
         {| stem := "helper";
            body := Attributes [(meta "helper" "splash" 1 true, mark "helper")] |} ].

Definition plugins_with_sleeper : option (list py_file) :=
  Some [ {| stem := "sleepy";
            body := Attributes [(meta "sleepy" "splash" 0 false, mark "sleepy")] |} ].

Definition plugins_low_first : option (list py_file) :=
  Some [ {| stem := "pair";
            body := Attributes [(meta "low" "splash" 1 true, mark "low");
                                (meta "high" "splash" 5 true, mark "high")] |} ].

Definition plugins_high_first : option (list py_file) :=
  Some [ {| stem := "pair";
            body := Attributes [(meta "high" "splash" 5 true, mark "high");
                                (meta "low" "splash" 1 true, mark "low")] |} ].

End registry_notions.

(** * The rest of modules/plugin_loader.py *)

Module plugin_loader_rest.
Import plugin_loader.

(** The dict [get_plugin_info] builds for one registered plugin. *)
Definition info_dict (objs : list PluginMetadata) (info : plugin_info)
    : odict.t pyval :=
  [("name", PyStr (name (deref objs (metadata info))));
   ("stage", PyStr (stage (deref objs (metadata info))));
   ("priority", PyInt (priority (deref objs (metadata info))));
   ("enabled", PyBool (enabled (deref objs (metadata info))));
   ("description", PyStr (description (deref objs (metadata info))));
   ("version", PyStr (version (deref objs (metadata info))));
   ("module", PyStr (module info))].

(** What [get_plugin_info] returns: the dict of one plugin, [None], or the
    dict of all plugins by name. *)
Inductive plugin_info_result :=
| OneInfo (d : odict.t pyval)
| NoInfo
| AllInfo (m : gmap string (odict.t pyval)).

Definition get_plugin_info (nm : option string) (s : state) : plugin_info_result :=
  match nm with
  | Some n =>
      if String.eqb n "" then AllInfo (info_dict (objects s) <$> plugins (self s))
      else
        match plugins (self s) !! n with
        | Some info => OneInfo (info_dict (objects s) info)
        | None => NoInfo
        end
  | None => AllInfo (info_dict (objects s) <$> plugins (self s))
  end.








End plugin_loader_rest.

(** * manage_permissions.py *)

Module manage_permissions.

Definition print (line : string) : M World unit := modify (print_line line).

Definition raise {A} (e : exn) : M World A := λ w, (Raise e, w).

(** The exceptions [open] and [json.load] let through; the file model keeps
    their message, the class named here is the usual one. *)
Definition load_error (err : string) : exn :=
  {| exc_type := "JSONDecodeError"; exc_msg := err |}.

Definition write_error (msg : string) : exn :=
  {| exc_type := "OSError"; exc_msg := msg |}.

(** [perm_file.unlink()] *)
Definition remove_perm_file (w : World) : World :=
  {| home := home w; install_dir := install_dir w; stdin := stdin w;
     console := console w; perm_file := Missing;
     perm_disk_error := perm_disk_error w; perm_writes := perm_writes w;
     locale_dirs := locale_dirs w |}.

(** [with open(perm_file, 'w') as f: json.dump(permissions, f, ...)], outside
    any [try]. *)
Definition dump (permissions : permission_store) : M World unit :=
  w <~ get_state ;;;
  match perm_disk_error w with
  | None => modify (write_perm_file permissions)
  | Some msg => raise (write_error msg)
  end.

(** [reset_plugin_permission(plugin_name, permission_name)]: nothing here
    is inside a [try], so what [json.load] or the final [open] raises
    reaches the caller. *)
Definition reset_plugin_permission (plugin_name : string)
    (permission_name : option string) : M World unit :=
  w <~ get_state ;;;
  match perm_file w with
  | Missing => print "저장된 권한이 없습니다."
  | Corrupt err => raise (load_error err)
  | Stored permissions =>
      match permissions !! plugin_name with
      | None => print ("'" +:+ plugin_name +:+ "' 플러그인의 권한이 없습니다.")
      | Some perms =>
          match permission_name with
          | None =>
              print ("✓ '" +:+ plugin_name +:+ "' 플러그인의 모든 권한이 초기화되었습니다.") ;;;
              dump (delete plugin_name permissions)
          | Some permission =>
              match perms !! permission with
              | Some _ =>
                  print ("✓ '" +:+ plugin_name +:+ "' 플러그인의 '" +:+ permission
                           +:+ "' 권한이 초기화되었습니다.") ;;;
                  dump (if decide (delete permission perms = ∅)
                        then delete plugin_name permissions
                        else <[plugin_name := delete permission perms]> permissions)
              | None =>
                  print ("'" +:+ plugin_name +:+ "' 플러그인에 '" +:+ permission
                           +:+ "' 권한이 없습니다.")
              end
          end
      end
  end.

Definition reset_prompt : string :=
  registry_notions.nl +:+ "저장된 모든 권한을 삭제하시겠습니까? (y/n): ".

(** The [while True] loop of [reset_permissions] on the replies left:
    whether to delete, or the [EOFError] of [input]; the replies still
    unread; what was written to the console before the verdict. *)
Fixpoint confirm (replies : list string) (out : list event)
    : res bool * list string * list event :=
  match replies with
  | [] => (Raise localization.EOFError, [], out ++ [Input reset_prompt])
  | choice :: rest =>
      if String.eqb choice "y" then (Ok true, rest, out ++ [Input reset_prompt])
      else if String.eqb choice "n" then (Ok false, rest, out ++ [Input reset_prompt])
      else confirm rest
             (out ++ [Input reset_prompt; Print "y 또는 n을 입력하세요."])
  end.

(** [reset_permissions()].  [perm_file.unlink()] is outside any [try]; it
    is taken to fail where writing the file fails. *)
Definition reset_permissions : M World unit :=
  w <~ get_state ;;;
  match perm_file w with
  | Missing => print "초기화할 권한이 없습니다."
  | _ =>
      choice <~ (λ w, let '(r, rest, out) := confirm (stdin w) [] in
                      (r, set_stdin rest (set_console (λ c, c ++ out) w))) ;;;
      if choice : bool then
        (w1 <~ get_state ;;;
         match perm_disk_error w1 with
         | None => modify remove_perm_file
         | Some msg => raise (write_error msg)
         end) ;;;
        print "✓ 모든 권한이 초기화되었습니다." ;;;
        print "  다음 실행 시 권한을 다시 묻게 됩니다."
      else print "초기화가 취소되었습니다."
  end.

End manage_permissions.

(** * The plugin backbone of main.py *)

Module main_py.
Import plugin_loader plugin_loader_rest.




End main_py.

(** * The module-level shorthand of modules/localization.py *)

Module shorthand.
Import localization.

(** The module's global [_default_manager] and the world. *)
Record globals := {
  _default_manager : option LocalizationManager;
  world : World;
}.

(** [get_localization_manager()]: the manager, constructed at first use. *)
Definition get_localization_manager (g : globals)
    : LocalizationManager * globals :=
  match _default_manager g with
  | Some m => (m, g)
  | None =>
      let mw := __init__ None None (world g) in
      (mw.1, {| _default_manager := Some mw.1; world := mw.2 |})
  end.

(** [manager = get_localization_manager()] followed by a method call on
    [manager]: the method acts on the object the global refers to. *)
Definition on_manager {A} (c : M state A) (g : globals) : res A * globals :=
  let mg := get_localization_manager g in
  let rs := c {| self := mg.1; os := world mg.2 |} in
  (rs.1, {| _default_manager := Some (self rs.2); world := os rs.2 |}).

(** The function named [_]. *)
Definition translate (key : string) (plugin_name dflt : option string)
    : globals → res string * globals :=
  on_manager (get_text key plugin_name dflt).

Definition set_language (language : string) : globals → res bool * globals :=
  on_manager (localization.set_language language).

(** [LocalizationManager.SUPPORTED_LANGUAGES.copy()] *)
Definition get_supported_languages : list string := SUPPORTED_LANGUAGES.

End shorthand.

(** * Notions the further statements are written with *)

Module more_notions.
Import localization catalog_notions.

(** A reply [_ask_user_permission] accepts. *)
Definition valid_reply (choice : string) : bool :=
  str_in choice ["y"; "yes"] || str_in choice ["n"; "no"].

(** How often [input] has been called. *)
Definition is_input (e : event) : bool :=
  match e with
  | Input _ => true
  | Print _ => false
  end.

Definition inputs (l : list event) : nat :=
  length (filter (λ e, is_input e = true) l).

(** No granted list holds a capability twice. *)
Definition perms_nodup (m : LocalizationManager) : Prop :=
  ∀ p held, plugin_permissions m !! p = Some held → NoDup held.

(** The decision a stored permission file holds for a pair. *)
Definition stored (st : permission_store) (plugin_name permission : string)
    : option bool :=
  match st !! plugin_name with
  | Some decided => decided !! permission
  | None => None
  end.

(** Every decision in memory is in the permission file. *)
Definition flushed (s : state) : Prop :=
  ∀ n q b, decision (self s) n q = Some b →
    ∃ st, perm_file (os s) = Stored st ∧ stored st n q = Some b.

(** The text the last item of a key gives it, if any item has the key. *)
Fixpoint last_text (items : list (string * string)) (k : string) : option string :=
  match items with
  | [] => None
  | kv :: rest =>
      match last_text rest k with
      | Some v => Some v
      | None => if String.eqb kv.1 k then Some kv.2 else None
      end
  end.

(** The items of the files of a language directory that load, in order. *)
Definition file_items (files : list locale_file) : list (string * string) :=
  concat (map (λ f, default [] (lf_content f)) files).

(** The same with each key prefixed by its file's stem, as the host
    catalog keeps them. *)
Definition prefixed_items (files : list locale_file) : list (string * string) :=
  concat (map (λ f, map (λ kv, (lf_stem f +:+ "." +:+ kv.1, kv.2))
                        (default [] (lf_content f))) files).

(** The requested capabilities the operator has to be asked about: those
    without a decision, each once. *)
Definition to_ask (m : LocalizationManager) (plugin_name : string)
    (permissions : list string) : list string :=
  remove_dups (filter (λ q, decision m plugin_name q = None) permissions).

(** Two worlds that differ in what was printed at most. *)
Definition only_printed (w w' : World) : Prop :=
  same_disk w w' ∧ stdin w' = stdin w ∧ locale_dirs w' = locale_dirs w
  ∧ home w' = home w ∧ install_dir w' = install_dir w.

(** ** Worked inputs *)

(** An installation whose host catalog has an English directory with one
    file, and whose plugin directory has Korean texts for extensions in
    three files, the second of which does not load. *)
Definition host_files : locale_tree :=
  <["en" := [{| lf_stem := "common";
                lf_content := Some [("welcome", "Welcome")] |}]]> ∅.

Definition overlay_files : locale_tree :=
  <["ko" := [{| lf_stem := "labels";
                lf_content := Some [("greeting", "날씨"); ("title", "예보")] |};
             {| lf_stem := "broken"; lf_content := None |};
             {| lf_stem := "more";
                lf_content := Some [("greeting", "오늘의 날씨")] |}]]> ∅.

Definition installed_world : World :=
  {| home := "/home/op"; install_dir := "/opt/dart"; stdin := [];
     console := []; perm_file := Missing; perm_disk_error := None;
     perm_writes := [];
     locale_dirs :=
       <["/opt/dart/locales" := host_files]>
         (<["/opt/dart/modules/plugins/locales" := overlay_files]> ∅) |}.

End more_notions.

Module loading_notions.
Import plugin_loader registry_notions.

(** The decorated attributes [load_all_plugins] finds in one file: those of
    a module that executes, [__init__.py] being passed over. *)
Definition attrs_of (f : py_file) : list (PluginMetadata * callable) :=
  if String.eqb (stem f +:+ ".py") "__init__.py" then []
  else
    match body f with
    | ExecFails _ => []
    | Attributes attrs => attrs
    end.

Definition decorated (files : list py_file) : list (PluginMetadata * callable) :=
  concat (map attrs_of files).

(** Every metadata object has its name in [plugins], and the entry of a
    name refers to the object of that name discovered last. *)
Definition names_latest (objs : list PluginMetadata)
    (pl : gmap string plugin_info) : Prop :=
  ∀ r md, objs !! r = Some md →
    ∃ info, pl !! name md = Some info ∧ (r ≤ metadata info)%nat.


(** ** Worked inputs *)

(** Two modules that both register an entry point named [twin]. *)
Definition plugins_with_twins : option (list py_file) :=
  Some [ {| stem := "first";
            body := Attributes [(meta "twin" "splash" 2 true, mark "first")] |};
         {| stem := "second";
            body := Attributes [(meta "twin" "splash" 1 true, mark "second")] |} ].

(** A module whose entry point asks for a capability. *)
Definition asking : PluginMetadata :=
  {| name := "weather_overlay"; stage := "splash"; priority := 0;
     enabled := true; description := "labels"; version := "1.0.0";
     permissions := ["write_locales"] |}.

Definition plugins_asking : list py_file :=
  [ {| stem := "__init__"; body := Attributes [] |};
    {| stem := "weather";
       body := Attributes [(asking, mark "weather")] |};
    {| stem := "stale";
       body := ExecFails {| exc_type := "ImportError";
                            exc_msg := "No module named requests" |} |} ].

End loading_notions.

Module admin_notions.
Import catalog_notions more_notions.

(** The decision the permission file holds for a pair, none when the file
    is missing or does not load. *)
Definition on_disk (w : World) (plugin_name permission : string) : option bool :=
  match perm_file w with
  | Stored st => stored st plugin_name permission
  | _ => None
  end.

(** ** Worked inputs *)

Definition two_plugins_store : permission_store :=
  <["weather_overlay" := <["read_main_locales" := true]>
                           (<["write_locales" := false]> ∅)]>
    (<["sample" := <["write_locales" := true]> ∅]> ∅).

(** A machine whose permission file holds a store, with the operator's
    replies. *)
Definition disk_with (st : permission_store) (replies : list string) : World :=
  {| home := "/home/op"; install_dir := "/opt/dart"; stdin := replies;
     console := []; perm_file := Stored st; perm_disk_error := None;
     perm_writes := []; locale_dirs := ∅ |}.

End admin_notions.

(** * Proofs: ordered dictionaries *)

Lemma odict_get_set_eq {V} k (v : V) d : odict.get k (odict.set k v d) = Some v.
Proof.
  induction d as [|[k' v'] d IH]; simpl.
  - by rewrite String.eqb_refl.
  - destruct (String.eqb k' k) eqn:E; simpl; by rewrite E.
Qed.

Lemma odict_get_set_ne {V} k k' (v : V) d :
  k ≠ k' → odict.get k' (odict.set k v d) = odict.get k' d.
Proof.
  intros Hne. induction d as [|[k0 v0] d IH]; simpl.
  - by destruct (String.eqb_spec k k').
  - destruct (String.eqb_spec k0 k) as [->|]; simpl.
    + by destruct (String.eqb_spec k k').
    + by rewrite IH.
Qed.

Module catalog_proofs.
Import localization catalog_notions.

(** * Proofs: the localization catalog *)

Section get_text_facts.
Context (s : state) (key : string) (plugin_name dflt : option string).

Lemma text_in_empty lang : text_in ∅ lang key = None.
Proof. unfold text_in. by rewrite lookup_empty. Qed.

Lemma find_text_empty cur : find_text ∅ cur key = None.
Proof. unfold find_text. by rewrite !text_in_empty. Qed.

(** [get_text] never prints, never raises, and is settled by the tables of
    the namespace its scope selects. *)
Lemma get_text_resolves :
  get_text key plugin_name dflt s =
    (Ok match find_text (namespace (self s) plugin_name)
                (current_language (self s)) key with
        | Some v => v
        | None => py_or dflt key
        end, s).
Proof.
  unfold get_text, namespace, bind, get_state, ret.
  destruct (extension_scope plugin_name) as [p|]; simpl.
  - destruct (plugin_translations (self s) !! p) as [t|]; simpl.
    + by destruct (find_text t _ key).
    + by rewrite find_text_empty.
  - by destruct (find_text _ _ key).
Qed.
End get_text_facts.




(** C2, as stated, fails: with English current, a key the host catalog has
    only in Korean resolves to the Korean text, not to the supplied default;
    and an empty supplied default gives the key. *)
Lemma C2_counterexample :
  (get_text "common.greeting" None (Some "hello") (session "en" quiet_world)).1
    = Ok "안녕하세요"
  ∧ (get_text "common.greeting" None (Some "hello") (session "en" quiet_world)).1
    ≠ Ok (spec_resolve (namespace (catalog "en") None) "en"
            "common.greeting" (Some "hello"))
  ∧ (get_text "no.such.key" None (Some "") (session "en" quiet_world)).1
    ≠ Ok (spec_resolve (namespace (catalog "en") None) "en"
            "no.such.key" (Some "")).
Proof. vm_compute. repeat split; discriminate. Qed.

(** C2, amended. [get_text] resolves in this order: the current-language
    table of the target namespace, then its "ko" table, then its "en" table,
    then the supplied default when it is a non-empty string, then the key. *)
Theorem C2_resolution_order
    (s : state) (key : string) (plugin_name dflt : option string) :
  (∀ v, table_text s plugin_name (current_language (self s)) key = Some v →
        get_text key plugin_name dflt s = (Ok v, s))
  ∧ (table_text s plugin_name (current_language (self s)) key = None →
     (∀ v, table_text s plugin_name "ko" key = Some v →
           get_text key plugin_name dflt s = (Ok v, s))
     ∧ (table_text s plugin_name "ko" key = None →
        (∀ v, table_text s plugin_name "en" key = Some v →
              get_text key plugin_name dflt s = (Ok v, s))
        ∧ (table_text s plugin_name "en" key = None →
           (∀ d, dflt = Some d → d ≠ "" →
                 get_text key plugin_name dflt s = (Ok d, s))
           ∧ (dflt = None ∨ dflt = Some "" →
              get_text key plugin_name dflt s = (Ok key, s))))).
Proof.
  rewrite get_text_resolves. unfold table_text, find_text. split.
  { by intros v ->. }
  intros ->. split.
  { by intros v ->. }
  intros ->. split.
  { by intros v ->. }
  intros ->. split.
  - intros d -> Hd. simpl. destruct (String.eqb_spec d ""); done.
  - by intros [-> | ->].
Qed.

Lemma C2_witness :
  get_text "common.welcome" None None (session "ko" quiet_world)
    = (Ok "Welcome", session "ko" quiet_world)
  ∧ get_text "no.such.key" None None (session "ko" quiet_world)
    = (Ok "no.such.key", session "ko" quiet_world).
Proof.
  split.
  - destruct (C2_resolution_order (session "ko" quiet_world)
                "common.welcome" None None) as [_ H].
    destruct H as [_ H]; [vm_compute; reflexivity|].
    destruct H as [H _]; [vm_compute; reflexivity|].
    apply H. vm_compute. reflexivity.
  - destruct (C2_resolution_order (session "ko" quiet_world)
                "no.such.key" None None) as [_ H].
    destruct H as [_ H]; [vm_compute; reflexivity|].
    destruct H as [_ H]; [vm_compute; reflexivity|].
    destruct H as [_ H]; [vm_compute; reflexivity|].
    apply H. left. reflexivity.
Defined.

(** * Proofs: the permission store *)

Ltac not_banner :=
  let H := fresh in
  intros H; injection H as H;
  cbv [banner rule str_mul plugin_line level_prefix String.eqb Ascii.eqb
       Bool.eqb ask_prompt] in H;
  simpl in H; discriminate H.

Lemma banners_app name l1 l2 :
  banners name (l1 ++ l2) = (banners name l1 + banners name l2)%nat.
Proof. unfold banners. by rewrite filter_app, length_app. Qed.

Lemma banners_other name e :
  e ≠ Print (banner name) → banners name [e] = 0%nat.
Proof.
  intros H. unfold banners. rewrite filter_cons.
  by destruct (decide (e = Print (banner name))).
Qed.

Lemma banners_banner name : banners name [Print (banner name)] = 1%nat.
Proof.
  unfold banners. rewrite filter_cons.
  by destruct (decide (Print (banner name) = Print (banner name))).
Qed.

Lemma banners_snoc_other name l e :
  e ≠ Print (banner name) → banners name (l ++ [e]) = banners name l.
Proof. intros H. rewrite banners_app, banners_other by done. lia. Qed.

Lemma banners_read_choice name replies out :
  banners name (read_choice replies out).2 = banners name out.
Proof.
  revert out. induction replies as [|choice rest IH]; intros out; simpl.
  - apply banners_snoc_other. discriminate.
  - destruct (_ || _); simpl.
    { rewrite banners_app, banners_snoc_other by discriminate.
      change [Print "✓ 권한이 부여되었습니다."; Print rule]
        with ([Print "✓ 권한이 부여되었습니다."] ++ [Print rule]).
      rewrite banners_app, !banners_other by not_banner. lia. }
    destruct (_ || _); simpl.
    { rewrite banners_app, banners_snoc_other by discriminate.
      change [Print "✗ 권한이 거부되었습니다."; Print rule]
        with ([Print "✗ 권한이 거부되었습니다."] ++ [Print rule]).
      rewrite banners_app, !banners_other by not_banner. lia. }
    rewrite IH, !banners_snoc_other; [done|discriminate|not_banner].
Qed.

(** [_ask_user_permission] talks to the operator and touches nothing else:
    the manager and the permission file stay as they are, and the banner of
    the extension is shown exactly once. *)
Lemma ask_effect name perm reason s :
  ∃ r w', _ask_user_permission name perm reason s = (r, with_world w' s)
          ∧ same_disk (os s) w'
          ∧ shown name w' = S (shown name (os s)).
Proof.
  pose proof (banners_read_choice name (stdin (os s)) []) as Hb.
  unfold _ask_user_permission, bind, print, on_world, modify, ret. simpl.
  destruct (String.eqb reason ""); simpl;
    destruct (read_choice (stdin (os s)) []) as [[r rest] out];
    eexists _, _; (split; [reflexivity|]); (split; [done|]);
    unfold shown; simpl; simpl in Hb;
    rewrite banners_app, Hb;
    rewrite ?banners_snoc_other by not_banner;
    rewrite banners_app, banners_banner;
    rewrite ?banners_snoc_other by not_banner;
    change (banners name []) with 0%nat; lia.
Qed.

Lemma str_in_app x l1 l2 : str_in x (l1 ++ l2) = str_in x l1 || str_in x l2.
Proof. apply existsb_app. Qed.

Lemma str_in_remove_ne x q l :
  x ≠ q → str_in x (list_remove q l) = str_in x l.
Proof.
  intros Hne. induction l as [|y l IH]; simpl; [done|].
  destruct (String.eqb_spec q y) as [->|Hq]; simpl.
  - by destruct (String.eqb_spec x y).
  - by rewrite IH.
Qed.

Lemma decision_insert m name p g n q :
  decision
    (set_permission_cache
       (<[name := <[p := g]> (default ∅ (permission_cache m !! name))]>
          (permission_cache m)) m) n q
  = if decide (n = name ∧ q = p) then Some g else decision m n q.
Proof.
  unfold decision. simpl.
  destruct (decide (n = name)) as [->|Hn].
  - rewrite lookup_insert_eq.
    destruct (decide (q = p)) as [->|Hq].
    + rewrite lookup_insert_eq. by rewrite decide_True.
    + rewrite lookup_insert_ne by done. rewrite decide_False by (by intros [? ?]).
      destruct (permission_cache m !! name); simpl; [done|apply lookup_empty].
  - rewrite lookup_insert_ne by done. by rewrite decide_False by (by intros [? ?]).
Qed.

Lemma request_one_decided name reason acc p s b :
  decision (self s) name p = Some b →
  request_one name reason acc p s = (Ok (odict.set p b acc.1, acc.2), s).
Proof. intros H. unfold request_one, bind, get_state, ret. by rewrite H. Qed.

(** A turn for an undecided capability: the operator is asked once; on an
    answer the pair, and only the pair, enters the cache, and only that
    capability is added to or dropped from the extension's granted list. *)
Lemma request_one_undecided name reason acc p s :
  decision (self s) name p = None →
  ∃ r w', same_disk (os s) w'
    ∧ shown name w' = S (shown name (os s))
    ∧ match r with
      | Raise e => request_one name reason acc p s = (Raise e, with_world w' s)
      | Ok g =>
          ∃ m', request_one name reason acc p s
                  = (Ok (odict.set p g acc.1, true), {| self := m'; os := w' |})
            ∧ (∀ n q, decision m' n q
                       = if decide (n = name ∧ q = p) then Some g
                         else decision (self s) n q)
            ∧ (∀ q, q ≠ p →
                 str_in q (get_plugin_permissions m' name)
                 = str_in q (get_plugin_permissions (self s) name))
      end.
Proof.
  intros H. unfold request_one, bind, get_state. rewrite H.
  destruct (ask_effect name p reason s) as (r & w' & Hask & Hdisk & Hshown).
  rewrite Hask. destruct r as [g|e].
  - destruct g.
    + eexists (Ok true), _. split; [|split]; last first.
      * eexists. split; [reflexivity|]. split.
        -- intros n q. apply decision_insert.
        -- intros q Hq. unfold get_plugin_permissions. simpl.
           rewrite lookup_insert_eq. simpl.
           destruct (str_in p _) eqn:Hin; [done|].
           rewrite str_in_app. simpl.
           destruct (String.eqb_spec q p); [done|]. by rewrite !orb_false_r.
      * unfold shown in *. simpl. rewrite banners_snoc_other by not_banner.
        apply Hshown.
      * done.
    + unfold deny_plugin_permission, grant_plugin_permission, on_self,
        plugin_print, on_world, modify, bind, ret. simpl.
      eexists (Ok false), _. split; [|split]; last first.
      * eexists. split; [reflexivity|]. split.
        -- intros n q. simpl.
           destruct (plugin_permissions (self s) !! name) as [held|];
             [destruct (str_in p held)|]; apply decision_insert.
        -- intros q Hq. unfold get_plugin_permissions. simpl.
           destruct (plugin_permissions (self s) !! name) as [held|] eqn:Hh;
             [destruct (str_in p held)|]; simpl; rewrite ?Hh; try done.
           rewrite lookup_insert_eq. simpl. by apply str_in_remove_ne.
      * unfold shown in *. simpl. rewrite banners_snoc_other by not_banner.
        apply Hshown.
      * done.
  - exists (Raise e), w'. done.
Qed.

Lemma same_disk_refl w : same_disk w w.
Proof. done. Qed.

Lemma same_disk_trans w1 w2 w3 :
  same_disk w1 w2 → same_disk w2 w3 → same_disk w1 w3.
Proof. unfold same_disk. intros (?&?&?) (?&?&?). repeat split; congruence. Qed.

(** The loop of [request_plugin_permission], however it ends. *)
Lemma request_loop name reason perms : ∀ acc s out s',
  foldM (request_one name reason) perms acc s = (out, s') →
  same_disk (os s) (os s')
  ∧ (shown name (os s') ≤ shown name (os s) + length perms)%nat
  ∧ (∀ n q b, decision (self s) n q = Some b → decision (self s') n q = Some b)
  ∧ (∀ q b, decision (self s) name q = Some b →
       str_in q (get_plugin_permissions (self s') name)
       = str_in q (get_plugin_permissions (self s) name))
  ∧ (∀ r, out = Ok r →
       r.2 = acc.2 || undecided (self s) name perms
       ∧ ∀ q b, decision (self s) name q = Some b →
                q ∈ perms ∨ odict.get q acc.1 = Some b →
                odict.get q r.1 = Some b).
Proof.
  induction perms as [|p rest IH]; intros acc s out s' Hrun; simpl in Hrun.
  - unfold ret in Hrun. injection Hrun as <- <-.
    split; [done|]. split; [lia|]. split; [done|]. split; [done|].
    intros r [= <-]. split; [by rewrite orb_false_r|].
    intros q b _ [Hin|Hget]; [by apply elem_of_nil in Hin|done].
  - unfold bind in Hrun.
    destruct (decision (self s) name p) as [b0|] eqn:Hp.
    + rewrite (request_one_decided _ _ _ _ _ b0) in Hrun by done.
      destruct (IH _ _ _ _ Hrun) as (Hd & Hs & Hk & Hg & Hr).
      split; [done|]. split; [simpl; lia|]. split; [done|]. split; [done|].
      intros r Hout. destruct (Hr r Hout) as [Hflag Hres]. split.
      * rewrite Hflag. unfold undecided. simpl. rewrite Hp.
        by rewrite bool_decide_eq_false_2.
      * intros q b Hq Hor. apply Hres; [done|].
        destruct (decide (q = p)) as [->|Hne].
        -- right. simpl. rewrite odict_get_set_eq. congruence.
        -- destruct Hor as [Hin|Hget].
           ++ apply elem_of_cons in Hin as [?|?]; [done|by left].
           ++ right. simpl. by rewrite odict_get_set_ne.
    + destruct (request_one_undecided name reason acc p s Hp)
        as (r0 & w' & Hdisk & Hshown & Hcase).
      destruct r0 as [g|e].
      * destruct Hcase as (m' & Hone & Hdec & Hmem). rewrite Hone in Hrun.
        destruct (IH _ _ _ _ Hrun) as (Hd & Hs & Hk & Hg & Hr).
        simpl in *.
        assert (Hkeep : ∀ n q b, decision (self s) n q = Some b →
                                  decision m' n q = Some b).
        { intros n q b Hq. rewrite Hdec.
          destruct (decide _) as [[-> ->]|]; [congruence|done]. }
        split; [by eapply same_disk_trans|].
        split; [lia|]. split; [by auto|]. split.
        { intros q b Hq. rewrite (Hg q b) by auto. apply Hmem.
          intros ->. congruence. }
        intros r Hout. destruct (Hr r Hout) as [Hflag Hres]. split.
        -- rewrite Hflag. unfold undecided. simpl. rewrite Hp.
           rewrite bool_decide_eq_true_2 by done. simpl.
           by rewrite orb_true_r.
        -- intros q b Hq Hor. apply Hres; [by auto|].
           assert (q ≠ p) by (intros ->; congruence).
           destruct Hor as [Hin|Hget].
           ++ apply elem_of_cons in Hin as [?|?]; [done|by left].
           ++ right. by rewrite odict_get_set_ne.
      * rewrite Hcase in Hrun. injection Hrun as <- <-. simpl.
        split; [done|]. split; [lia|]. split; [done|]. split; [done|].
        intros r [=].
Qed.

(** When every requested capability is decided the loop asks nothing and
    changes nothing. *)
Lemma request_loop_decided name reason perms : ∀ acc s,
  (∀ q, q ∈ perms → is_Some (decision (self s) name q)) →
  ∃ r, foldM (request_one name reason) perms acc s = (Ok (r, acc.2), s).
Proof.
  induction perms as [|p rest IH]; intros acc s Hall; simpl.
  - exists acc.1. unfold ret. by destruct acc.
  - destruct (Hall p) as [b Hb]; [by left|].
    unfold bind. rewrite (request_one_decided _ _ _ _ _ b) by done.
    destruct (IH (odict.set p b acc.1, acc.2) s) as [r Hr].
    { intros q Hq. apply Hall. by right. }
    exists r. apply Hr.
Qed.

Lemma save_effect s :
  _save_permissions_to_file s =
    (Ok tt,
     with_world
       match perm_disk_error (os s) with
       | None => write_perm_file (permission_cache (self s)) (os s)
       | Some err =>
           plugin_print_w "LocalizationManager"
             ("[Error] 권한 파일 저장 실패: " +:+ err) "error" (os s)
       end s).
Proof.
  unfold _save_permissions_to_file, bind, get_state.
  by destruct (perm_disk_error (os s)).
Qed.

Lemma save_shown name s :
  shown name (os (_save_permissions_to_file s).2) = shown name (os s).
Proof.
  rewrite save_effect. simpl. destruct (perm_disk_error (os s)); [|done].
  unfold shown. simpl. apply banners_snoc_other. not_banner.
Qed.

(** [request_plugin_permission] is its loop followed by at most one save. *)
Lemma request_unfold name perms reason s :
  request_plugin_permission name perms reason s =
    match foldM (request_one name reason) perms ([], false) s with
    | (Ok acc, s1) =>
        (Ok acc.1, if acc.2 then (_save_permissions_to_file s1).2 else s1)
    | (Raise e, s1) => (Raise e, s1)
    end.
Proof.
  unfold request_plugin_permission, bind.
  destruct (foldM _ perms _ s) as [[[r flag]|e] s1]; [|done]. simpl.
  destruct flag; [|done]. by rewrite save_effect.
Qed.

(** A request for one capability: a decided pair is answered from the cache
    with nothing touched; an undecided one shows the banner once and, if the
    operator answers, leaves the pair decided. *)
Lemma request_single name perm reason s r s1 :
  request_plugin_permission name [perm] reason s = (Ok r, s1) →
  ∃ b, r = [(perm, b)]
       ∧ decision (self s1) name perm = Some b
       ∧ (shown name (os s1) ≤ shown name (os s) + 1)%nat.
Proof.
  rewrite request_unfold. simpl. unfold bind.
  destruct (decision (self s) name perm) as [b|] eqn:Hp.
  - rewrite (request_one_decided _ _ _ _ _ b) by done. simpl.
    intros [= <- <-]. exists b. split; [done|].
    split; [done|lia].
  - destruct (request_one_undecided name reason ([], false) perm s Hp)
      as (r0 & w' & Hdisk & Hshown & Hcase).
    destruct r0 as [g|e].
    + destruct Hcase as (m' & Hone & Hdec & _). rewrite Hone. simpl.
      intros [= <- <-]. exists g. split; [done|]. split.
      * rewrite save_effect. simpl. rewrite Hdec. by rewrite decide_True.
      * rewrite save_shown. simpl. lia.
    + rewrite Hcase. simpl. discriminate.
Qed.

Lemma request_decided_single name perm reason s b :
  decision (self s) name perm = Some b →
  request_plugin_permission name [perm] reason s = (Ok [(perm, b)], s).
Proof.
  intros Hp. rewrite request_unfold. simpl. unfold bind.
  by rewrite (request_one_decided _ _ _ _ _ b).
Qed.

Lemma request_keeps_decisions name perms reason s out s' :
  request_plugin_permission name perms reason s = (out, s') →
  (∀ n q b, decision (self s) n q = Some b → decision (self s') n q = Some b)
  ∧ (∀ q b, decision (self s) name q = Some b →
       str_in q (get_plugin_permissions (self s') name)
       = str_in q (get_plugin_permissions (self s) name))
  ∧ (∀ r q b, out = Ok r → decision (self s) name q = Some b → q ∈ perms →
       odict.get q r = Some b).
Proof.
  rewrite request_unfold.
  destruct (foldM _ perms _ s) as [[acc|e] s1] eqn:Hloop;
    destruct (request_loop _ _ _ _ _ _ _ Hloop) as (_ & _ & Hk & Hg & Hr).
  - intros [= <- <-].
    assert (self (if acc.2 then (_save_permissions_to_file s1).2 else s1)
            = self s1) as ->.
    { destruct acc.2; [|done]. by rewrite save_effect. }
    split; [done|]. split; [done|].
    intros r q b [= <-] Hq Hin. destruct (Hr acc eq_refl) as [_ Hres].
    apply (Hres q b); auto.
  - intros [= <- <-]. split; [done|]. split; [done|]. intros r q b [=].
Qed.

(** C5. Once a decision is recorded for an (extension, capability) pair, a
    later request for the pair returns the stored value and leaves the
    manager, the console and the operator's input untouched; no request, for
    any extension and however it ends, changes the record; and of two
    single-capability requests for one pair the second returns what the
    first did without touching anything, so the operator is shown the
    request at most once. *)
Theorem C5_decision_is_terminal :
  (∀ (s : state) (name perm : string) (b : bool),
     decision (self s) name perm = Some b →
     (∀ reason,
        request_plugin_permission name [perm] reason s = (Ok [(perm, b)], s))
     ∧ (∀ other perms reason out s',
          request_plugin_permission other perms reason s = (out, s') →
          decision (self s') name perm = Some b)
     ∧ (∀ perms reason r s',
          perm ∈ perms →
          request_plugin_permission name perms reason s = (Ok r, s') →
          odict.get perm r = Some b))
  ∧ (∀ (s : state) (name perm reason1 reason2 : string) r s1,
       request_plugin_permission name [perm] reason1 s = (Ok r, s1) →
       request_plugin_permission name [perm] reason2 s1 = (Ok r, s1)
       ∧ (shown name (os s1) ≤ shown name (os s) + 1)%nat).
Proof.
  split.
  - intros s name perm b Hp. split; [|split].
    + intros reason. by apply request_decided_single.
    + intros other perms reason out s' Hrun.
      destruct (request_keeps_decisions _ _ _ _ _ _ Hrun) as (Hk & _ & _).
      by apply Hk.
    + intros perms reason r s' Hin Hrun.
      destruct (request_keeps_decisions _ _ _ _ _ _ Hrun) as (_ & _ & Hr).
      by apply (Hr r perm b).
  - intros s name perm reason1 reason2 r s1 Hrun.
    destruct (request_single _ _ _ _ _ _ Hrun) as (b & -> & Hb & Hshown).
    split; [by apply request_decided_single|done].
Qed.

Lemma C5_witness :
  (decision (set_permission_cache granted_store (catalog "ko"))
     "weather_overlay" "read_main_locales" = Some true
   ∧ request_plugin_permission "weather_overlay" ["read_main_locales"] "labels"
       {| self := set_permission_cache granted_store (catalog "ko");
          os := quiet_world |}
     = (Ok [("read_main_locales", true)],
        {| self := set_permission_cache granted_store (catalog "ko");
           os := quiet_world |}))
  ∧ request_plugin_permission "weather_overlay" ["read_main_locales"] "again"
      (request_plugin_permission "weather_overlay" ["read_main_locales"]
         "map labels" (session "ko" (answers ["maybe"; "n"]))).2
    = (Ok [("read_main_locales", false)],
       (request_plugin_permission "weather_overlay" ["read_main_locales"]
          "map labels" (session "ko" (answers ["maybe"; "n"]))).2).
Proof.
  split.
  - assert (H : decision (set_permission_cache granted_store (catalog "ko"))
                  "weather_overlay" "read_main_locales" = Some true)
      by (vm_compute; reflexivity).
    split; [exact H|].
    apply (proj1 (proj1 C5_decision_is_terminal
                    {| self := set_permission_cache granted_store (catalog "ko");
                       os := quiet_world |}
                    "weather_overlay" "read_main_locales" true H)).
  - apply (proj2 C5_decision_is_terminal
             (session "ko" (answers ["maybe"; "n"]))
             "weather_overlay" "read_main_locales" "map labels" "again").
    vm_compute. reflexivity.
Defined.

(** ** Construction and the permission file *)

Lemma keeps_permissions_refl s : keeps_permissions s s.
Proof. done. Qed.

Lemma keeps_permissions_trans s1 s2 s3 :
  keeps_permissions s1 s2 → keeps_permissions s2 s3 → keeps_permissions s1 s3.
Proof.
  unfold keeps_permissions. intros (?&?&?) (?&?&?).
  split; [congruence|]. split; [congruence|]. by eapply same_disk_trans.
Qed.

Lemma load_main_files_frame lang_dir files : ∀ tr s,
  ∃ tr' w', foldM (load_main_file lang_dir) files tr s = (Ok tr', with_world w' s)
            ∧ same_disk (os s) w'.
Proof.
  induction files as [|f files IH]; intros tr s; simpl.
  - exists tr, (os s). by destruct s.
  - unfold bind, load_main_file at 1.
    destruct (lf_content f) as [items|]; simpl.
    + apply IH.
    + unfold plugin_print, on_world, modify, bind, ret. simpl.
      match goal with
      | |- context [foldM _ files tr ?s0] =>
          destruct (IH tr s0) as (tr' & w' & Hrun & Hdisk)
      end.
      exists tr', w'. by rewrite Hrun.
Qed.

Lemma load_main_keeps s :
  ∃ s', _load_main_translations s = (Ok tt, s') ∧ keeps_permissions s s'.
Proof.
  assert (Hstep : ∀ lang s0, ∃ s1,
    (s <~ get_state ;;;
     match default ∅ (locale_dirs (os s) !! locales_dir (self s)) !! lang with
     | None => ret tt
     | Some files =>
         tr <~ foldM (load_main_file (path_join (locales_dir (self s)) lang))
                 files ∅ ;;;
         on_self (λ m, set_translations (<[lang := tr]> (translations m)) m)
     end) s0 = (Ok tt, s1) ∧ keeps_permissions s0 s1).
  { intros lang s0. unfold bind, get_state.
    destruct (default ∅ _ !! lang) as [files|]; [|by exists s0].
    destruct (load_main_files_frame
                (path_join (locales_dir (self s0)) lang) files ∅ s0)
      as (tr' & w' & -> & Hdisk).
    eexists. split; [reflexivity|]. done. }
  unfold _load_main_translations, SUPPORTED_LANGUAGES. simpl.
  destruct (Hstep "ko" s) as (s1 & H1 & K1).
  destruct (Hstep "en" s1) as (s2 & H2 & K2).
  exists s2. split; [|by eapply keeps_permissions_trans].
  unfold bind at 1. rewrite H1. unfold bind at 1. by rewrite H2.
Qed.

Lemma load_permissions_effect s :
  _load_permissions_from_file s =
    (Ok tt,
     match perm_file (os s) with
     | Missing => s
     | Corrupt err =>
         with_world
           (plugin_print_w "LocalizationManager"
              ("[Error] 권한 파일 로드 실패: " +:+ err) "error" (os s)) s
     | Stored store =>
         {| self := set_permission_cache store (self s);
            os := plugin_print_w "LocalizationManager"
                    ("저장된 권한 로드: " +:+ permission_storage_file (self s))
                    "info" (os s) |}
     end).
Proof.
  unfold _load_permissions_from_file, bind, get_state.
  by destruct (perm_file (os s)).
Qed.

(** A new manager holds no granted capability, and its decision cache is
    what the permission file stores, or empty when the file is missing or
    does not load; constructing it writes nothing to the file. *)
Lemma init_permissions w locales_dir system_language :
  plugin_permissions (__init__ locales_dir system_language w).1 = ∅
  ∧ permission_cache (__init__ locales_dir system_language w).1
    = match perm_file w with
      | Stored store => store
      | _ => ∅
      end
  ∧ same_disk w (__init__ locales_dir system_language w).2.
Proof.
  unfold __init__. cbv zeta.
  match goal with
  | |- context [bind _ _ ?s0] =>
      assert (∃ s', bind _load_permissions_from_file
                      (λ _, _load_main_translations) s0 = (Ok tt, s')
                ∧ plugin_permissions (self s') = ∅
                ∧ permission_cache (self s')
                  = match perm_file w with Stored store => store | _ => ∅ end
                ∧ same_disk w (os s')) as (s' & -> & ? & ? & ?); [|done]
  end.
  unfold bind. rewrite load_permissions_effect. cbn [fst snd].
  match goal with
  | |- context [_load_main_translations ?s0] =>
      destruct (load_main_keeps s0) as (s' & -> & Hc & Hp & Hd)
  end.
  exists s'. split; [done|]. rewrite Hc, Hp.
  simpl in *. destruct (perm_file w); simpl in *; done.
Qed.

(** C7. A request for a pair whose decision is already cached returns the
    cached boolean and does not change whether the capability is in the
    extension's granted list (a request all of whose capabilities are
    cached leaves [plugin_permissions] as it is); so in a fresh session that
    loaded the pair from the file as granted, [_check_permission] for it is
    still false unless the capability is [read_locales]. *)
Theorem C7_cached_decision_grants_nothing :
  (∀ (s : state) (name perm : string) (b : bool) perms reason out s',
     decision (self s) name perm = Some b →
     request_plugin_permission name perms reason s = (out, s') →
     str_in perm (get_plugin_permissions (self s') name)
       = str_in perm (get_plugin_permissions (self s) name)
     ∧ (∀ r, out = Ok r → perm ∈ perms → odict.get perm r = Some b)
     ∧ ((∀ q, q ∈ perms → is_Some (decision (self s) name q)) →
        plugin_permissions (self s') = plugin_permissions (self s)))
  ∧ (∀ (w : World) locales_dir system_language store granted name perm reason,
       perm_file w = Stored store →
       store !! name = Some granted →
       granted !! perm = Some true →
       ∃ s',
         request_plugin_permission name [perm] reason
           {| self := (__init__ locales_dir system_language w).1;
              os := (__init__ locales_dir system_language w).2 |}
         = (Ok [(perm, true)], s')
         ∧ _check_permission (self s') name perm
           = String.eqb perm "read_locales").
Proof.
  split.
  - intros s name perm b perms reason out s' Hp Hrun.
    destruct (request_keeps_decisions _ _ _ _ _ _ Hrun) as (_ & Hg & Hr).
    split; [by apply (Hg perm b)|]. split.
    + intros r -> Hin. by apply (Hr r perm b).
    + intros Hall. rewrite request_unfold in Hrun.
      destruct (request_loop_decided name reason perms ([], false) s Hall)
        as [r Hloop].
      rewrite Hloop in Hrun. simpl in Hrun. by injection Hrun as <- <-.
  - intros w locales_dir system_language store granted name perm reason
      Hfile Hname Hperm.
    destruct (init_permissions w locales_dir system_language)
      as (Hnone & Hcache & _).
    rewrite Hfile in Hcache.
    eexists. split.
    + apply request_decided_single. unfold decision. cbn [self].
      by rewrite Hcache, Hname.
    + unfold _check_permission. cbn [self]. rewrite Hnone, lookup_empty.
      by destruct (String.eqb perm "read_locales").
Qed.

Lemma C7_witness :
  ∃ s',
    request_plugin_permission "weather_overlay" ["read_main_locales"] "labels"
      {| self := (__init__ None None
                    {| home := "/home/op"; install_dir := "/opt/dart";
                       stdin := []; console := [];
                       perm_file := Stored granted_store;
                       perm_disk_error := None; perm_writes := [];
                       locale_dirs := ∅ |}).1;
         os := (__init__ None None
                  {| home := "/home/op"; install_dir := "/opt/dart";
                     stdin := []; console := [];
                     perm_file := Stored granted_store;
                     perm_disk_error := None; perm_writes := [];
                     locale_dirs := ∅ |}).2 |}
    = (Ok [("read_main_locales", true)], s')
    ∧ _check_permission (self s') "weather_overlay" "read_main_locales"
      = String.eqb "read_main_locales" "read_locales".
Proof.
  apply (proj2 C7_cached_decision_grants_nothing _ None None granted_store
           (<["read_main_locales" := true]> ∅)
           "weather_overlay" "read_main_locales" "labels");
    vm_compute; reflexivity.
Defined.

Lemma undecided_true m name perms :
  undecided m name perms = true ↔ ∃ q, q ∈ perms ∧ decision m name q = None.
Proof.
  unfold undecided. rewrite existsb_exists. split.
  - intros (q & Hin & Hq). exists q. split; [by apply list_elem_of_In|].
    by apply bool_decide_eq_true_1 in Hq.
  - intros (q & Hin & Hq). exists q. split; [by apply list_elem_of_In|].
    by apply bool_decide_eq_true_2.
Qed.

(** A call that [input] cuts short with an exception never reaches the save:
    what it recorded stays in memory only. *)
Lemma request_raise_writes_nothing name perms reason s e s' :
  request_plugin_permission name perms reason s = (Raise e, s') →
  same_disk (os s) (os s').
Proof.
  rewrite request_unfold.
  destruct (foldM _ perms _ s) as [[acc|e0] s1] eqn:Hloop; [done|].
  intros [= <- <-].
  by destruct (request_loop _ _ _ _ _ _ _ Hloop) as (Hd & _).
Qed.



(** C9. Loading the permission store: a missing file leaves the store as it
    is and prints nothing; a file that does not load is logged and leaves
    the store as it is; either way a new manager starts with an empty store;
    and the next save that succeeds replaces the corrupt file by the store
    in memory. *)
Theorem C9_load_failure_semantics :
  (∀ s : state, perm_file (os s) = Missing →
     _load_permissions_from_file s = (Ok tt, s))
  ∧ (∀ (s : state) err, perm_file (os s) = Corrupt err →
       _load_permissions_from_file s
       = (Ok tt,
          with_world
            (print_line
               (plugin_line "LocalizationManager"
                  ("[Error] 권한 파일 로드 실패: " +:+ err) "error") (os s)) s))
  ∧ (∀ (w : World) locales_dir system_language,
       perm_file w = Missing ∨ (∃ err, perm_file w = Corrupt err) →
       permission_cache (__init__ locales_dir system_language w).1 = ∅
       ∧ perm_file (__init__ locales_dir system_language w).2 = perm_file w)
  ∧ (∀ (s : state) err,
       perm_file (os s) = Corrupt err →
       perm_disk_error (os s) = None →
       (_save_permissions_to_file s).1 = Ok tt
       ∧ perm_file (os (_save_permissions_to_file s).2)
         = Stored (permission_cache (self s))).
Proof.
  split; [|split; [|split]].
  - intros s H. rewrite load_permissions_effect. by rewrite H.
  - intros s err H. rewrite load_permissions_effect. by rewrite H.
  - intros w ld lang H.
    destruct (init_permissions w ld lang) as (_ & Hc & Hf & _).
    rewrite Hc, Hf. by destruct H as [->|[err ->]].
  - intros s err _ Hdisk. rewrite save_effect. simpl. by rewrite Hdisk.
Qed.

Lemma C9_witness :
  _load_permissions_from_file (session "ko" quiet_world)
    = (Ok tt, session "ko" quiet_world)
  ∧ permission_cache
      (__init__ None None
         {| home := "/home/op"; install_dir := "/opt/dart"; stdin := [];
            console := []; perm_file := Corrupt "Expecting value";
            perm_disk_error := None; perm_writes := [];
            locale_dirs := ∅ |}).1 = ∅.
Proof.
  split.
  - apply (proj1 C9_load_failure_semantics). reflexivity.
  - apply (proj1 (proj2 (proj2 C9_load_failure_semantics)) _ None None).
    right. exists "Expecting value". reflexivity.
Defined.

(** C10. Saving the permission store and loading the file again, in a new
    manager or into any existing one, gives the same store: every
    (extension, capability) pair that had a decision has the same one. *)
Theorem C10_save_reload_round_trip
    (s : state) (locales_dir system_language : option string) :
  perm_disk_error (os s) = None →
  ∀ name perm b,
    decision (self s) name perm = Some b →
    decision (__init__ locales_dir system_language
                (os (_save_permissions_to_file s).2)).1 name perm = Some b
    ∧ ∀ m0,
        decision
          (self (_load_permissions_from_file
                   {| self := m0; os := os (_save_permissions_to_file s).2 |}).2)
          name perm = Some b.
Proof.
  intros Hdisk name perm b Hb.
  assert (os (_save_permissions_to_file s).2
          = write_perm_file (permission_cache (self s)) (os s)) as ->.
  { rewrite save_effect. simpl. by rewrite Hdisk. }
  split.
  - destruct (init_permissions
                (write_perm_file (permission_cache (self s)) (os s))
                locales_dir system_language) as (_ & Hc & _).
    unfold decision in *. by rewrite Hc.
  - intros m0. by rewrite load_permissions_effect.
Qed.

Lemma C10_witness :
  decision
    (__init__ None None
       (os (_save_permissions_to_file
              {| self := set_permission_cache granted_store (catalog "ko");
                 os := quiet_world |}).2)).1
    "weather_overlay" "read_main_locales" = Some true.
Proof.
  apply (C10_save_reload_round_trip
           {| self := set_permission_cache granted_store (catalog "ko");
              os := quiet_world |} None None eq_refl
           "weather_overlay" "read_main_locales" true).
  vm_compute. reflexivity.
Defined.

End catalog_proofs.

Module registry_proofs.
Import plugin_loader registry_notions.

(** * Proofs: the extension registry and the lifecycle runner *)

(** ** [sort_desc] is a stable sort into descending key order *)

Section stable_sort.
Context {A : Type} (key : A → Z).
Implicit Types (x y : A) (l : list A).

Lemma insert_desc_perm x l : insert_desc key x l ≡ₚ x :: l.
Proof.
  induction l as [|y l IH]; simpl; [done|].
  destruct (key x <? key y)%Z; [|done].
  rewrite IH. apply Permutation_swap.
Qed.

Lemma sort_desc_perm l : sort_desc key l ≡ₚ l.
Proof.
  induction l as [|x l IH]; simpl; [done|].
  by rewrite insert_desc_perm, IH.
Qed.

Lemma insert_desc_descending x l :
  StronglySorted (λ a b, (key b ≤ key a)%Z) l →
  StronglySorted (λ a b, (key b ≤ key a)%Z) (insert_desc key x l).
Proof.
  induction 1 as [|y l Hl IH Hy]; simpl; [repeat constructor|].
  destruct (Z.ltb_spec (key x) (key y)) as [Hlt|Hge].
  - constructor; [done|]. rewrite insert_desc_perm.
    constructor; [lia|done].
  - constructor; [by constructor|]. constructor; [done|].
    eapply Forall_impl; [exact Hy|]. intros z Hz. simpl in Hz. lia.
Qed.

Lemma sort_desc_descending l :
  StronglySorted (λ a b, (key b ≤ key a)%Z) (sort_desc key l).
Proof.
  induction l as [|x l IH]; simpl; [constructor|].
  by apply insert_desc_descending.
Qed.

Lemma insert_desc_stable k x l :
  filter (λ y, key y = k) (insert_desc key x l)
  = filter (λ y, key y = k) (x :: l).
Proof.
  induction l as [|y l IH]; simpl; [done|].
  destruct (Z.ltb_spec (key x) (key y)) as [Hlt|Hge]; [|done].
  rewrite (filter_cons _ y), IH, !(filter_cons _ x), !(filter_cons _ y).
  destruct (decide (key x = k)), (decide (key y = k)); try done. lia.
Qed.

(** Elements with the same key keep the order they had. *)
Lemma sort_desc_stable k l :
  filter (λ y, key y = k) (sort_desc key l) = filter (λ y, key y = k) l.
Proof.
  induction l as [|x l IH]; simpl; [done|].
  by rewrite insert_desc_stable, !filter_cons, IH.
Qed.
End stable_sort.

(** ** The order of a stage list *)

Section sorting.
Context (objs : list PluginMetadata).
Implicit Types (a x y : ref * callable) (l : list (ref * callable)).

Lemma elem_of_insert_desc x a l :
  x ∈ insert_desc (prio objs) a l ↔ x = a ∨ x ∈ l.
Proof.
  induction l as [|y l IH]; simpl.
  - rewrite list_elem_of_singleton, elem_of_nil. tauto.
  - destruct (prio objs a <? prio objs y)%Z.
    + rewrite !elem_of_cons, IH. tauto.
    + by rewrite !elem_of_cons.
Qed.

Lemma elem_of_sort_desc x l : x ∈ sort_desc (prio objs) l ↔ x ∈ l.
Proof.
  induction l as [|y l IH]; simpl; [done|].
  rewrite elem_of_insert_desc, elem_of_cons, IH. done.
Qed.

Lemma before_prio a y : before objs a y → (prio objs y ≤ prio objs a)%Z.
Proof. intros [?|[? _]]; lia. Qed.

Lemma before_ties a y : before objs a y → ties_in_order objs a y.
Proof. intros [?|[_ ?]] ?; [lia|done]. Qed.

Lemma insert_desc_sorted a l :
  StronglySorted (before objs) l →
  (∀ y, y ∈ l → ties_in_order objs a y) →
  StronglySorted (before objs) (insert_desc (prio objs) a l).
Proof.
  induction 1 as [|y l Hl IH Hy]; intros Ha; simpl.
  - repeat constructor.
  - destruct (Z.ltb_spec (prio objs a) (prio objs y)) as [Hlt|Hge].
    + constructor.
      * apply IH. intros z Hz. apply Ha. by right.
      * apply Forall_forall. intros z Hz.
        apply elem_of_insert_desc in Hz as [->|Hz]; [by left|].
        by apply (proj1 (Forall_forall _ _) Hy).
    + assert (Hay : before objs a y).
      { destruct (Z.eq_dec (prio objs a) (prio objs y)) as [Heq|Hne].
        - right. split; [done|]. apply Ha; [by left|done].
        - left. lia. }
      constructor; [by constructor|].
      apply Forall_forall. intros z Hz.
      apply elem_of_cons in Hz as [->|Hz]; [done|].
      pose proof (proj1 (Forall_forall _ _) Hy z Hz) as Hyz.
      apply before_prio in Hyz.
      destruct (Z.eq_dec (prio objs a) (prio objs z)) as [Heq|Hne].
      * right. split; [done|]. apply Ha; [by right|done].
      * left. lia.
Qed.

(** A list whose ties are in discovery order is sorted into priority
    order with ties in discovery order. *)
Lemma sort_desc_sorted l :
  StronglySorted (ties_in_order objs) l →
  StronglySorted (before objs) (sort_desc (prio objs) l).
Proof.
  induction 1 as [|a l Hl IH Ha]; simpl; [constructor|].
  apply insert_desc_sorted; [done|].
  intros y Hy. apply (proj1 (elem_of_sort_desc _ _)) in Hy.
  exact (proj1 (Forall_forall _ _) Ha y Hy).
Qed.

(** Appending a newly discovered entry keeps ties in discovery order. *)
Lemma ties_snoc l x :
  StronglySorted (before objs) l →
  (∀ y, y ∈ l → y.1 < x.1) →
  StronglySorted (ties_in_order objs) (l ++ [x]).
Proof.
  induction 1 as [|a l Hl IH Ha]; intros Hx; simpl.
  - repeat constructor.
  - constructor.
    + apply IH. intros y Hy. apply Hx. by right.
    + apply Forall_app. split.
      * eapply Forall_impl; [apply Ha|]. intros y. apply before_ties.
      * constructor; [|constructor]. intros _. apply Hx. by left.
Qed.
End sorting.

(** ** Reading through references *)

Lemma deref_app_l objs md r :
  r < length objs → deref (objs ++ [md]) r = deref objs r.
Proof. intros H. unfold deref. by rewrite lookup_app_l. Qed.

Lemma deref_app_new objs md : deref (objs ++ [md]) (length objs) = md.
Proof. unfold deref. by rewrite list_lookup_middle. Qed.

Lemma deref_alter objs r0 b r :
  deref (alter (set_enabled b) r0 objs) r
  = if decide (r = r0 ∧ r < length objs) then set_enabled b (deref objs r)
    else deref objs r.
Proof.
  unfold deref. destruct (decide (r = r0)) as [->|Hne].
  - rewrite list_lookup_alter_eq.
    destruct (objs !! r0) as [md|] eqn:E; simpl.
    + rewrite decide_True; [done|]. split; [done|]. by eapply lookup_lt_Some.
    + rewrite decide_False; [done|]. intros [_ Hlt].
      apply lookup_ge_None in E. lia.
  - rewrite list_lookup_alter_ne by done.
    rewrite decide_False; [done|]. by intros [? _].
Qed.

Lemma prio_alter objs r0 b x :
  prio (alter (set_enabled b) r0 objs) x = prio objs x.
Proof. unfold prio. rewrite deref_alter. by destruct (decide _). Qed.

Lemma stage_alter objs r0 b r :
  stage (deref (alter (set_enabled b) r0 objs) r) = stage (deref objs r).
Proof. rewrite deref_alter. by destruct (decide _). Qed.

Lemma name_alter objs r0 b r :
  name_of (alter (set_enabled b) r0 objs) r = name_of objs r.
Proof. unfold name_of. rewrite deref_alter. by destruct (decide _). Qed.

Lemma StronglySorted_ext_in {A} (R R' : A → A → Prop) (l : list A) :
  (∀ x y, x ∈ l → y ∈ l → R x y → R' x y) →
  StronglySorted R l → StronglySorted R' l.
Proof.
  intros Himp Hs. induction Hs as [|a l Hl IH Ha]; [constructor|].
  constructor.
  - apply IH. intros x y Hx Hy. apply Himp; by right.
  - apply Forall_forall. intros y Hy. apply Himp; [by left|by right|].
    exact (proj1 (Forall_forall _ _) Ha y Hy).
Qed.

(** ** The registry invariant *)

Lemma registry_ok_empty : registry_ok [] ∅ ∅.
Proof.
  split.
  - intros st entries H. by rewrite lookup_empty in H.
  - intros st entries x H. by rewrite lookup_empty in H.
  - intros r md H. by rewrite lookup_nil in H.
  - intros nm info H. by rewrite lookup_empty in H.
Qed.

Lemma registry_ok_alter objs pl pf r0 b :
  registry_ok objs pl pf → registry_ok (alter (set_enabled b) r0 objs) pl pf.
Proof.
  intros [Hsorted Hsound Hcomplete Hplugins]. split.
  - intros st entries H. eapply StronglySorted_ext_in; [|by eapply Hsorted].
    intros x y _ _. unfold before. by rewrite !prio_alter.
  - intros st entries x H Hx. rewrite length_alter, stage_alter.
    by eapply Hsound.
  - intros r md H.
    assert (∃ md0, objs !! r = Some md0 ∧ stage md = stage md0)
      as (md0 & H0 & ->).
    { destruct (decide (r = r0)) as [->|Hne].
      - rewrite list_lookup_alter_eq in H.
        destruct (objs !! r0) as [md0|]; [|done].
        injection H as <-. by exists md0.
      - rewrite list_lookup_alter_ne in H by done. by exists md. }
    by eapply Hcomplete.
  - intros nm info H. destruct (Hplugins nm info H) as (md & Hmd & Hname).
    destruct (decide (r0 = metadata info)) as [Heq|Hne].
    + exists (set_enabled b md). subst r0.
      rewrite list_lookup_alter_eq. by rewrite Hmd.
    + exists md. by rewrite list_lookup_alter_ne.
Qed.

Lemma registry_ok_register objs pl pf md f mdl pth :
  registry_ok objs pl pf →
  registry_ok (objs ++ [md])
    (<[name md := {| metadata := length objs; func := f; module := mdl;
                     path := pth |}]> pl)
    (<[stage md :=
         sort_desc (prio (objs ++ [md]))
           (default [] (pf !! stage md) ++ [(length objs, f)])]> pf).
Proof.
  intros [Hsorted Hsound Hcomplete Hplugins].
  assert (Hold : ∀ st entries, pf !! st = Some entries →
            StronglySorted (before (objs ++ [md])) entries).
  { intros st entries H. eapply StronglySorted_ext_in; [|by eapply Hsorted].
    intros x y Hx Hy. unfold before, prio.
    rewrite !deref_app_l; [done|..]; by eapply Hsound. }
  assert (Hlist : ∀ x, x ∈ default [] (pf !! stage md) →
            x.1 < length objs ∧ stage (deref objs x.1) = stage md).
  { intros x Hx. destruct (pf !! stage md) as [entries|] eqn:E; simpl in Hx.
    - by eapply Hsound.
    - by apply elem_of_nil in Hx. }
  split.
  - intros st entries H.
    destruct (decide (st = stage md)) as [->|Hne].
    + rewrite lookup_insert_eq in H. injection H as <-.
      apply sort_desc_sorted, ties_snoc.
      * destruct (pf !! stage md) as [entries|] eqn:E; simpl;
          [by eapply Hold|constructor].
      * intros y Hy. simpl. by apply Hlist.
    + rewrite lookup_insert_ne in H by done. by eapply Hold.
  - intros st entries x H Hx. rewrite length_app. simpl.
    destruct (decide (st = stage md)) as [->|Hne].
    + rewrite lookup_insert_eq in H. injection H as <-.
      apply (proj1 (elem_of_sort_desc _ _ _)) in Hx.
      apply elem_of_app in Hx as [Hx|Hx].
      * destruct (Hlist x Hx) as [Hlt Hst].
        rewrite deref_app_l by done. split; [lia|done].
      * apply list_elem_of_singleton in Hx as ->. simpl.
        rewrite deref_app_new. split; [lia|done].
    + rewrite lookup_insert_ne in H by done.
      destruct (Hsound st entries x H Hx) as [Hlt Hst].
      rewrite deref_app_l by done. split; [lia|done].
  - intros r md' H.
    assert (Hin : ∀ entries f', pf !! stage md' = Some entries →
              (r, f') ∈ entries →
              ∃ entries' f'', <[stage md := sort_desc (prio (objs ++ [md]))
                   (default [] (pf !! stage md) ++ [(length objs, f)])]> pf
                   !! stage md' = Some entries' ∧ (r, f'') ∈ entries').
    { intros entries f' He Hf.
      destruct (decide (stage md' = stage md)) as [Heq|Hne].
      - rewrite Heq, lookup_insert_eq. eexists _, f'. split; [done|].
        apply elem_of_sort_desc, elem_of_app. left.
        rewrite <- Heq, He. done.
      - rewrite lookup_insert_ne by done. by exists entries, f'. }
    apply lookup_app_Some in H as [H|[Hlen H]].
    + destruct (Hcomplete r md' H) as (entries & f' & He & Hf). by eapply Hin.
    + apply list_lookup_singleton_Some in H as [Hr <-].
      assert (r = length objs) as -> by lia.
      rewrite lookup_insert_eq. eexists _, f. split; [done|].
      apply elem_of_sort_desc, elem_of_app. right. by left.
  - intros nm info H.
    destruct (decide (nm = name md)) as [->|Hne].
    + rewrite lookup_insert_eq in H. injection H as <-. simpl.
      exists md. by rewrite list_lookup_middle.
    + rewrite lookup_insert_ne in H by done.
      destruct (Hplugins nm info H) as (md0 & H0 & Hname).
      exists md0. split; [|done]. by apply lookup_app_l_Some.
Qed.

(** ** Steps that leave the registry alone *)

Lemma same_registry_refl s : same_registry s s.
Proof. done. Qed.

Lemma same_registry_trans s1 s2 s3 :
  same_registry s1 s2 → same_registry s2 s3 → same_registry s1 s3.
Proof.
  unfold same_registry. intros (?&?&?&?) (?&?&?&?).
  repeat split; congruence.
Qed.

Lemma with_localization_frame {A} lm (c : M localization.state A) s :
  same_registry s (with_localization lm c s).2.
Proof. unfold with_localization. by destruct (c _) as [r ls]. Qed.

Lemma plugin_print_frame a b c s :
  ∃ s', plugin_print a b c s = (Ok tt, s') ∧ same_registry s s'.
Proof. eexists. split; [reflexivity|done]. Qed.

Lemma for_each_print_frame {A} (l : list A) (f : A → string * string * string) :
  ∀ s, ∃ s',
    for_each l (λ x, plugin_print (f x).1.1 (f x).1.2 (f x).2) s = (Ok tt, s')
    ∧ same_registry s s'.
Proof.
  induction l as [|x l IH]; intros s; simpl.
  - by exists s.
  - unfold bind. destruct (plugin_print_frame (f x).1.1 (f x).1.2 (f x).2 s)
      as (s1 & -> & H1).
    destruct (IH s1) as (s2 & -> & H2). exists s2.
    split; [done|by eapply same_registry_trans].
Qed.

Lemma handle_permissions_frame md s :
  same_registry s (_handle_plugin_permissions md s).2.
Proof.
  unfold _handle_plugin_permissions, bind, get_state.
  destruct (localization_manager (self s)) as [lm|]; [|done].
  pose proof (with_localization_frame lm
    (localization.request_plugin_permission (name md) (permissions md)
       (description md)) s) as H1.
  destruct (with_localization _ _ s) as [[results|e] s1]; [|done].
  destruct (for_each_print_frame results
    (λ kv, (name md,
            "권한 " +:+ kv.1 +:+ ": " +:+ (if kv.2 : bool then "✓ 승인" else "✗ 거부"),
            "info")) s1) as (s2 & H2 & H3).
  simpl in H2. rewrite H2. by eapply same_registry_trans.
Qed.

Lemma load_failed_frame module_name e s :
  ∃ s', load_failed module_name e s = (Ok tt, s') ∧ same_registry s s'.
Proof. eexists. split; [reflexivity|done]. Qed.

Lemma state_ok_frame s s' : same_registry s s' → state_ok s → state_ok s'.
Proof. unfold state_ok. intros (-> & -> & -> & _). done. Qed.

Lemma bind_get {S B} (k : S → M S B) s : bind get_state k s = k s s.
Proof. reflexivity. Qed.

Lemma bind_modify {S B} (f : S → S) (k : unit → M S B) s :
  bind (modify f) k s = k tt (f s).
Proof. reflexivity. Qed.

Lemma frames_bind {A B} (c : M state A) (k : A → M state B) s :
  (∀ s0, same_registry s0 (c s0).2) →
  (∀ a s0, same_registry s0 (k a s0).2) →
  same_registry s (bind c k s).2.
Proof.
  intros Hc Hk. unfold bind. pose proof (Hc s) as H1.
  destruct (c s) as [[a|e] s1]; simpl in *; [|done].
  eapply same_registry_trans; [exact H1|apply Hk].
Qed.

(** ** Discovery *)

(** What [register] does to the registry, whether or not the permission
    request that may follow raises. *)
Lemma register_registry module_name attr s :
  objects (register module_name attr s).2 = objects s ++ [attr.1]
  ∧ plugins (self (register module_name attr s).2)
    = <[name attr.1 := {| metadata := length (objects s); func := attr.2;
                          module := module_name;
                          path := plugins_dir (self s) |}]> (plugins (self s))
  ∧ plugin_funcs (self (register module_name attr s).2)
    = <[stage attr.1 :=
          sort_desc (prio (objects s ++ [attr.1]))
            (default [] (plugin_funcs (self s) !! stage attr.1)
               ++ [(length (objects s), attr.2)])]> (plugin_funcs (self s))
  ∧ invoked (register module_name attr s).2 = invoked s.
Proof.
  unfold register, on_objects, on_self.
  rewrite bind_get, !bind_modify, bind_get, bind_modify.
  match goal with
  | |- context [bind ?c ?k ?s4] =>
      pose proof (frames_bind c k s4) as Hf; destruct (bind c k s4) as [out s5]
  end.
  destruct Hf as (-> & -> & -> & ->).
  - intros s0. destruct (localization_manager (self s)) as [lm|]; [|done].
    apply with_localization_frame.
  - intros _ s0.
    destruct (permissions attr.1); [done|apply handle_permissions_frame].
  - simpl. rewrite lookup_insert_eq, insert_insert_eq. done.
Qed.

Lemma register_ok module_name attr s :
  state_ok s → state_ok (register module_name attr s).2.
Proof.
  unfold state_ok. intros H.
  destruct (register_registry module_name attr s) as (-> & -> & -> & _).
  by apply registry_ok_register.
Qed.

Lemma register_attrs_ok module_name attrs : ∀ count s,
  state_ok s →
  state_ok (register_attrs module_name attrs count s).2
  ∧ invoked (register_attrs module_name attrs count s).2 = invoked s.
Proof.
  induction attrs as [|attr rest IH]; intros count s Hs; simpl; [done|].
  pose proof (register_ok module_name attr s Hs) as H1.
  destruct (register_registry module_name attr s) as (_ & _ & _ & Hi).
  destruct (register module_name attr s) as [[[]|e] s1]; simpl in *.
  - destruct (IH (S count) s1 H1) as [H2 H3]. split; [done|congruence].
  - done.
Qed.

Lemma load_file_ok count f s :
  state_ok s →
  state_ok (load_file count f s).2
  ∧ invoked (load_file count f s).2 = invoked s.
Proof.
  intros Hs. unfold load_file.
  destruct (String.eqb _ _); [done|].
  destruct (body f) as [e|attrs]; [done|].
  destruct (register_attrs_ok (stem f) attrs count s Hs) as [H1 H2].
  destruct (register_attrs (stem f) attrs count s) as [[count' [e|]] s1];
    simpl in *; done.
Qed.

Lemma load_all_plugins_ok dir s :
  state_ok s →
  state_ok (load_all_plugins dir s).2
  ∧ invoked (load_all_plugins dir s).2 = invoked s.
Proof.
  intros Hs. destruct dir as [files|]; simpl; [|done].
  generalize 0%nat as count. revert s Hs.
  induction files as [|f files IH]; intros s Hs count; simpl; [done|].
  unfold bind. destruct (load_file_ok count f s Hs) as [H1 H2].
  destruct (load_file count f s) as [[count'|e] s1]; simpl in *; [|done].
  destruct (IH s1 H1 count') as [H3 H4]. split; [done|congruence].
Qed.

(** ** One stage run *)

Lemma ran_nil s : ran [] [] s = s.
Proof.
  destruct s as [objs l w inv]. destruct w. unfold ran, set_console. simpl.
  by rewrite !app_nil_r.
Qed.

Lemma ran_ran out1 c1 out2 c2 s :
  ran out2 c2 (ran out1 c1 s) = ran (out1 ++ out2) (c1 ++ c2) s.
Proof. unfold ran, set_console. simpl. by rewrite !app_assoc. Qed.

Lemma print_ran nm msg lvl s :
  plugin_print nm msg lvl s = (Ok tt, ran [Print (plugin_line nm msg lvl)] [] s).
Proof.
  unfold plugin_print, on_world, modify, ran, plugin_print_w, print_line.
  simpl. by rewrite app_nil_r.
Qed.

Lemma note_call_ran r s : note_call r s = (Ok tt, ran [] [r] s).
Proof.
  unfold note_call, modify, ran, set_console. destruct s as [objs l w inv].
  destruct w. simpl. by rewrite app_nil_r.
Qed.

Lemma trace_lines_ran nm lines : ∀ s,
  for_each lines (λ line,
    if has_text line then plugin_print nm ("  " +:+ line) "error" else ret tt) s
  = (Ok tt, ran (trace_lines nm lines) [] s).
Proof.
  induction lines as [|line lines IH]; intros s; cbn [for_each].
  - unfold ret. by rewrite ran_nil.
  - unfold bind, trace_lines. rewrite filter_cons.
    destruct (has_text line) eqn:E.
    + rewrite print_ran, IH, ran_ran. rewrite decide_True by done. done.
    + unfold ret at 1. rewrite IH. rewrite decide_False by done. done.
Qed.

Lemma run_entry_spec config acc ctx entry s :
  run_entry config (acc, ctx) entry s =
    if is_enabled (objects s) entry then
      (Ok (record (objects s) acc
             (entry.1,
              (entry.2 ctx (default (PyDict [])
                              (config !! name_of (objects s) entry.1))).1),
           (entry.2 ctx (default (PyDict [])
                           (config !! name_of (objects s) entry.1))).2),
       ran (Print (plugin_line (name_of (objects s) entry.1) "실행 중..." "info")
            :: call_lines (name_of (objects s) entry.1)
                 (entry.2 ctx (default (PyDict [])
                                 (config !! name_of (objects s) entry.1))).1)
           [entry.1] s)
    else (Ok (acc, ctx), ran [skip_line (name_of (objects s) entry.1)] [] s).
Proof.
  unfold run_entry, is_enabled, name_of. rewrite bind_get.
  destruct (enabled (deref (objects s) entry.1)); simpl.
  - unfold bind at 1. rewrite print_ran.
    unfold bind at 1. rewrite note_call_ran, ran_ran.
    destruct (entry.2 ctx _) as [[v|e tb] ctx']; simpl.
    + unfold bind. rewrite print_ran, ran_ran. done.
    + unfold bind at 1. rewrite print_ran, ran_ran.
      unfold bind at 1. rewrite print_ran, ran_ran.
      unfold bind. rewrite trace_lines_ran, ran_ran. simpl.
      unfold ret, record, error_lines. simpl. done.
  - unfold bind. rewrite print_ran. done.
Qed.

(** The loop of [run_plugins]: it never raises, it calls the enabled entries
    in list order, and it stores each call's outcome under the entry's
    name. *)
Lemma run_entries_spec config entries : ∀ acc ctx s,
  ∃ out,
    foldM (run_entry config) entries (acc, ctx) s
    = (Ok (foldl (record (objects s)) acc
             (stage_calls (objects s) config entries ctx).1,
           (stage_calls (objects s) config entries ctx).2),
       ran out (map fst (stage_calls (objects s) config entries ctx).1) s)
    ∧ (∀ r e tb ev,
         (r, Raised e tb) ∈ (stage_calls (objects s) config entries ctx).1 →
         ev ∈ error_lines (name_of (objects s) r) e tb → ev ∈ out)
    ∧ (∀ x, x ∈ entries → is_enabled (objects s) x = false →
         skip_line (name_of (objects s) x.1) ∈ out).
Proof.
  induction entries as [|entry rest IH]; intros acc ctx s; simpl.
  - exists []. unfold ret. rewrite ran_nil. split; [done|].
    split; [intros ???? H|intros ? H]; by apply elem_of_nil in H.
  - unfold bind. rewrite run_entry_spec.
    destruct (is_enabled (objects s) entry) eqn:E.
    + match goal with
      | |- context [foldM _ rest (?a, ?c) ?s1] =>
          destruct (IH a c s1) as (out & Hrun & Hlog & Hskip)
      end.
      simpl in *. rewrite Hrun, ran_ran. eexists. split; [done|]. split.
      * intros r e tb ev Hin Hev. apply elem_of_app.
        apply elem_of_cons in Hin as [[= -> Hcr]|Hin].
        -- left. right. rewrite <- Hcr. done.
        -- right. by eapply Hlog.
      * intros x Hx Hd. apply elem_of_app. right.
        apply elem_of_cons in Hx as [->|Hx]; [congruence|by apply Hskip].
    + match goal with
      | |- context [foldM _ rest (?a, ?c) ?s1] =>
          destruct (IH a c s1) as (out & Hrun & Hlog & Hskip)
      end.
      simpl in *. rewrite Hrun, ran_ran. eexists. split; [done|]. split.
      * intros r e tb ev Hin Hev. apply elem_of_app. right. by eapply Hlog.
      * intros x Hx Hd. apply elem_of_app.
        apply elem_of_cons in Hx as [->|Hx]; [left; by left|right; by apply Hskip].
Qed.

Lemma stage_calls_refs objs config entries : ∀ ctx,
  map fst (stage_calls objs config entries ctx).1 = enabled_refs objs entries.
Proof.
  unfold enabled_refs.
  induction entries as [|entry rest IH]; intros ctx; cbn [stage_calls]; [done|].
  rewrite filter_cons.
  destruct (decide (is_enabled objs entry = true)) as [E|E].
  - rewrite E. simpl. by rewrite IH.
  - apply not_true_is_false in E. rewrite E. apply IH.
Qed.

Lemma results_last objs calls : ∀ acc nm,
  odict.get nm (foldl (record objs) acc calls)
  = match last_outcome objs calls nm with
    | Some o => Some o
    | None => odict.get nm acc
    end.
Proof.
  induction calls as [|c rest IH]; intros acc nm; simpl; [done|].
  rewrite IH. destruct (last_outcome objs rest nm); [done|].
  unfold record. destruct (String.eqb_spec (name_of objs c.1) nm) as [<-|Hne].
  - apply odict_get_set_eq.
  - by apply odict_get_set_ne.
Qed.

Lemma run_plugins_spec st ctx config s entries :
  plugin_funcs (self s) !! st = Some entries →
  ∃ out,
    run_plugins st ctx config s
    = (Ok (foldl (record (objects s)) []
             (stage_calls (objects s) config entries ctx).1,
           (stage_calls (objects s) config entries ctx).2),
       ran out (enabled_refs (objects s) entries) (configured config s))
    ∧ (∀ r e tb ev,
         (r, Raised e tb) ∈ (stage_calls (objects s) config entries ctx).1 →
         ev ∈ error_lines (name_of (objects s) r) e tb → ev ∈ out)
    ∧ (∀ x, x ∈ entries → is_enabled (objects s) x = false →
         skip_line (name_of (objects s) x.1) ∈ out).
Proof.
  intros Hst. unfold run_plugins, on_self. rewrite bind_modify, bind_get.
  change (plugin_funcs (self _) !! st) with (plugin_funcs (self s) !! st).
  rewrite Hst.
  destruct (run_entries_spec config entries [] ctx (configured config s))
    as (out & Hrun & Hlog & Hskip).
  exists out. rewrite <- stage_calls_refs with (config := config) (ctx := ctx).
  split; [exact Hrun|]. split; [exact Hlog|exact Hskip].
Qed.

Lemma run_plugins_none st ctx config s :
  plugin_funcs (self s) !! st = None →
  run_plugins st ctx config s = (Ok ([], ctx), configured config s).
Proof.
  intros Hst. unfold run_plugins, on_self. rewrite bind_modify, bind_get.
  change (plugin_funcs (self _) !! st) with (plugin_funcs (self s) !! st).
  by rewrite Hst.
Qed.

Lemma run_plugins_ok st ctx config s :
  state_ok s → state_ok (run_plugins st ctx config s).2.
Proof.
  intros Hs. destruct (plugin_funcs (self s) !! st) as [entries|] eqn:E.
  - destruct (run_plugins_spec st ctx config s entries E) as (out & -> & _).
    exact Hs.
  - rewrite run_plugins_none by done. exact Hs.
Qed.

(** ** Enabling and disabling *)

Lemma enable_plugin_spec nm s :
  enable_plugin nm s =
    match plugins (self s) !! nm with
    | Some info =>
        (Ok true,
         {| objects := alter (set_enabled true) (metadata info) (objects s);
            self := self s; os := os s; invoked := invoked s |})
    | None => (Ok false, s)
    end.
Proof.
  unfold enable_plugin. rewrite bind_get.
  by destruct (plugins (self s) !! nm).
Qed.

Lemma disable_plugin_spec nm s :
  disable_plugin nm s =
    match plugins (self s) !! nm with
    | Some info =>
        (Ok true,
         {| objects := alter (set_enabled false) (metadata info) (objects s);
            self := self s; os := os s; invoked := invoked s |})
    | None => (Ok false, s)
    end.
Proof.
  unfold disable_plugin. rewrite bind_get.
  by destruct (plugins (self s) !! nm).
Qed.

(** ** Every state the host reaches satisfies the registry invariant *)

Lemma step_ok s o : state_ok s → state_ok (step s o).
Proof.
  intros Hs. destruct o as [dir|st ctx config|nm|nm]; simpl.
  - by apply load_all_plugins_ok.
  - by apply run_plugins_ok.
  - rewrite enable_plugin_spec. destruct (plugins (self s) !! nm); [|done].
    by apply registry_ok_alter.
  - rewrite disable_plugin_spec. destruct (plugins (self s) !! nm); [|done].
    by apply registry_ok_alter.
Qed.

Lemma reached_ok dir lm w ops : state_ok (reached dir lm w ops).
Proof.
  unfold reached, after.
  assert (H0 : state_ok (start dir lm w)) by apply registry_ok_empty.
  revert H0. generalize (start dir lm w).
  induction ops as [|o ops IH]; intros s Hs; simpl; [done|].
  apply IH. by apply step_ok.
Qed.

Lemma StronglySorted_lookup {A} (R : A → A → Prop) (l : list A) i j x y :
  StronglySorted R l → i < j → l !! i = Some x → l !! j = Some y → R x y.
Proof.
  intros Hs. revert i j. induction Hs as [|a l Hl IH Ha]; intros i j Hij Hi Hj.
  - by rewrite lookup_nil in Hi.
  - destruct j as [|j]; [lia|]. simpl in Hj. destruct i as [|i].
    + injection Hi as ->.
      exact (proj1 (Forall_forall _ _) Ha y (list_elem_of_lookup_2 _ _ _ Hj)).
    + simpl in Hi. apply (IH i j); [lia|done|done].
Qed.

Lemma elem_of_enabled_refs objs entries r :
  r ∈ enabled_refs objs entries ↔
  ∃ x, x ∈ entries ∧ x.1 = r ∧ is_enabled objs x = true.
Proof.
  unfold enabled_refs. rewrite list_elem_of_fmap. split.
  - intros (x & -> & Hx). apply list_elem_of_filter in Hx as [He Hx].
    by exists x.
  - intros (x & Hx & <- & He). exists x. split; [done|].
    by apply list_elem_of_filter.
Qed.

Lemma last_outcome_none objs calls nm :
  (∀ c, c ∈ calls → name_of objs c.1 ≠ nm) → last_outcome objs calls nm = None.
Proof.
  induction calls as [|c rest IH]; intros H; simpl; [done|].
  rewrite IH by (intros c' Hc'; apply H; by right).
  destruct (String.eqb_spec (name_of objs c.1) nm) as [Heq|]; [|done].
  exfalso. by apply (H c); [left|].
Qed.

Lemma last_outcome_at objs calls : ∀ i c,
  calls !! i = Some c →
  (∀ j c', i < j → calls !! j = Some c' → name_of objs c'.1 ≠ name_of objs c.1) →
  last_outcome objs calls (name_of objs c.1) = Some (outcome_of c.2).
Proof.
  induction calls as [|c0 rest IH]; intros i c Hi Hlater.
  - by rewrite lookup_nil in Hi.
  - simpl. destruct i as [|i].
    + injection Hi as ->.
      rewrite last_outcome_none, String.eqb_refl; [done|].
      intros c' Hc'. apply list_elem_of_lookup_1 in Hc' as [j Hj].
      apply (Hlater (S j)); [lia|done].
    + simpl in Hi. rewrite (IH i c Hi); [done|].
      intros j c' Hij Hj. apply (Hlater (S j)); [lia|done].
Qed.

Lemma stage_calls_names objs config entries : ∀ ctx c,
  c ∈ (stage_calls objs config entries ctx).1 →
  ∃ x, x ∈ entries ∧ x.1 = c.1 ∧ is_enabled objs x = true.
Proof.
  induction entries as [|entry rest IH]; intros ctx c Hc; simpl in Hc.
  - by apply elem_of_nil in Hc.
  - destruct (is_enabled objs entry) eqn:E; simpl in Hc.
    + apply elem_of_cons in Hc as [->|Hc].
      * exists entry. split; [by left|done].
      * destruct (IH _ _ Hc) as (x & Hx & ? & ?). exists x.
        split; [by right|done].
    + destruct (IH _ _ Hc) as (x & Hx & ? & ?). exists x.
      split; [by right|done].
Qed.

(** ** The claims about the runner and the registry *)

(** C3, as stated, fails: a [ValueError()] raised by the entry point
    [broken] is recorded as the two fields status "error" and error "" -
    no type name, no stack trace, and an empty cause. *)
Lemma C3_counterexample :
  (run_plugins "splash" ∅ ∅ (reached "/opt/dart/modules/plugins" None
                               catalog_notions.quiet_world
                               [Load plugins_with_raiser])).1
  = Ok ([("broken", [("status", PyStr "error"); ("error", PyStr "")]);
         ("helper", [("status", PyStr "success"); ("result", PyStr "helper")])],
        <["helper" := PyBool true]> ∅).
Proof. vm_compute. reflexivity. Qed.

(** C3, amended. When an entry point raises during a stage run the runner
    does not propagate the error; it prints the error's type name, its
    message and the non-blank lines of its stack trace; it still calls every
    enabled entry point of the stage, in list order; and under the entry's
    name it records the outcome with status "error" and the error's message
    only, which stays there unless a later entry of the same name runs. *)
Theorem C3_errors_are_contained
    (s : state) (st : string) (ctx : context) (config : gmap string pyval)
    (entries : list (ref * callable)) :
  plugin_funcs (self s) !! st = Some entries →
  ∃ results ctx' s',
    run_plugins st ctx config s = (Ok (results, ctx'), s')
    ∧ invoked s' = invoked s ++ enabled_refs (objects s) entries
    ∧ ∀ i r e tb,
        (stage_calls (objects s) config entries ctx).1 !! i
          = Some (r, Raised e tb) →
        (∀ ev, ev ∈ error_lines (name_of (objects s) r) e tb →
               ev ∈ console (os s'))
        ∧ ((∀ j c, i < j →
              (stage_calls (objects s) config entries ctx).1 !! j = Some c →
              name_of (objects s) c.1 ≠ name_of (objects s) r) →
           odict.get (name_of (objects s) r) results
           = Some [("status", PyStr "error"); ("error", PyStr (exc_msg e))]).
Proof.
  intros Hst.
  destruct (run_plugins_spec st ctx config s entries Hst)
    as (out & Hrun & Hlog & _).
  eexists _, _, _. split; [exact Hrun|]. split; [done|].
  intros i r e tb Hi. split.
  - intros ev Hev. simpl. apply elem_of_app. right.
    eapply Hlog; [|exact Hev]. by eapply list_elem_of_lookup_2.
  - intros Hlater. rewrite results_last.
    pose proof (last_outcome_at _ _ i (r, Raised e tb) Hi Hlater) as Hl.
    simpl in Hl. by rewrite Hl.
Qed.

Lemma C3_witness :
  plugin_funcs (self (reached "/opt/dart/modules/plugins" None
                        catalog_notions.quiet_world [Load plugins_with_raiser]))
    !! "splash" = Some [(0, boom); (1, mark "helper")]
  ∧ ∃ results ctx' s',
      run_plugins "splash" ∅ ∅
        (reached "/opt/dart/modules/plugins" None catalog_notions.quiet_world
           [Load plugins_with_raiser])
      = (Ok (results, ctx'), s')
      ∧ invoked s' = [0; 1].
Proof.
  assert (H : plugin_funcs
                (self (reached "/opt/dart/modules/plugins" None
                         catalog_notions.quiet_world [Load plugins_with_raiser]))
                !! "splash" = Some [(0, boom); (1, mark "helper")])
    by (vm_compute; reflexivity).
  split; [exact H|].
  destruct (C3_errors_are_contained _ "splash" ∅ ∅ _ H)
    as (results & ctx' & s' & Hrun & Hinv & _).
  exists results, ctx', s'. split; [exact Hrun|].
  rewrite Hinv. vm_compute. reflexivity.
Defined.

(** C4. In every state the host can reach, the list of a stage holds every
    entry point registered for the stage, in priority order, highest first,
    with equal priorities in discovery order; a run of the stage calls the
    enabled ones in that order; and a stage of two enabled entry points of
    priorities 5 and 1 yields the outcome of the priority-5 one first,
    however the two were discovered. *)
Theorem C4_priority_order
    (dir : string) (lm : option localization.LocalizationManager) (w : World)
    (ops : list op) (st : string) (entries : list (ref * callable)) :
  plugin_funcs (self (reached dir lm w ops)) !! st = Some entries →
  (∀ i j x y, i < j → entries !! i = Some x → entries !! j = Some y →
     (prio (objects (reached dir lm w ops)) y
        ≤ prio (objects (reached dir lm w ops)) x)%Z
     ∧ (prio (objects (reached dir lm w ops)) x
          = prio (objects (reached dir lm w ops)) y → x.1 < y.1))
  ∧ (∀ r md, objects (reached dir lm w ops) !! r = Some md → stage md = st →
       r ∈ map fst entries)
  ∧ (∀ ctx config, ∃ results ctx' s',
       run_plugins st ctx config (reached dir lm w ops)
         = (Ok (results, ctx'), s')
       ∧ invoked s' = invoked (reached dir lm w ops)
                        ++ enabled_refs (objects (reached dir lm w ops)) entries)
  ∧ (∀ hi lo ctx config,
       hi ∈ entries → lo ∈ entries → length entries = 2 →
       prio (objects (reached dir lm w ops)) hi = 5%Z →
       prio (objects (reached dir lm w ops)) lo = 1%Z →
       is_enabled (objects (reached dir lm w ops)) hi = true →
       is_enabled (objects (reached dir lm w ops)) lo = true →
       name_of (objects (reached dir lm w ops)) hi.1
         ≠ name_of (objects (reached dir lm w ops)) lo.1 →
       ∃ results ctx' s',
         run_plugins st ctx config (reached dir lm w ops)
           = (Ok (results, ctx'), s')
         ∧ odict.keys results
           = [name_of (objects (reached dir lm w ops)) hi.1;
              name_of (objects (reached dir lm w ops)) lo.1]).
Proof.
  intros Hst. pose proof (reached_ok dir lm w ops) as Hok.
  set (s := reached dir lm w ops) in *.
  pose proof (stage_sorted _ _ _ Hok st entries Hst) as Hsorted.
  split; [|split; [|split]].
  - intros i j x y Hij Hx Hy.
    pose proof (StronglySorted_lookup _ _ i j x y Hsorted Hij Hx Hy) as Hb.
    split; [by apply before_prio|by apply before_ties].
  - intros r md Hr Hmd.
    destruct (stage_complete _ _ _ Hok r md Hr) as (entries' & f & He & Hf).
    rewrite Hmd, Hst in He. injection He as <-.
    apply list_elem_of_fmap. by exists (r, f).
  - intros ctx config.
    destruct (run_plugins_spec st ctx config s entries Hst) as (out & Hrun & _).
    eexists _, _, _. split; [exact Hrun|done].
  - intros hi lo ctx config Hhi Hlo Hlen Hp5 Hp1 Hehi Helo Hname.
    destruct entries as [|e1 [|e2 [|]]]; try discriminate Hlen.
    pose proof (StronglySorted_lookup _ _ 0 1 e1 e2 Hsorted
                  ltac:(lia) eq_refl eq_refl) as Hb.
    apply before_prio in Hb.
    assert (hi = e1 ∧ lo = e2) as [-> ->].
    { apply elem_of_cons in Hhi as [->|Hhi];
        apply elem_of_cons in Hlo as [->|Hlo];
        try apply list_elem_of_singleton in Hhi as ->;
        try apply list_elem_of_singleton in Hlo as ->;
        try done; lia. }
    destruct (run_plugins_spec st ctx config s [e1; e2] Hst) as (out & Hrun & _).
    eexists _, _, _. split; [exact Hrun|].
    simpl. rewrite Hehi. simpl. rewrite Helo. simpl.
    unfold record at 2. simpl. unfold record. simpl.
    by destruct (String.eqb_spec (name_of (objects s) e1.1)
                   (name_of (objects s) e2.1)).
Qed.

Lemma C4_witness :
  (plugin_funcs (self (reached "/opt/dart/modules/plugins" None
                         catalog_notions.quiet_world [Load plugins_low_first]))
     !! "splash" = Some [(1, mark "high"); (0, mark "low")]
   ∧ ∃ results ctx' s',
       run_plugins "splash" ∅ ∅
         (reached "/opt/dart/modules/plugins" None catalog_notions.quiet_world
            [Load plugins_low_first])
       = (Ok (results, ctx'), s')
       ∧ odict.keys results = ["high"; "low"])
  ∧ (plugin_funcs (self (reached "/opt/dart/modules/plugins" None
                           catalog_notions.quiet_world [Load plugins_high_first]))
       !! "splash" = Some [(0, mark "high"); (1, mark "low")]
     ∧ ∃ results ctx' s',
         run_plugins "splash" ∅ ∅
           (reached "/opt/dart/modules/plugins" None catalog_notions.quiet_world
              [Load plugins_high_first])
         = (Ok (results, ctx'), s')
         ∧ odict.keys results = ["high"; "low"]).
Proof.
  split.
  - assert (H : plugin_funcs
                  (self (reached "/opt/dart/modules/plugins" None
                           catalog_notions.quiet_world [Load plugins_low_first]))
                  !! "splash" = Some [(1, mark "high"); (0, mark "low")])
      by (vm_compute; reflexivity).
    split; [exact H|].
    destruct (C4_priority_order _ _ _ _ _ _ H) as (_ & _ & _ & Hpair).
    destruct (Hpair (1, mark "high") (0, mark "low") ∅ ∅)
      as (results & ctx' & s' & Hrun & Hkeys);
      try (vm_compute; reflexivity);
      try (apply list_elem_of_In; simpl; auto; fail).
    { vm_compute. discriminate. }
    exists results, ctx', s'. split; [exact Hrun|]. rewrite Hkeys.
    vm_compute. reflexivity.
  - assert (H : plugin_funcs
                  (self (reached "/opt/dart/modules/plugins" None
                           catalog_notions.quiet_world [Load plugins_high_first]))
                  !! "splash" = Some [(0, mark "high"); (1, mark "low")])
      by (vm_compute; reflexivity).
    split; [exact H|].
    destruct (C4_priority_order _ _ _ _ _ _ H) as (_ & _ & _ & Hpair).
    destruct (Hpair (0, mark "high") (1, mark "low") ∅ ∅)
      as (results & ctx' & s' & Hrun & Hkeys);
      try (vm_compute; reflexivity);
      try (apply list_elem_of_In; simpl; auto; fail).
    { vm_compute. discriminate. }
    exists results, ctx', s'. split; [exact Hrun|]. rewrite Hkeys.
    vm_compute. reflexivity.
Defined.

(** C6, as stated, fails: running a stage whose only entry point is
    disabled records no outcome at all for it, not a "skipped" one. *)
Lemma C6_counterexample :
  (run_plugins "splash" ∅ ∅ (reached "/opt/dart/modules/plugins" None
                               catalog_notions.quiet_world
                               [Load plugins_with_sleeper])).1
  = Ok ([], ∅)
  ∧ is_enabled
      (objects (reached "/opt/dart/modules/plugins" None
                  catalog_notions.quiet_world [Load plugins_with_sleeper]))
      (0, mark "sleepy") = false.
Proof. vm_compute. split; reflexivity. Qed.

(** C6, amended. In every state the host can reach, a stage run never calls
    an entry point whose enabled flag is false: it prints a "[Skip]" line
    for it and records no outcome for it (a name all of whose entries are
    disabled has no outcome); and after [enable_plugin(name)] has returned
    True, a run of the stage calls the entry point registered under that
    name. *)
Theorem C6_disabled_entries_are_skipped
    (dir : string) (lm : option localization.LocalizationManager) (w : World)
    (ops : list op) :
  (∀ st entries ctx config,
     plugin_funcs (self (reached dir lm w ops)) !! st = Some entries →
     ∃ results ctx' s' (called : list ref),
       run_plugins st ctx config (reached dir lm w ops)
         = (Ok (results, ctx'), s')
       ∧ invoked s' = invoked (reached dir lm w ops) ++ called
       ∧ (∀ r, r ∈ called →
            enabled (deref (objects (reached dir lm w ops)) r) = true)
       ∧ (∀ x, x ∈ entries →
            is_enabled (objects (reached dir lm w ops)) x = false →
            (x.1 ∉ called)
            ∧ skip_line (name_of (objects (reached dir lm w ops)) x.1)
                ∈ console (os s'))
       ∧ (∀ nm,
            (∀ x, x ∈ entries →
               name_of (objects (reached dir lm w ops)) x.1 = nm →
               is_enabled (objects (reached dir lm w ops)) x = false) →
            odict.get nm results = None))
  ∧ (∀ nm s1,
       enable_plugin nm (reached dir lm w ops) = (Ok true, s1) →
       ∃ info md,
         plugins (self (reached dir lm w ops)) !! nm = Some info
         ∧ objects s1 !! metadata info = Some md
         ∧ name md = nm
         ∧ enabled md = true
         ∧ ∀ ctx config, ∃ results ctx' s2 (called : list ref),
             run_plugins (stage md) ctx config s1 = (Ok (results, ctx'), s2)
             ∧ invoked s2 = invoked s1 ++ called
             ∧ metadata info ∈ called).
Proof.
  pose proof (reached_ok dir lm w ops) as Hok.
  set (s := reached dir lm w ops) in *. split.
  - intros st entries ctx config Hst.
    destruct (run_plugins_spec st ctx config s entries Hst)
      as (out & Hrun & _ & Hskip).
    eexists _, _, _, _. split; [exact Hrun|]. split; [done|].
    split; [|split].
    + intros r Hr. apply elem_of_enabled_refs in Hr as (x & _ & <- & Hx).
      exact Hx.
    + intros x Hx Hd. split.
      * intros Hin. apply elem_of_enabled_refs in Hin as (y & _ & Hy & He).
        unfold is_enabled in *. rewrite Hy in He. congruence.
      * simpl. apply elem_of_app. right. by apply Hskip.
    + intros nm Hall. rewrite results_last, last_outcome_none; [done|].
      intros c Hc Hnm.
      destruct (stage_calls_names _ _ _ _ _ Hc) as (x & Hx & Hxc & He).
      rewrite <- Hxc in Hnm. rewrite (Hall x Hx Hnm) in He. done.
  - intros nm s1 Hen. rewrite enable_plugin_spec in Hen.
    destruct (plugins (self s) !! nm) as [info|] eqn:Hinfo; [|done].
    injection Hen as <-.
    destruct (plugins_sound _ _ _ Hok nm info Hinfo) as (md & Hmd & Hname).
    destruct (stage_complete _ _ _ Hok _ md Hmd) as (entries & f & He & Hf).
    exists info, (set_enabled true md). split; [done|].
    split; [simpl; by rewrite list_lookup_alter_eq, Hmd|].
    split; [done|]. split; [done|].
    intros ctx config.
    destruct (run_plugins_spec (stage md) ctx config
                {| objects := alter (set_enabled true) (metadata info) (objects s);
                   self := self s; os := os s; invoked := invoked s |}
                entries He) as (out & Hrun & _).
    eexists _, _, _, _. split; [exact Hrun|]. split; [done|].
    apply elem_of_enabled_refs. exists (metadata info, f).
    split; [done|]. split; [done|].
    unfold is_enabled. simpl. rewrite deref_alter, decide_True; [done|].
    split; [done|]. by eapply lookup_lt_Some.
Qed.

Lemma C6_witness :
  (plugin_funcs (self (reached "/opt/dart/modules/plugins" None
                         catalog_notions.quiet_world [Load plugins_with_sleeper]))
     !! "splash" = Some [(0, mark "sleepy")]
   ∧ ∃ results ctx' s' (called : list ref),
       run_plugins "splash" ∅ ∅
         (reached "/opt/dart/modules/plugins" None catalog_notions.quiet_world
            [Load plugins_with_sleeper])
       = (Ok (results, ctx'), s')
       ∧ (0 ∉ called) ∧ odict.get "sleepy" results = None)
  ∧ ∃ info md results ctx' s2 (called : list ref),
      plugins (self (reached "/opt/dart/modules/plugins" None
                       catalog_notions.quiet_world [Load plugins_with_sleeper]))
        !! "sleepy" = Some info
      ∧ name md = "sleepy"
      ∧ run_plugins (stage md) ∅ ∅
          (enable_plugin "sleepy"
             (reached "/opt/dart/modules/plugins" None
                catalog_notions.quiet_world [Load plugins_with_sleeper])).2
        = (Ok (results, ctx'), s2)
      ∧ metadata info ∈ called
      ∧ invoked s2
        = invoked (enable_plugin "sleepy"
                     (reached "/opt/dart/modules/plugins" None
                        catalog_notions.quiet_world
                        [Load plugins_with_sleeper])).2 ++ called.
Proof.
  destruct (C6_disabled_entries_are_skipped "/opt/dart/modules/plugins" None
              catalog_notions.quiet_world [Load plugins_with_sleeper])
    as [Hskip Hen].
  split.
  - assert (H : plugin_funcs
                  (self (reached "/opt/dart/modules/plugins" None
                           catalog_notions.quiet_world
                           [Load plugins_with_sleeper]))
                  !! "splash" = Some [(0, mark "sleepy")])
      by (vm_compute; reflexivity).
    split; [exact H|].
    destruct (Hskip "splash" _ ∅ ∅ H)
      as (results & ctx' & s' & called & Hrun & _ & _ & Hoff & Hnone).
    exists results, ctx', s', called. split; [exact Hrun|]. split.
    + apply (Hoff (0, mark "sleepy")); [by left|vm_compute; reflexivity].
    + apply Hnone. intros x Hx _.
      apply list_elem_of_singleton in Hx as ->. vm_compute. reflexivity.
  - destruct (Hen "sleepy" _ ltac:(vm_compute; reflexivity))
      as (info & md & Hinfo & _ & Hname & _ & Hrun).
    destruct (Hrun ∅ ∅) as (results & ctx' & s2 & called & Hr & Hi & Hc).
    exists info, md, results, ctx', s2, called.
    split; [exact Hinfo|]. split; [exact Hname|].
    split; [exact Hr|]. split; [exact Hc|exact Hi].
Defined.

End registry_proofs.

(** * Further proofs: the localization catalog and the permission store *)

Module catalog_extras.
Import localization catalog_notions catalog_proofs more_notions.

(** ** The operator's answer *)

Lemma inputs_app l1 l2 : inputs (l1 ++ l2) = (inputs l1 + inputs l2)%nat.
Proof. unfold inputs. by rewrite filter_app, length_app. Qed.

Lemma read_choice_first_valid junk c rest : ∀ out,
  Forall (λ x, valid_reply x = false) junk →
  valid_reply c = true →
  (read_choice (junk ++ c :: rest) out).1 = (Ok (str_in c ["y"; "yes"]), rest)
  ∧ inputs (read_choice (junk ++ c :: rest) out).2
    = (inputs out + length junk + 1)%nat.
Proof.
  induction junk as [|j junk IH]; intros out Hjunk Hc.
  - cbn [app read_choice]. unfold valid_reply in Hc.
    destruct (str_in c ["y"; "yes"]) eqn:Ey; cbn [orb] in Hc.
    + split; [done|]. cbn [snd]. rewrite !inputs_app.
      change (inputs [Input ask_prompt]) with 1%nat.
      change (inputs [Print _; Print _]) with 0%nat. simpl. lia.
    + rewrite Hc. split; [done|]. cbn [snd]. rewrite !inputs_app.
      change (inputs [Input ask_prompt]) with 1%nat.
      change (inputs [Print _; Print _]) with 0%nat. simpl. lia.
  - apply Forall_cons in Hjunk as [Hj Hjunk]. unfold valid_reply in Hj.
    apply orb_false_elim in Hj as [Hy Hn].
    cbn [app read_choice]. rewrite Hy, Hn.
    destruct (IH ((out ++ [Input ask_prompt]) ++ [Print "y 또는 n을 입력하세요."])
                Hjunk Hc) as [H1 H2].
    split; [exact H1|]. rewrite H2, !inputs_app.
    change (inputs [Input ask_prompt]) with 1%nat.
    change (inputs [Print _]) with 0%nat. simpl. lia.
Qed.

Lemma read_choice_no_valid replies : ∀ out,
  Forall (λ x, valid_reply x = false) replies →
  (read_choice replies out).1 = (Raise EOFError, []).
Proof.
  induction replies as [|j replies IH]; intros out Hall; [done|].
  apply Forall_cons in Hall as [Hj Hall]. unfold valid_reply in Hj.
  apply orb_false_elim in Hj as [Hy Hn].
  cbn [read_choice]. rewrite Hy, Hn. by apply IH.
Qed.

Lemma ask_unfold name perm reason s :
  ∃ pre,
    inputs pre = 0%nat
    ∧ _ask_user_permission name perm reason s
      = ((read_choice (stdin (os s)) []).1.1,
         {| self := self s;
            os := set_stdin (read_choice (stdin (os s)) []).1.2
                    (set_console
                       (λ c, (c ++ pre) ++ (read_choice (stdin (os s)) []).2)
                       (os s)) |}).
Proof.
  exists ([Print ""; Print rule; Print (banner name); Print rule;
           Print ("요청 권한: " +:+ perm_desc perm)]
            ++ (if String.eqb reason "" then []
                else [Print ("이유: " +:+ reason)])
            ++ [Print ""]).
  split; [by destruct (String.eqb reason "")|].
  unfold _ask_user_permission, bind, print, on_world, modify, ret. simpl.
  destruct (String.eqb reason ""); simpl;
    destruct (read_choice (stdin (os s)) []) as [[r rest] out];
    unfold set_stdin, set_console, print_line; simpl;
    rewrite <- ?app_assoc; reflexivity.
Qed.

(** X1. [_ask_user_permission] takes the verdict of the first reply that is
    y, yes, n or no (after lower-casing and stripping), skipping the replies
    before it with one more [input] each, and leaves the replies after it
    unread; when no reply is one of the four, [input] ends in [EOFError]
    with every reply consumed. *)
Theorem X1_first_valid_reply_decides
    (name perm reason : string) (s : state) :
  (∀ junk c rest,
     stdin (os s) = junk ++ c :: rest →
     Forall (λ x, valid_reply x = false) junk →
     valid_reply c = true →
     ∃ w', _ask_user_permission name perm reason s
             = (Ok (str_in c ["y"; "yes"]), {| self := self s; os := w' |})
           ∧ stdin w' = rest
           ∧ inputs (console w')
             = (inputs (console (os s)) + length junk + 1)%nat)
  ∧ (Forall (λ x, valid_reply x = false) (stdin (os s)) →
     ∃ w', _ask_user_permission name perm reason s
             = (Raise EOFError, {| self := self s; os := w' |})
           ∧ stdin w' = []).
Proof.
  destruct (ask_unfold name perm reason s) as (pre & Hpre & Hask).
  split.
  - intros junk c rest Hin Hjunk Hc. rewrite Hask, Hin.
    destruct (read_choice_first_valid junk c rest [] Hjunk Hc) as [H1 H2].
    eexists. split; [|split].
    + rewrite H1. reflexivity.
    + reflexivity.
    + simpl. rewrite !inputs_app, H2, Hpre.
      change (inputs []) with 0%nat. lia.
  - intros Hall. rewrite Hask.
    pose proof (read_choice_no_valid _ [] Hall) as H1.
    eexists. split.
    + rewrite H1. reflexivity.
    + reflexivity.
Qed.

Lemma X1_witness :
  ∃ w', _ask_user_permission "weather_overlay" "read_main_locales" "labels"
          (session "ko" (answers ["maybe"; ""; "yes"; "n"]))
        = (Ok true, {| self := catalog "ko"; os := w' |})
        ∧ stdin w' = ["n"].
Proof.
  destruct (proj1 (X1_first_valid_reply_decides "weather_overlay"
                     "read_main_locales" "labels"
                     (session "ko" (answers ["maybe"; ""; "yes"; "n"])))
              ["maybe"; ""] "yes" ["n"] eq_refl)
    as (w' & Hask & Hrest & _).
  - repeat constructor.
  - reflexivity.
  - exists w'. split; [exact Hask|exact Hrest].
Defined.

(** ** What a request returns *)

Lemma request_loop_result name reason perms : ∀ acc s r s',
  foldM (request_one name reason) perms acc s = (Ok r, s') →
  (∀ q, q ∈ perms →
     is_Some (decision (self s') name q)
     ∧ odict.get q r.1 = decision (self s') name q)
  ∧ (∀ q, q ∉ perms → odict.get q r.1 = odict.get q acc.1).
Proof.
  induction perms as [|p rest IH]; intros acc s r s' Hrun; simpl in Hrun.
  - unfold ret in Hrun. injection Hrun as <- <-.
    split; [|done]. intros q Hq. by apply elem_of_nil in Hq.
  - unfold bind in Hrun.
    assert (∃ g acc1 s1,
              request_one name reason acc p s = (Ok acc1, s1)
              ∧ acc1.1 = odict.set p g acc.1
              ∧ decision (self s1) name p = Some g) as (g & acc1 & s1 & Hone & Hacc & Hdec).
    { destruct (decision (self s) name p) as [b0|] eqn:Hp.
      - rewrite (request_one_decided _ _ _ _ _ b0) by done. by eexists _, _, _.
      - destruct (request_one_undecided name reason acc p s Hp)
          as (r0 & w' & _ & _ & Hcase).
        destruct r0 as [g|e].
        + destruct Hcase as (m' & Hone & Hdec & _).
          eexists g, _, _. split; [exact Hone|]. split; [done|].
          simpl. rewrite Hdec. by rewrite decide_True.
        + rewrite Hcase in Hrun. discriminate. }
    rewrite Hone in Hrun.
    destruct (IH _ _ _ _ Hrun) as [Hin Hout].
    destruct (request_loop _ _ _ _ _ _ _ Hrun) as (_ & _ & Hk & _ & _).
    split.
    + intros q Hq. destruct (decide (q ∈ rest)) as [Hr|Hr]; [by apply Hin|].
      apply elem_of_cons in Hq as [->|Hq]; [|done].
      rewrite (Hk _ _ _ Hdec). split; [done|].
      rewrite (Hout _ Hr), Hacc. apply odict_get_set_eq.
    + intros q Hq. apply not_elem_of_cons in Hq as [Hne Hq].
      rewrite (Hout _ Hq), Hacc. by apply odict_get_set_ne.
Qed.

(** X2. The dictionary a returning [request_plugin_permission] hands back
    has an entry for each requested capability and for nothing else, and the
    entry of a capability is the decision the cache holds for it when the
    call returns. *)
Theorem X2_request_answers_what_was_asked
    (s : state) (name : string) (perms : list string) (reason : string)
    (r : odict.t bool) (s' : state) :
  request_plugin_permission name perms reason s = (Ok r, s') →
  ∀ q, (q ∈ perms →
          is_Some (odict.get q r)
          ∧ odict.get q r = decision (self s') name q)
       ∧ (q ∉ perms → odict.get q r = None).
Proof.
  rewrite request_unfold.
  destruct (foldM _ perms _ s) as [[acc|e] s1] eqn:Hloop; [|done].
  intros [= <- <-] q.
  destruct (request_loop_result _ _ _ _ _ _ _ Hloop) as [Hin Hout].
  assert (self (if acc.2 then (_save_permissions_to_file s1).2 else s1)
          = self s1) as ->.
  { destruct acc.2; [|done]. by rewrite save_effect. }
  split.
  - intros Hq. destruct (Hin q Hq) as [Hsome Heq]. by rewrite Heq.
  - intros Hq. by rewrite (Hout q Hq).
Qed.

Lemma X2_witness :
  odict.get "write_locales"
    [("read_main_locales", true); ("write_locales", false)]
  = decision
      (self (request_plugin_permission "weather_overlay"
               ["read_main_locales"; "write_locales"; "read_main_locales"]
               "labels" (session "ko" (answers ["y"; "n"]))).2)
      "weather_overlay" "write_locales".
Proof.
  refine (proj2 (proj1 (X2_request_answers_what_was_asked
                          (session "ko" (answers ["y"; "n"])) "weather_overlay"
                          ["read_main_locales"; "write_locales";
                           "read_main_locales"]
                          "labels"
                          [("read_main_locales", true); ("write_locales", false)]
                          _ _ "write_locales") _)).
  - vm_compute. reflexivity.
  - apply list_elem_of_In. simpl. auto.
Defined.

(** ** Granted lists *)

Lemma str_in_elem x l : str_in x l = true ↔ x ∈ l.
Proof.
  unfold str_in. rewrite existsb_exists. split.
  - intros (y & Hy & Heq). apply String.eqb_eq in Heq as ->.
    by apply list_elem_of_In.
  - intros Hx. exists x. split; [by apply list_elem_of_In|apply String.eqb_refl].
Qed.

Lemma str_in_false x l : str_in x l = false ↔ x ∉ l.
Proof.
  rewrite <- str_in_elem. by destruct (str_in x l).
Qed.

Lemma grant_fold_spec perms : ∀ held,
  NoDup held →
  NoDup (foldl (λ acc perm, if str_in perm acc then acc else acc ++ [perm])
           held perms)
  ∧ ∀ q, str_in q (foldl (λ acc perm, if str_in perm acc then acc
                                       else acc ++ [perm]) held perms)
         = str_in q held || str_in q perms.
Proof.
  induction perms as [|p perms IH]; intros held Hnd; simpl.
  - split; [done|]. intros q. by rewrite orb_false_r.
  - destruct (str_in p held) eqn:Hp.
    + destruct (IH held Hnd) as [H1 H2]. split; [done|].
      intros q. rewrite H2. destruct (String.eqb_spec q p) as [->|]; [|done].
      rewrite Hp. by rewrite !orb_true_l.
    + destruct (IH (held ++ [p])) as [H1 H2].
      { apply NoDup_app. split; [done|]. split; [|apply NoDup_singleton].
        intros x Hx Hx'. apply list_elem_of_singleton in Hx' as ->.
        by apply str_in_false in Hp. }
      split; [done|]. intros q. rewrite H2, str_in_app. simpl.
      by rewrite orb_false_r, orb_assoc.
Qed.

Lemma grant_fold_membership perms : ∀ held q,
  str_in q (foldl (λ acc perm, if str_in perm acc then acc else acc ++ [perm])
              held perms)
  = str_in q held || str_in q perms.
Proof.
  induction perms as [|p perms IH]; intros held q; simpl.
  - by rewrite orb_false_r.
  - destruct (str_in p held) eqn:Hp; rewrite IH.
    + destruct (String.eqb_spec q p) as [->|]; [|done].
      rewrite Hp. by rewrite !orb_true_l.
    + rewrite str_in_app. simpl. by rewrite orb_false_r, orb_assoc.
Qed.

Lemma list_remove_nodup x l :
  NoDup l → NoDup (list_remove x l) ∧ str_in x (list_remove x l) = false.
Proof.
  induction 1 as [|y l Hy Hnd IH]; simpl; [split; [constructor|done]|].
  destruct (String.eqb_spec x y) as [->|Hne].
  - split; [done|]. by apply str_in_false.
  - destruct IH as [IH1 IH2]. split.
    + apply NoDup_cons. split; [|done].
      intros Hin. apply Hy. clear -Hin.
      induction l as [|z l IHl]; simpl in Hin; [by apply elem_of_nil in Hin|].
      destruct (String.eqb x z).
      * by right.
      * apply elem_of_cons in Hin as [->|Hin]; [by left|right; by apply IHl].
    + simpl. rewrite IH2. by destruct (String.eqb_spec x y).
Qed.

Lemma check_permission_held m name q :
  _check_permission m name q
  = String.eqb q "read_locales" || str_in q (get_plugin_permissions m name).
Proof.
  unfold _check_permission, get_plugin_permissions.
  destruct (String.eqb q "read_locales"); [done|].
  by destruct (plugin_permissions m !! name).
Qed.

Lemma perms_nodup_held m name :
  perms_nodup m → NoDup (get_plugin_permissions m name).
Proof.
  intros H. unfold get_plugin_permissions.
  destruct (plugin_permissions m !! name) as [held|] eqn:Hh; simpl.
  - by apply (H name).
  - apply NoDup_nil_2.
Qed.

Lemma perms_nodup_insert m name held :
  perms_nodup m → NoDup held →
  perms_nodup (set_plugin_permissions (<[name := held]> (plugin_permissions m)) m).
Proof.
  intros H Hnd p l. simpl. destruct (decide (p = name)) as [->|Hne].
  - rewrite lookup_insert_eq. by intros [= <-].
  - rewrite lookup_insert_ne by done. apply H.
Qed.

Lemma grant_effect name perms s :
  ∃ m' w',
    grant_plugin_permission name perms s = (Ok tt, {| self := m'; os := w' |})
    ∧ same_disk (os s) w'
    ∧ stdin w' = stdin (os s)
    ∧ permission_cache m' = permission_cache (self s)
    ∧ translations m' = translations (self s)
    ∧ plugin_translations m' = plugin_translations (self s)
    ∧ current_language m' = current_language (self s)
    ∧ (∀ n q, str_in q (get_plugin_permissions m' n)
              = str_in q (get_plugin_permissions (self s) n)
                || (bool_decide (n = name) && str_in q perms))
    ∧ (perms_nodup (self s) → perms_nodup m').
Proof.
  unfold grant_plugin_permission, on_self, plugin_print, on_world, modify,
    bind, ret. simpl.
  eexists _, _. split; [reflexivity|]. simpl.
  do 6 (split; [done|]). split.
  - intros n q. unfold get_plugin_permissions. simpl.
    destruct (decide (n = name)) as [->|Hne].
    + rewrite lookup_insert_eq, bool_decide_eq_true_2 by done. simpl.
      apply grant_fold_membership.
    + rewrite lookup_insert_ne, bool_decide_eq_false_2 by done.
      by rewrite orb_false_r.
  - intros Hnd. apply perms_nodup_insert; [done|].
    apply grant_fold_spec. by apply perms_nodup_held.
Qed.

Lemma deny_effect name perm s :
  ∃ m' w',
    deny_plugin_permission name perm s = (Ok tt, {| self := m'; os := w' |})
    ∧ same_disk (os s) w'
    ∧ stdin w' = stdin (os s)
    ∧ permission_cache m' = permission_cache (self s)
    ∧ translations m' = translations (self s)
    ∧ plugin_translations m' = plugin_translations (self s)
    ∧ current_language m' = current_language (self s)
    ∧ (∀ n q, (n ≠ name ∨ q ≠ perm) →
              str_in q (get_plugin_permissions m' n)
              = str_in q (get_plugin_permissions (self s) n))
    ∧ (perms_nodup (self s) →
       perms_nodup m' ∧ str_in perm (get_plugin_permissions m' name) = false).
Proof.
  unfold deny_plugin_permission, on_self, plugin_print, on_world, modify,
    bind, ret. simpl.
  eexists _, _. split; [reflexivity|]. simpl.
  destruct (plugin_permissions (self s) !! name) as [held|] eqn:Hh;
    [destruct (str_in perm held) eqn:Hin|]; simpl;
    (do 6 (split; [done|])); (split; [|intros Hnd; split]); try done.
  - intros n q Hor. unfold get_plugin_permissions. simpl.
    destruct (decide (n = name)) as [->|Hne].
    + rewrite lookup_insert_eq, Hh. simpl. apply str_in_remove_ne.
      destruct Hor; done.
    + by rewrite lookup_insert_ne.
  - apply perms_nodup_insert; [done|]. apply list_remove_nodup. by apply (Hnd name).
  - unfold get_plugin_permissions. simpl. rewrite lookup_insert_eq. simpl.
    apply list_remove_nodup. by apply (Hnd name).
  - unfold get_plugin_permissions. by rewrite Hh.
  - unfold get_plugin_permissions. by rewrite Hh.
Qed.

(** X3. [grant_plugin_permission] and [deny_plugin_permission] act on the
    granted list of the named extension only: after a grant exactly the
    listed capabilities are added to what [_check_permission] allows, after
    a denial (no list holding a capability twice) exactly the named one is
    taken away, [read_locales] staying allowed throughout.  Neither records
    a decision in the cache or touches the permission file. *)
Theorem X3_grant_and_deny_are_local (s : state) (name : string) :
  (∀ perms,
     (∀ n q, _check_permission (self (grant_plugin_permission name perms s).2) n q
             = _check_permission (self s) n q
               || (bool_decide (n = name) && str_in q perms))
     ∧ permission_cache (self (grant_plugin_permission name perms s).2)
       = permission_cache (self s)
     ∧ same_disk (os s) (os (grant_plugin_permission name perms s).2))
  ∧ (∀ perm,
       perms_nodup (self s) →
       (∀ n q, _check_permission (self (deny_plugin_permission name perm s).2) n q
               = if bool_decide (n = name ∧ q = perm ∧ q ≠ "read_locales")
                 then false else _check_permission (self s) n q)
       ∧ permission_cache (self (deny_plugin_permission name perm s).2)
         = permission_cache (self s)
       ∧ same_disk (os s) (os (deny_plugin_permission name perm s).2)).
Proof.
  split.
  - intros perms.
    destruct (grant_effect name perms s)
      as (m' & w' & -> & Hd & _ & Hc & _ & _ & _ & Hmem & _).
    simpl. split; [|done]. intros n q. rewrite !check_permission_held, Hmem.
    by rewrite orb_assoc.
  - intros perm Hnd.
    destruct (deny_effect name perm s)
      as (m' & w' & -> & Hd & _ & Hc & _ & _ & _ & Hmem & Hgone).
    simpl. split; [|done]. intros n q. rewrite !check_permission_held.
    destruct (Hgone Hnd) as [_ Hout]. case_bool_decide as Hcase.
    + destruct Hcase as (-> & -> & Hne). rewrite Hout.
      by destruct (String.eqb_spec perm "read_locales").
    + destruct (String.eqb_spec q "read_locales") as [->|Hq]; [done|]. simpl.
      apply Hmem. destruct (decide (n = name)) as [->|]; [|by left].
      destruct (decide (q = perm)) as [->|]; [|by right]. by destruct Hcase.
Qed.

Lemma X3_witness :
  _check_permission
    (self (deny_plugin_permission "weather_overlay" "write_locales"
             (with_permissions
                (<["weather_overlay" := ["read_main_locales"; "write_locales"]]> ∅)
                (session "ko" quiet_world))).2)
    "weather_overlay" "write_locales"
  = false.
Proof.
  assert (Hnd : perms_nodup
                  (self (with_permissions
                           (<["weather_overlay" :=
                                ["read_main_locales"; "write_locales"]]> ∅)
                           (session "ko" quiet_world)))).
  { intros p held. simpl. destruct (decide (p = "weather_overlay")) as [->|Hne].
    - rewrite lookup_insert_eq. intros [= <-].
      apply NoDup_cons. split; [|apply NoDup_singleton].
      intros Hin. apply list_elem_of_singleton in Hin. discriminate.
    - rewrite lookup_insert_ne by done. rewrite lookup_empty. discriminate. }
  destruct (proj2 (X3_grant_and_deny_are_local
                     (with_permissions
                        (<["weather_overlay" :=
                             ["read_main_locales"; "write_locales"]]> ∅)
                        (session "ko" quiet_world)) "weather_overlay")
              "write_locales" Hnd) as [Hcheck _].
  rewrite Hcheck. reflexivity.
Defined.

(** ** Fresh decisions *)

Lemma request_one_fresh name reason acc p s r1 s1 :
  decision (self s) name p = None →
  request_one name reason acc p s = (r1, s1) →
  (perms_nodup (self s) → perms_nodup (self s1))
  ∧ (∀ acc1, r1 = Ok acc1 → perms_nodup (self s) →
       ∃ g, odict.get p acc1.1 = Some g
            ∧ decision (self s1) name p = Some g
            ∧ str_in p (get_plugin_permissions (self s1) name) = g).
Proof.
  intros H. unfold request_one, bind, get_state. rewrite H.
  destruct (ask_effect name p reason s) as (r & w' & Hask & _ & _).
  rewrite Hask. destruct r as [g|e].
  - unfold on_self at 1. unfold modify at 1. cbn [with_world self os].
    set (s0 := {| self := set_permission_cache _ (self s); os := w' |}).
    assert (Hs0 : plugin_permissions (self s0) = plugin_permissions (self s))
      by done.
    assert (Hd0 : decision (self s0) name p = Some g).
    { unfold s0. simpl. rewrite decision_insert. by rewrite decide_True. }
    destruct g.
    + destruct (grant_effect name [p] s0)
        as (m' & w2 & -> & _ & _ & Hc & _ & _ & _ & Hmem & Hnd).
      unfold ret. intros [= <- <-]. simpl. split.
      * intros Hs. apply Hnd. intros n l. rewrite Hs0. apply Hs.
      * intros acc1 [= <-] _. exists true. simpl.
        split; [apply odict_get_set_eq|]. split.
        -- unfold decision in *. by rewrite Hc.
        -- rewrite Hmem, bool_decide_eq_true_2 by done. simpl.
           rewrite String.eqb_refl. by rewrite orb_true_r.
    + destruct (deny_effect name p s0)
        as (m' & w2 & -> & _ & _ & Hc & _ & _ & _ & _ & Hnd).
      unfold ret. intros [= <- <-]. simpl.
      assert (Hs' : perms_nodup (self s) → perms_nodup (self s0)).
      { intros Hs n l. rewrite Hs0. apply Hs. }
      split.
      * intros Hs. by apply Hnd, Hs'.
      * intros acc1 [= <-] Hs. exists false. simpl.
        split; [apply odict_get_set_eq|]. split.
        -- unfold decision in *. by rewrite Hc.
        -- by apply Hnd, Hs'.
  - intros [= <- <-]. simpl. split; [done|]. intros acc1 [=].
Qed.

Lemma request_loop_fresh name reason perms : ∀ acc s out s',
  foldM (request_one name reason) perms acc s = (out, s') →
  perms_nodup (self s) →
  perms_nodup (self s')
  ∧ (∀ r, out = Ok r →
       ∀ q, q ∈ perms → decision (self s) name q = None →
         ∃ b, decision (self s') name q = Some b
              ∧ str_in q (get_plugin_permissions (self s') name) = b).
Proof.
  induction perms as [|p rest IH]; intros acc s out s' Hrun Hnd;
    simpl in Hrun.
  - unfold ret in Hrun. injection Hrun as <- <-. split; [done|].
    intros r _ q Hq. by apply elem_of_nil in Hq.
  - unfold bind in Hrun.
    destruct (decision (self s) name p) as [b0|] eqn:Hp.
    + rewrite (request_one_decided _ _ _ _ _ b0) in Hrun by done.
      destruct (IH _ _ _ _ Hrun Hnd) as [H1 H2]. split; [done|].
      intros r Hr q Hq Hnone. apply (H2 r Hr); [|done].
      apply elem_of_cons in Hq as [->|Hq]; [congruence|done].
    + destruct (request_one name reason acc p s) as [r1 s1] eqn:Hone.
      destruct (request_one_fresh _ _ _ _ _ _ _ Hp Hone) as [Hnd1 Hfresh].
      destruct (request_one_undecided name reason acc p s Hp)
        as (r0 & w' & _ & _ & Hcase).
      destruct r1 as [acc1|e].
      * destruct (Hfresh acc1 eq_refl Hnd) as (g & _ & Hdec & Hheld).
        destruct (IH _ _ _ _ Hrun (Hnd1 Hnd)) as [H1 H2].
        destruct (request_loop _ _ _ _ _ _ _ Hrun) as (_ & _ & Hk & Hg & _).
        split; [done|]. intros r Hr q Hq Hnone.
        destruct (decide (q = p)) as [->|Hne].
        -- exists g. split; [by apply Hk|]. by rewrite (Hg p g Hdec).
        -- apply (H2 r Hr).
           ++ apply elem_of_cons in Hq as [->|Hq]; done.
           ++ destruct r0 as [g0|e0].
              ** destruct Hcase as (m' & Hone' & Hdec' & _).
                 rewrite Hone in Hone'. injection Hone' as _ ->. simpl.
                 rewrite Hdec'. rewrite decide_False; [done|].
                 by intros [_ ?].
              ** rewrite Hone in Hcase. discriminate.
      * injection Hrun as <- <-. split; [by apply Hnd1|]. intros r [=].
Qed.

(** X4. A decision the operator takes during a request is in force when the
    call returns: for every requested capability that had no decision
    before, [_check_permission] afterwards answers what the operator
    answered (and what the returned dictionary reports), [read_locales]
    being allowed whatever the answer. *)
Theorem X4_fresh_decision_is_in_force
    (s : state) (name : string) (perms : list string) (reason : string)
    (r : odict.t bool) (s' : state) :
  perms_nodup (self s) →
  request_plugin_permission name perms reason s = (Ok r, s') →
  ∀ q, q ∈ perms → decision (self s) name q = None →
    ∃ b, odict.get q r = Some b
         ∧ _check_permission (self s') name q
           = String.eqb q "read_locales" || b.
Proof.
  intros Hnd Hrun q Hq Hnone.
  rewrite request_unfold in Hrun.
  destruct (foldM _ perms _ s) as [[acc|e] s1] eqn:Hloop; [|done].
  injection Hrun as <- <-.
  destruct (request_loop_fresh _ _ _ _ _ _ _ Hloop Hnd) as [_ Hfresh].
  destruct (Hfresh acc eq_refl q Hq Hnone) as (b & Hdec & Hheld).
  destruct (proj1 (request_loop_result _ _ _ _ _ _ _ Hloop) q Hq)
    as [_ Hget].
  assert (Hself : self (if acc.2 then (_save_permissions_to_file s1).2 else s1)
                  = self s1).
  { destruct acc.2; [|done]. by rewrite save_effect. }
  rewrite Hself. exists b. split; [congruence|].
  by rewrite check_permission_held, Hheld.
Qed.

Lemma X4_witness :
  ∃ b, odict.get "write_locales"
         [("read_main_locales", true); ("write_locales", false)] = Some b
       ∧ _check_permission
           (self (request_plugin_permission "weather_overlay"
                    ["read_main_locales"; "write_locales"] "labels"
                    (session "ko" (answers ["y"; "n"]))).2)
           "weather_overlay" "write_locales"
         = String.eqb "write_locales" "read_locales" || b.
Proof.
  apply (X4_fresh_decision_is_in_force
           (session "ko" (answers ["y"; "n"])) "weather_overlay"
           ["read_main_locales"; "write_locales"] "labels"
           [("read_main_locales", true); ("write_locales", false)] _).
  - intros p held. simpl. rewrite lookup_empty. discriminate.
  - vm_compute. reflexivity.
  - apply list_elem_of_In. simpl. auto.
  - vm_compute. reflexivity.
Defined.

(** X5. No granted list ever holds a capability twice: a new manager has
    none, and grants, denials and requests (however they end) keep it so.
    This is what makes the single [list.remove] of a denial revoke the
    capability. *)
Theorem X5_granted_lists_hold_no_duplicates :
  (∀ w locales_dir system_language,
     perms_nodup (__init__ locales_dir system_language w).1)
  ∧ (∀ s : state,
       perms_nodup (self s) →
       (∀ name perms,
          perms_nodup (self (grant_plugin_permission name perms s).2))
       ∧ (∀ name perm,
            perms_nodup (self (deny_plugin_permission name perm s).2))
       ∧ (∀ name perms reason,
            perms_nodup (self (request_plugin_permission name perms reason s).2))).
Proof.
  split.
  - intros w ld sl p held.
    destruct (init_permissions w ld sl) as (-> & _ & _).
    rewrite lookup_empty. discriminate.
  - intros s Hnd. split; [|split].
    + intros name perms.
      destruct (grant_effect name perms s)
        as (m' & w' & -> & _ & _ & _ & _ & _ & _ & _ & H). by apply H.
    + intros name perm.
      destruct (deny_effect name perm s)
        as (m' & w' & -> & _ & _ & _ & _ & _ & _ & _ & H). by apply H.
    + intros name perms reason. rewrite request_unfold.
      destruct (foldM _ perms _ s) as [[acc|e] s1] eqn:Hloop;
        destruct (request_loop_fresh _ _ _ _ _ _ _ Hloop Hnd) as [H _];
        [|done].
      simpl. destruct acc.2; [|done]. by rewrite save_effect.
Qed.

Lemma X5_witness :
  perms_nodup
    (self (request_plugin_permission "weather_overlay"
             ["write_locales"; "write_locales"] "labels"
             (session "ko" (answers ["y"]))).2).
Proof.
  apply (proj2 X5_granted_lists_hold_no_duplicates
           (session "ko" (answers ["y"]))).
  intros p held. simpl. rewrite lookup_empty. discriminate.
Defined.

(** ** Memory and disk *)

Lemma stored_decision m n q : stored (permission_cache m) n q = decision m n q.
Proof. done. Qed.

(** X6. Every decision in memory is also in the permission file: this holds
    for a new manager, and a request that returns on a writable disk keeps
    it. *)
Theorem X6_decisions_are_on_disk :
  (∀ w locales_dir system_language,
     flushed {| self := (__init__ locales_dir system_language w).1;
                os := (__init__ locales_dir system_language w).2 |})
  ∧ (∀ (s : state) name perms reason r s',
       flushed s →
       perm_disk_error (os s) = None →
       request_plugin_permission name perms reason s = (Ok r, s') →
       flushed s').
Proof.
  split.
  - intros w ld sl n q b.
    destruct (init_permissions w ld sl) as (_ & Hc & (Hf & _)).
    unfold decision. cbn [self os]. rewrite Hc, Hf.
    destruct (perm_file w) as [|err|st]; simpl;
      try (rewrite lookup_empty; discriminate).
    intros Hd. by exists st.
  - intros s name perms reason r s' Hfl Hdisk Hrun.
    rewrite request_unfold in Hrun.
    destruct (foldM _ perms _ s) as [[acc|e] s1] eqn:Hloop; [|done].
    destruct (request_loop _ _ _ _ _ _ _ Hloop)
      as ((Hf & Hw & He) & _ & _ & _ & Hr).
    destruct (Hr acc eq_refl) as [Hflag _]. simpl in Hflag.
    injection Hrun as _ <-.
    destruct (undecided (self s) name perms) eqn:Hund; rewrite Hflag.
    + intros n q b Hd. rewrite save_effect in *. simpl in *.
      rewrite He, Hdisk. simpl. eexists. split; [reflexivity|].
      by rewrite stored_decision.
    + assert (Hall : ∀ q, q ∈ perms → is_Some (decision (self s) name q)).
      { intros q Hq. destruct (decision (self s) name q) eqn:Hd; [done|].
        exfalso. assert (undecided (self s) name perms = true); [|congruence].
        apply undecided_true. by exists q. }
      destruct (request_loop_decided name reason perms ([], false) s Hall)
        as [r0 Hloop'].
      rewrite Hloop' in Hloop. by injection Hloop as _ <-.
Qed.

Lemma X6_witness :
  flushed (request_plugin_permission "weather_overlay"
             ["read_main_locales"; "write_locales"] "labels"
             (session "ko" (answers ["y"; "n"]))).2.
Proof.
  apply (proj2 X6_decisions_are_on_disk
           (session "ko" (answers ["y"; "n"])) "weather_overlay"
           ["read_main_locales"; "write_locales"] "labels"
           [("read_main_locales", true); ("write_locales", false)]).
  - intros n q b. unfold decision.
    change (permission_cache (self (session "ko" (answers ["y"; "n"]))))
      with (∅ : permission_store).
    rewrite lookup_empty. discriminate.
  - reflexivity.
  - vm_compute. reflexivity.
Defined.

(** ** A request that does not return *)





(** ** Languages and translation files *)

(** X8. [set_language] accepts exactly the supported languages: an accepted
    one becomes the language host lookups try first — a key with a text in
    that language resolves to it — with nothing else changed; any other is
    refused with [False], silently, and the language in force stays. *)
Theorem X8_set_language_switches_lookups (s : state) (language : string) :
  (language ∈ SUPPORTED_LANGUAGES →
     ∃ s', set_language language s = (Ok true, s')
       ∧ get_current_language (self s') = language
       ∧ translations (self s') = translations (self s)
       ∧ plugin_translations (self s') = plugin_translations (self s)
       ∧ keeps_permissions s s'
       ∧ console (os s') = console (os s)
       ∧ ∀ key v dflt,
           text_in (translations (self s)) language key = Some v →
           get_text key None dflt s' = (Ok v, s'))
  ∧ (language ∉ SUPPORTED_LANGUAGES →
     set_language language s = (Ok false, s)).
Proof.
  unfold set_language. split.
  - intros Hin. apply str_in_elem in Hin. rewrite Hin.
    eexists. split; [reflexivity|]. simpl.
    do 5 (split; [done|]). intros key v dflt Hv.
    unfold get_text, bind, get_state. simpl.
    unfold find_text. simpl. by rewrite Hv.
  - intros Hout. apply str_in_false in Hout. by rewrite Hout.
Qed.

Lemma X8_witness :
  ∃ s', set_language "en" (session "ko" quiet_world) = (Ok true, s')
        ∧ get_text "common.welcome" None None s' = (Ok "Welcome", s').
Proof.
  destruct (proj1 (X8_set_language_switches_lookups
                     (session "ko" quiet_world) "en"))
    as (s' & Hset & _ & _ & _ & _ & _ & Hget).
  - apply list_elem_of_In. simpl. auto.
  - exists s'. split; [exact Hset|].
    apply Hget. vm_compute. reflexivity.
Defined.

Lemma last_text_app l1 l2 k :
  last_text (l1 ++ l2) k
  = match last_text l2 k with
    | Some v => Some v
    | None => last_text l1 k
    end.
Proof.
  induction l1 as [|kv l1 IH]; simpl.
  - by destruct (last_text l2 k).
  - rewrite IH. by destruct (last_text l2 k).
Qed.

Lemma foldl_insert_lookup (g : string * string → string) items :
  ∀ (tr : gmap string string) k,
  foldl (λ t kv, <[g kv := kv.2]> t) tr items !! k
  = match last_text (map (λ kv, (g kv, kv.2)) items) k with
    | Some v => Some v
    | None => tr !! k
    end.
Proof.
  induction items as [|kv items IH]; intros tr k; simpl; [done|].
  rewrite IH. destruct (last_text _ k); [done|].
  destruct (String.eqb_spec (g kv) k) as [<-|Hne].
  - apply lookup_insert_eq.
  - by apply lookup_insert_ne.
Qed.

Lemma only_printed_refl w : only_printed w w.
Proof. done. Qed.

Lemma only_printed_trans w1 w2 w3 :
  only_printed w1 w2 → only_printed w2 w3 → only_printed w1 w3.
Proof.
  unfold only_printed. intros (?&?&?&?&?) (?&?&?&?&?).
  split; [by eapply same_disk_trans|]. repeat split; congruence.
Qed.

Lemma load_main_files_spec lang_dir files : ∀ tr s,
  ∃ tr' w',
    foldM (load_main_file lang_dir) files tr s = (Ok tr', with_world w' s)
    ∧ only_printed (os s) w'
    ∧ ∀ k, tr' !! k = match last_text (prefixed_items files) k with
                      | Some v => Some v
                      | None => tr !! k
                      end.
Proof.
  induction files as [|f files IH]; intros tr s; simpl.
  - exists tr, (os s). by destruct s.
  - unfold bind, load_main_file at 1. unfold prefixed_items. simpl.
    destruct (lf_content f) as [items|]; simpl.
    + destruct (IH (foldl (λ t kv, <[lf_stem f +:+ "." +:+ kv.1 := kv.2]> t)
                      tr items) s) as (tr' & w' & -> & Hw & Hk).
      exists tr', w'. split; [done|]. split; [done|].
      intros k. rewrite Hk, last_text_app. fold (prefixed_items files).
      destruct (last_text (prefixed_items files) k); [done|].
      apply (foldl_insert_lookup (λ kv, lf_stem f +:+ "." +:+ kv.1)).
    + unfold plugin_print, on_world, modify, bind, ret. simpl.
      match goal with
      | |- context [foldM _ files tr ?s0] =>
          destruct (IH tr s0) as (tr' & w' & Hrun & Hw & Hk)
      end.
      exists tr', w'. rewrite Hrun. split; [done|]. split.
      * eapply only_printed_trans; [|exact Hw]. done.
      * intros k. rewrite Hk. fold (prefixed_items files).
        by destruct (last_text (prefixed_items files) k).
Qed.

Lemma load_plugin_files_spec name files : ∀ tr s,
  ∃ tr' w',
    foldM (load_plugin_file name) files tr s = (Ok tr', with_world w' s)
    ∧ only_printed (os s) w'
    ∧ ∀ k, tr' !! k = match last_text (file_items files) k with
                      | Some v => Some v
                      | None => tr !! k
                      end.
Proof.
  induction files as [|f files IH]; intros tr s; simpl.
  - exists tr, (os s). by destruct s.
  - unfold bind, load_plugin_file at 1. unfold file_items. simpl.
    destruct (lf_content f) as [items|]; simpl.
    + destruct (IH (foldl (λ t kv, <[kv.1 := kv.2]> t) tr items) s)
        as (tr' & w' & -> & Hw & Hk).
      exists tr', w'. split; [done|]. split; [done|].
      intros k. rewrite Hk, last_text_app. fold (file_items files).
      destruct (last_text (file_items files) k); [done|].
      rewrite (foldl_insert_lookup fst).
      assert (map (λ kv : string * string, (kv.1, kv.2)) items = items) as ->;
        [|done].
      clear. induction items as [|[a b] items IH]; simpl; [done|].
      by rewrite IH.
    + unfold plugin_print, on_world, modify, bind, ret. simpl.
      match goal with
      | |- context [foldM _ files tr ?s0] =>
          destruct (IH tr s0) as (tr' & w' & Hrun & Hw & Hk)
      end.
      exists tr', w'. rewrite Hrun. split; [done|]. split.
      * eapply only_printed_trans; [|exact Hw]. done.
      * intros k. rewrite Hk. fold (file_items files).
        by destruct (last_text (file_items files) k).
Qed.

Lemma plugin_lang_step name (tree : locale_tree)
    (acc : gmap string (gmap string string)) lang s :
  ∃ acc' w',
    match tree !! lang with
    | None => ret acc
    | Some files =>
        tr <~ foldM (load_plugin_file name) files ∅ ;;;
        ret (<[lang := tr]> acc)
    end s = (Ok acc', with_world w' s)
    ∧ only_printed (os s) w'
    ∧ match tree !! lang with
      | None => acc' = acc ∧ w' = os s
      | Some files =>
          ∃ tr, acc' = <[lang := tr]> acc
                ∧ ∀ k, tr !! k = last_text (file_items files) k
      end.
Proof.
  destruct (tree !! lang) as [files|].
  - unfold bind.
    destruct (load_plugin_files_spec name files ∅ s)
      as (tr & w' & -> & Hw & Hk).
    eexists _, w'. split; [reflexivity|]. split; [done|].
    exists tr. split; [done|]. intros k. rewrite Hk.
    destruct (last_text (file_items files) k); [done|apply lookup_empty].
  - exists acc, (os s). by destruct s.
Qed.

(** X9. [load_plugin_translations] never raises and touches nothing but the
    named extension's tables and the console.  Without a [locales]
    directory, or with one that has neither a [ko] nor an [en]
    sub-directory, it changes nothing at all; otherwise the extension's
    tables are replaced by one table per language directory found, in
    which a key has the text its last occurrence in the files that load
    gives it (keys are not prefixed, later files override earlier ones). *)
Theorem X9_plugin_tables_come_from_its_files
    (s : state) (name dir : string) :
  ∃ s',
    load_plugin_translations name dir s = (Ok tt, s')
    ∧ only_printed (os s) (os s')
    ∧ translations (self s') = translations (self s)
    ∧ current_language (self s') = current_language (self s)
    ∧ keeps_permissions s s'
    ∧ (∀ other, other ≠ name →
         plugin_translations (self s') !! other
         = plugin_translations (self s) !! other)
    ∧ match locale_dirs (os s) !! path_join dir "locales" with
      | None => s' = s
      | Some tree =>
          (tree !! "ko" = None → tree !! "en" = None → s' = s)
          ∧ (is_Some (tree !! "ko") ∨ is_Some (tree !! "en") →
             ∃ t, plugin_translations (self s') !! name = Some t
                  ∧ ∀ lang key,
                      text_in t lang key
                      = if str_in lang SUPPORTED_LANGUAGES then
                          match tree !! lang with
                          | Some files => last_text (file_items files) key
                          | None => None
                          end
                        else None)
      end.
Proof.
  unfold load_plugin_translations, bind at 1, get_state.
  destruct (locale_dirs (os s) !! path_join dir "locales") as [tree|];
    [|by exists s].
  unfold SUPPORTED_LANGUAGES. cbn [foldM]. unfold bind at 1, bind at 1.
  destruct (plugin_lang_step name tree ∅ "ko" s)
    as (acc1 & w1 & -> & Hw1 & H1).
  unfold bind at 1.
  destruct (plugin_lang_step name tree acc1 "en" (with_world w1 s))
    as (acc2 & w2 & -> & Hw2 & H2).
  cbn [ret with_world self os] in *.
  assert (Hw : only_printed (os s) w2)
    by (by eapply only_printed_trans).
  destruct (tree !! "ko") as [f1|] eqn:Hko;
    destruct (tree !! "en") as [f2|] eqn:Hen.
  - destruct H1 as (tr1 & -> & Hk1), H2 as (tr2 & -> & Hk2).
    rewrite decide_False by apply insert_non_empty.
    eexists. split; [reflexivity|]. simpl.
    destruct Hw as (Hd & ? & ? & ? & ?).
    split; [done|]. do 3 (split; [done|]).
    split; [intros other Hne; by apply lookup_insert_ne|].
    split; [discriminate|]. intros _. eexists.
    split; [apply lookup_insert_eq|]. intros lang key. unfold text_in.
    destruct (String.eqb_spec lang "en") as [->|Hne_en].
    { rewrite lookup_insert_eq, Hen. apply Hk2. }
    rewrite lookup_insert_ne by done.
    destruct (String.eqb_spec lang "ko") as [->|Hne_ko].
    { rewrite lookup_insert_eq, Hko. simpl. apply Hk1. }
    rewrite lookup_insert_ne by done. rewrite lookup_empty.
    unfold str_in. simpl.
    destruct (String.eqb_spec lang "ko"); [done|].
    by destruct (String.eqb_spec lang "en").
  - destruct H1 as (tr1 & -> & Hk1), H2 as [-> _].
    rewrite decide_False by apply insert_non_empty.
    eexists. split; [reflexivity|]. simpl.
    destruct Hw as (Hd & ? & ? & ? & ?).
    split; [done|]. do 3 (split; [done|]).
    split; [intros other Hne; by apply lookup_insert_ne|].
    split; [discriminate|]. intros _. eexists.
    split; [apply lookup_insert_eq|]. intros lang key. unfold text_in.
    destruct (String.eqb_spec lang "ko") as [->|Hne_ko].
    { rewrite lookup_insert_eq, Hko. simpl. apply Hk1. }
    rewrite lookup_insert_ne by done. rewrite lookup_empty.
    unfold str_in. simpl.
    destruct (String.eqb_spec lang "ko"); [done|].
    destruct (String.eqb_spec lang "en") as [->|]; [by rewrite Hen|done].
  - destruct H1 as [-> _], H2 as (tr2 & -> & Hk2).
    rewrite decide_False by apply insert_non_empty.
    eexists. split; [reflexivity|]. simpl.
    destruct Hw as (Hd & ? & ? & ? & ?).
    split; [done|]. do 3 (split; [done|]).
    split; [intros other Hne; by apply lookup_insert_ne|].
    split; [discriminate|]. intros _. eexists.
    split; [apply lookup_insert_eq|]. intros lang key. unfold text_in.
    destruct (String.eqb_spec lang "en") as [->|Hne_en].
    { rewrite lookup_insert_eq, Hen.
      replace (str_in "en" ["ko"; "en"]) with true by done. apply Hk2. }
    rewrite lookup_insert_ne by done. rewrite lookup_empty.
    unfold str_in. simpl.
    destruct (String.eqb_spec lang "ko") as [->|]; [by rewrite Hko|].
    by destruct (String.eqb_spec lang "en").
  - destruct H1 as [-> ->], H2 as [-> ->]. rewrite decide_True by done.
    exists s. split; [by destruct s|].
    split; [done|]. do 4 (split; [done|]). split; [done|].
    intros [[? [=]]|[? [=]]].
Qed.

Lemma X9_witness :
  ∃ s' t,
    load_plugin_translations "weather_overlay" "/opt/dart/modules/plugins"
      (session "ko" installed_world) = (Ok tt, s')
    ∧ plugin_translations (self s') !! "weather_overlay" = Some t
    ∧ text_in t "ko" "greeting" = Some "오늘의 날씨".
Proof.
  destruct (X9_plugin_tables_come_from_its_files
              (session "ko" installed_world) "weather_overlay"
              "/opt/dart/modules/plugins")
    as (s' & Hrun & _ & _ & _ & _ & _ & Htab).
  change (locale_dirs (os (session "ko" installed_world))
            !! path_join "/opt/dart/modules/plugins" "locales")
    with (Some overlay_files) in Htab.
  destruct Htab as [_ Htab].
  destruct Htab as (t & Ht & Htext).
  - left. vm_compute. eexists. reflexivity.
  - exists s', t. split; [exact Hrun|]. split; [exact Ht|].
    rewrite Htext. vm_compute. reflexivity.
Defined.

Lemma main_lang_step lang s :
  ∃ s',
    (s <~ get_state ;;;
     match default ∅ (locale_dirs (os s) !! locales_dir (self s)) !! lang with
     | None => ret tt
     | Some files =>
         tr <~ foldM (load_main_file (path_join (locales_dir (self s)) lang))
                 files ∅ ;;;
         on_self (λ m, set_translations (<[lang := tr]> (translations m)) m)
     end) s = (Ok tt, s')
    ∧ only_printed (os s) (os s')
    ∧ locales_dir (self s') = locales_dir (self s)
    ∧ (∀ l, l ≠ lang →
         translations (self s') !! l = translations (self s) !! l)
    ∧ match default ∅ (locale_dirs (os s) !! locales_dir (self s)) !! lang with
      | None => translations (self s') !! lang = translations (self s) !! lang
      | Some files =>
          ∃ tr, translations (self s') !! lang = Some tr
                ∧ ∀ k, tr !! k = last_text (prefixed_items files) k
      end.
Proof.
  unfold bind at 1, get_state.
  destruct (default ∅ _ !! lang) as [files|]; [|by exists s].
  unfold bind.
  destruct (load_main_files_spec
              (path_join (locales_dir (self s)) lang) files ∅ s)
    as (tr & w' & -> & Hw & Hk).
  eexists. split; [reflexivity|]. simpl. split; [done|]. split; [done|].
  split; [intros l Hne; by apply lookup_insert_ne|].
  exists tr. split; [apply lookup_insert_eq|].
  intros k. rewrite Hk.
  destruct (last_text (prefixed_items files) k); [done|apply lookup_empty].
Qed.

Lemma load_main_spec s :
  ∃ s',
    _load_main_translations s = (Ok tt, s')
    ∧ only_printed (os s) (os s')
    ∧ ∀ lang key,
        text_in (translations (self s')) lang key
        = if str_in lang SUPPORTED_LANGUAGES then
            match default ∅ (locale_dirs (os s) !! locales_dir (self s)) !! lang with
            | Some files => last_text (prefixed_items files) key
            | None => text_in (translations (self s)) lang key
            end
          else text_in (translations (self s)) lang key.
Proof.
  unfold _load_main_translations, SUPPORTED_LANGUAGES. cbn [for_each].
  destruct (main_lang_step "ko" s) as (s1 & H1 & W1 & D1 & O1 & T1).
  destruct (main_lang_step "en" s1) as (s2 & H2 & W2 & D2 & O2 & T2).
  exists s2. split.
  { unfold bind at 1. rewrite H1. unfold bind at 1. by rewrite H2. }
  split; [by eapply only_printed_trans|].
  destruct W1 as (_ & _ & Hl1 & _). rewrite D1, Hl1 in T2.
  intros lang key. unfold text_in, str_in. simpl.
  destruct (String.eqb_spec lang "ko") as [->|Hko]; simpl.
  - rewrite O2 by done.
    destruct (default ∅ _ !! "ko") as [files|].
    + destruct T1 as (tr & -> & Hk). apply Hk.
    + by rewrite T1.
  - destruct (String.eqb_spec lang "en") as [->|Hen]; simpl.
    + destruct (default ∅ _ !! "en") as [files|].
      * destruct T2 as (tr & -> & Hk). apply Hk.
      * rewrite T2. by rewrite O1.
    + rewrite O2, O1 by done. done.
Qed.

(** X10. The host tables of a new manager come from the [ko] and [en]
    sub-directories of its locales directory and from nowhere else: in each,
    a key is the file's stem, a dot and the key inside the file, and its
    text is the one its last occurrence in the files that load gives it.  A
    language without a directory, and any other language, has no text. *)
Theorem X10_host_tables_come_from_prefixed_files
    (w : World) (locales_dir system_language : option string)
    (lang key : string) :
  text_in (translations (__init__ locales_dir system_language w).1) lang key
  = if str_in lang SUPPORTED_LANGUAGES then
      match default ∅ (locale_dirs w
                         !! match locales_dir with
                            | Some d => d
                            | None => path_join (install_dir w) "locales"
                            end) !! lang with
      | Some files => last_text (prefixed_items files) key
      | None => None
      end
    else None.
Proof.
  unfold __init__. cbv zeta. unfold bind.
  rewrite load_permissions_effect. cbn [fst snd self os].
  match goal with
  | |- context [_load_main_translations ?s0] =>
      destruct (load_main_spec s0) as (s' & -> & _ & Ht);
      assert (Hd : locale_dirs (os s0) = locale_dirs w)
        by (by destruct (perm_file w));
      assert (Hl : localization.locales_dir (self s0)
                   = match locales_dir with
                     | Some d => d
                     | None => path_join (install_dir w) "locales"
                     end) by (by destruct (perm_file w));
      assert (He : translations (self s0) = ∅) by (by destruct (perm_file w))
  end.
  cbn [fst snd]. rewrite Ht, Hd, Hl, He.
  assert (text_in ∅ lang key = None) as ->
    by (unfold text_in; by rewrite lookup_empty).
  destruct (str_in lang SUPPORTED_LANGUAGES); [|done].
  by destruct (default ∅ _ !! lang).
Qed.

(** ** How often the operator is asked *)

Lemma to_ask_decided m name p rest b :
  decision m name p = Some b →
  to_ask m name (p :: rest) = to_ask m name rest.
Proof.
  intros Hp. unfold to_ask. rewrite filter_cons_False; [done|].
  by rewrite Hp.
Qed.

Lemma to_ask_undecided m m' name p rest :
  decision m name p = None →
  (∀ q, decision m' name q = None ↔ q ≠ p ∧ decision m name q = None) →
  length (to_ask m name (p :: rest)) = S (length (to_ask m' name rest)).
Proof.
  intros Hp Hm'. unfold to_ask.
  change (S (length ?l)) with (length (p :: l)).
  apply Permutation_length, NoDup_Permutation.
  - apply NoDup_remove_dups.
  - apply NoDup_cons. split; [|apply NoDup_remove_dups].
    rewrite elem_of_remove_dups, list_elem_of_filter, Hm'. tauto.
  - intros x.
    rewrite elem_of_remove_dups, list_elem_of_filter, !elem_of_cons,
      elem_of_remove_dups, list_elem_of_filter, Hm'.
    destruct (decide (x = p)) as [->|Hne]; tauto.
Qed.

Lemma request_loop_asks name reason perms : ∀ acc s r s',
  foldM (request_one name reason) perms acc s = (Ok r, s') →
  shown name (os s')
  = (shown name (os s) + length (to_ask (self s) name perms))%nat.
Proof.
  induction perms as [|p rest IH]; intros acc s r s' Hrun; simpl in Hrun.
  - unfold ret in Hrun. injection Hrun as _ <-. simpl. lia.
  - unfold bind in Hrun.
    destruct (decision (self s) name p) as [b0|] eqn:Hp.
    + rewrite (request_one_decided _ _ _ _ _ b0) in Hrun by done.
      rewrite (to_ask_decided _ _ _ _ b0) by done. by eapply IH.
    + destruct (request_one_undecided name reason acc p s Hp)
        as (r0 & w' & _ & Hshown & Hcase).
      destruct r0 as [g|e]; [|rewrite Hcase in Hrun; discriminate].
      destruct Hcase as (m' & Hone & Hdec & _). rewrite Hone in Hrun.
      rewrite (IH _ _ _ _ Hrun). cbn [self os]. rewrite Hshown.
      rewrite (to_ask_undecided (self s) m' name p rest Hp); [lia|].
      intros q. rewrite Hdec. destruct (decide (name = name ∧ q = p)) as [[_ ->]|Hn].
      * split; [discriminate|]. by intros [? _].
      * split; [|by intros [_ ?]]. intros Hq. split; [|done].
        intros ->. by apply Hn.
Qed.

(** X11. A request that returns has shown the operator the permission
    banner once for each requested capability that had no decision when it
    started, a capability listed several times counting once, and not at
    all for the others. *)
Theorem X11_asked_once_per_undecided_capability
    (s : state) (name : string) (perms : list string) (reason : string)
    (r : odict.t bool) (s' : state) :
  request_plugin_permission name perms reason s = (Ok r, s') →
  shown name (os s')
  = (shown name (os s) + length (to_ask (self s) name perms))%nat.
Proof.
  rewrite request_unfold.
  destruct (foldM _ perms _ s) as [[acc|e] s1] eqn:Hloop; [|done].
  intros [= _ <-]. rewrite <- (request_loop_asks _ _ _ _ _ _ _ Hloop).
  destruct acc.2; [|done]. apply save_shown.
Qed.

Lemma X11_witness :
  shown "weather_overlay"
    (os (request_plugin_permission "weather_overlay"
           ["write_locales"; "read_main_locales"; "write_locales"] "labels"
           {| self := set_permission_cache granted_store (catalog "ko");
              os := answers ["n"] |}).2)
  = (0 + length ["write_locales"])%nat.
Proof.
  refine (X11_asked_once_per_undecided_capability
            {| self := set_permission_cache granted_store (catalog "ko");
               os := answers ["n"] |} "weather_overlay"
            ["write_locales"; "read_main_locales"; "write_locales"] "labels"
            [("write_locales", false); ("read_main_locales", true)] _ _).
  vm_compute. reflexivity.
Defined.

End catalog_extras.

(** * Further proofs: discovery, the registry and the stage runner *)

Module registry_extras.
Import plugin_loader registry_notions registry_proofs.
Import plugin_loader_rest main_py loading_notions.

(** ** Discovery never raises *)

Lemma register_attrs_objects mn attrs : ∀ count s,
  ∃ k,
    (k ≤ length attrs)%nat
    ∧ objects (register_attrs mn attrs count s).2
      = objects s ++ (fst <$> take k attrs)
    ∧ ((register_attrs mn attrs count s).1.1 ≤ count + k)%nat
    ∧ (count ≤ (register_attrs mn attrs count s).1.1)%nat
    ∧ (attrs ≠ [] → 0 < k).
Proof.
  induction attrs as [|attr rest IH]; intros count s; simpl.
  - exists 0. rewrite app_nil_r. repeat split; try lia; try done.
  - destruct (register_registry mn attr s) as (Hobj & _ & _ & _).
    destruct (register mn attr s) as [[[]|e] s1]; simpl in *.
    + destruct (IH (S count) s1) as (k & Hk & Ho & Hc1 & Hc2 & _).
      exists (S k). simpl. rewrite Ho, Hobj, <- app_assoc. simpl.
      repeat split; try lia; try done.
    + exists 1. simpl. rewrite ?take_0. simpl. rewrite Hobj.
      repeat split; try lia; try done.
Qed.

Lemma load_file_objects count f s :
  ∃ count' s' k,
    load_file count f s = (Ok count', s')
    ∧ objects s' = objects s ++ (fst <$> take k (attrs_of f))
    ∧ (count ≤ count' ≤ count + k)%nat
    ∧ (k ≤ length (attrs_of f))%nat
    ∧ (attrs_of f ≠ [] → 0 < k)
    ∧ invoked s' = invoked s.
Proof.
  unfold load_file, attrs_of.
  destruct (String.eqb _ _).
  { exists count, s, 0. simpl. rewrite app_nil_r. repeat split; try lia; done. }
  destruct (body f) as [e|attrs].
  { eexists count, _, 0. split; [reflexivity|]. simpl. rewrite app_nil_r.
    repeat split; try lia; done. }
  destruct (register_attrs_objects (stem f) attrs count s)
    as (k & Hk & Ho & Hc1 & Hc2 & Hpos).
  assert (Hinv : invoked (register_attrs (stem f) attrs count s).2 = invoked s).
  { clear. revert count s.
    induction attrs as [|attr rest IH]; intros count s; simpl; [done|].
    destruct (register_registry (stem f) attr s) as (_ & _ & _ & Hi).
    destruct (register (stem f) attr s) as [[[]|e] s1]; simpl in *; [|done].
    by rewrite IH. }
  destruct (register_attrs (stem f) attrs count s) as [[count' [e|]] s1];
    simpl in *.
  - eexists count', _, k. split; [reflexivity|]. simpl.
    repeat split; try lia; done.
  - exists count', s1, k. repeat split; try lia; done.
Qed.

Lemma load_files_objects files : ∀ count s,
  ∃ count' s' new,
    foldM load_file files count s = (Ok count', s')
    ∧ objects s' = objects s ++ new
    ∧ new `sublist_of` (fst <$> decorated files)
    ∧ (count' ≤ count + length new)%nat
    ∧ invoked s' = invoked s
    ∧ ∀ f a rest, f ∈ files → attrs_of f = a :: rest → a.1 ∈ new.
Proof.
  induction files as [|f files IH]; intros count s; simpl.
  - exists count, s, []. rewrite app_nil_r. repeat split; try lia; try done.
    intros f a rest Hf. by apply elem_of_nil in Hf.
  - unfold bind.
    destruct (load_file_objects count f s)
      as (c1 & s1 & k & -> & Ho1 & Hc1 & Hk & Hpos & Hi1).
    destruct (IH c1 s1) as (c2 & s2 & new & -> & Ho2 & Hsub & Hc2 & Hi2 & Hfirst).
    exists c2, s2, ((fst <$> take k (attrs_of f)) ++ new).
    split; [done|]. split; [by rewrite Ho2, Ho1, <- app_assoc|]. split.
    { unfold decorated. simpl. rewrite fmap_app. apply sublist_app; [|done].
      apply fmap_sublist, sublist_take. }
    split; [rewrite length_app, length_fmap, length_take; lia|].
    split; [congruence|].
    intros f0 a rest Hf Ha. apply elem_of_app.
    apply elem_of_cons in Hf as [->|Hf]; [left|right; by eapply Hfirst].
    rewrite Ha in *. destruct k as [|k]; [exfalso; by apply (Nat.lt_irrefl 0), Hpos|].
    simpl. by left.
Qed.




(** ** Discovery without a localization manager *)

Lemma register_no_manager mn attr s :
  localization_manager (self s) = None →
  ∃ s', register mn attr s = (Ok tt, s')
        ∧ localization_manager (self s') = None
        ∧ os s' = os s.
Proof.
  intros H. unfold register, on_objects, on_self.
  rewrite bind_get, !bind_modify, bind_get, bind_modify. rewrite H.
  unfold bind at 1. cbn [ret].
  destruct (permissions attr.1); [by eexists|].
  unfold _handle_plugin_permissions. rewrite bind_get. cbn [self].
  cbn [localization_manager set_plugin_funcs set_plugins]. rewrite H.
  by eexists.
Qed.

Lemma register_attrs_no_manager mn attrs : ∀ count s,
  localization_manager (self s) = None →
  ∃ s', register_attrs mn attrs count s = (count + length attrs, None, s')
        ∧ localization_manager (self s') = None
        ∧ os s' = os s
        ∧ objects s' = objects s ++ (fst <$> attrs).
Proof.
  induction attrs as [|attr rest IH]; intros count s H; simpl.
  - exists s. rewrite app_nil_r, Nat.add_0_r. done.
  - destruct (register_registry mn attr s) as (Hobj & _ & _ & _).
    destruct (register_no_manager mn attr s H) as (s1 & Hreg & Hlm & Hos).
    rewrite Hreg in *. simpl in Hobj.
    destruct (IH (S count) s1 Hlm) as (s2 & -> & ? & ? & Ho).
    exists s2. rewrite Ho, Hobj, <- app_assoc. simpl.
    split; [f_equal; f_equal; lia|]. split; [done|]. split; [congruence|done].
Qed.

(** X13. A loader without a localization manager asks nobody: every
    decorated attribute of every module that executes is registered, in
    discovery order, the count returned is their number, the operator's
    input is not read and the permission file is not touched. *)
Theorem X13_discovery_without_manager_registers_all
    (files : list py_file) (s : state) :
  localization_manager (self s) = None →
  ∃ s', load_all_plugins (Some files) s = (Ok (length (decorated files)), s')
        ∧ objects s' = objects s ++ (fst <$> decorated files)
        ∧ localization_manager (self s') = None
        ∧ more_notions.only_printed (os s) (os s').
Proof.
  intros H. simpl.
  assert (Hgen : ∀ count, ∃ s',
    foldM load_file files count s
      = (Ok (count + length (decorated files))%nat, s')
    ∧ objects s' = objects s ++ (fst <$> decorated files)
    ∧ localization_manager (self s') = None
    ∧ more_notions.only_printed (os s) (os s')); [|apply (Hgen 0%nat)].
  revert s H. induction files as [|f files IH]; intros s H count; simpl.
  - exists s. unfold decorated. simpl. rewrite app_nil_r, Nat.add_0_r. done.
  - assert (∃ s1, load_file count f s = (Ok (count + length (attrs_of f))%nat, s1)
             ∧ objects s1 = objects s ++ (fst <$> attrs_of f)
             ∧ localization_manager (self s1) = None
             ∧ more_notions.only_printed (os s) (os s1))
      as (s1 & Hf & Ho1 & Hlm1 & Hw1).
    { unfold load_file, attrs_of. destruct (String.eqb _ _).
      { exists s. simpl. rewrite app_nil_r, Nat.add_0_r. done. }
      destruct (body f) as [e|attrs].
      { eexists. split; [simpl; rewrite Nat.add_0_r; reflexivity|]. simpl.
        rewrite app_nil_r. done. }
      destruct (register_attrs_no_manager (stem f) attrs count s H)
        as (s1 & -> & ? & Hos & ?).
      exists s1. rewrite Hos. done. }
    unfold bind. rewrite Hf.
    destruct (IH s1 Hlm1 (count + length (attrs_of f))%nat)
      as (s2 & -> & Ho2 & Hlm2 & Hw2).
    exists s2. unfold decorated in *. simpl.
    rewrite length_app, fmap_app, Ho2, Ho1, <- app_assoc.
    split; [f_equal; f_equal; lia|]. split; [done|]. split; [done|].
    destruct Hw1 as ((?&?&?)&?&?&?&?), Hw2 as ((?&?&?)&?&?&?&?).
    repeat split; congruence.
Qed.

Lemma X13_witness :
  ∃ s', load_all_plugins plugins_low_first fresh = (Ok 2%nat, s')
        ∧ objects s' = [meta "low" "splash" 1 true; meta "high" "splash" 5 true].
Proof.
  destruct (X13_discovery_without_manager_registers_all
              [ {| stem := "pair";
                   body := Attributes [(meta "low" "splash" 1 true, mark "low");
                                       (meta "high" "splash" 5 true, mark "high")] |} ]
              fresh eq_refl)
    as (s' & Hrun & Ho & _).
  exists s'. split; [exact Hrun|exact Ho].
Defined.

(** ** Registration does not wait for the permission dialogue *)

(** X14. Whatever the operator answers when a module's first decorated
    attribute asks for capabilities (yes, no, or nothing at all), that
    entry point is registered, and if it is enabled the next run of its
    stage calls it: [run_plugins] consults no permission. *)
Theorem X14_denied_plugins_still_run
    (files : list py_file) (s : state) (f : py_file)
    (md : PluginMetadata) (fn : callable)
    (rest : list (PluginMetadata * callable))
    (ctx : context) (config : gmap string pyval) :
  state_ok s →
  f ∈ files →
  attrs_of f = (md, fn) :: rest →
  enabled md = true →
  ∃ count s1 results ctx' s2 r (called : list ref),
    load_all_plugins (Some files) s = (Ok count, s1)
    ∧ objects s1 !! r = Some md
    ∧ run_plugins (stage md) ctx config s1 = (Ok (results, ctx'), s2)
    ∧ invoked s2 = invoked s1 ++ called
    ∧ r ∈ called.
Proof.
  intros Hok Hf Ha Hen.
  pose proof (load_all_plugins_ok (Some files) s Hok) as [Hok1 _].
  destruct (load_files_objects files 0%nat s)
    as (count & s1 & new & Hrun & Ho & _ & _ & _ & Hfirst).
  simpl in Hok1. rewrite Hrun in Hok1. simpl in Hok1.
  pose proof (Hfirst f (md, fn) rest Hf Ha) as Hin. simpl in Hin.
  apply list_elem_of_lookup_1 in Hin as [i Hi].
  assert (Hr : objects s1 !! (length (objects s) + i) = Some md).
  { rewrite Ho. rewrite lookup_app_r by lia.
    by replace (length (objects s) + i - length (objects s)) with i by lia. }
  destruct (stage_complete _ _ _ Hok1 _ _ Hr) as (entries & f' & He & Hf').
  destruct (run_plugins_spec (stage md) ctx config s1 entries He)
    as (out & Hrun2 & _ & _).
  eexists count, s1, _, _, _, (length (objects s) + i), _.
  split; [exact Hrun|]. split; [exact Hr|]. split; [exact Hrun2|].
  split; [reflexivity|].
  apply elem_of_enabled_refs. exists (length (objects s) + i, f').
  split; [done|]. split; [done|].
  unfold is_enabled, deref. simpl. by rewrite Hr.
Qed.

Lemma X14_witness :
  ∃ count s1 results ctx' s2 r (called : list ref),
    load_all_plugins (Some plugins_asking)
      (start "/opt/dart/modules/plugins" (Some (catalog_notions.catalog "ko"))
         (catalog_notions.answers ["n"])) = (Ok count, s1)
    ∧ objects s1 !! r = Some asking
    ∧ run_plugins (stage asking) ∅ ∅ s1 = (Ok (results, ctx'), s2)
    ∧ invoked s2 = invoked s1 ++ called
    ∧ r ∈ called.
Proof.
  apply (X14_denied_plugins_still_run plugins_asking
           (start "/opt/dart/modules/plugins"
              (Some (catalog_notions.catalog "ko"))
              (catalog_notions.answers ["n"]))
           {| stem := "weather";
              body := Attributes [(asking, mark "weather")] |}
           asking (mark "weather") [] ∅ ∅).
  - apply registry_ok_empty.
  - apply list_elem_of_In. simpl. auto.
  - reflexivity.
  - reflexivity.
Defined.

(** ** Names *)

Section registry_induction.
Context (P : list PluginMetadata → gmap string plugin_info → Prop).
Hypothesis P_register : ∀ objs pl md f mdl pth,
  P objs pl →
  P (objs ++ [md])
    (<[name md := {| metadata := length objs; func := f; module := mdl;
                     path := pth |}]> pl).
Hypothesis P_alter : ∀ objs pl r b,
  P objs pl → P (alter (set_enabled b) r objs) pl.

Lemma register_attrs_preserves mn attrs : ∀ count s,
  P (objects s) (plugins (self s)) →
  P (objects (register_attrs mn attrs count s).2)
    (plugins (self (register_attrs mn attrs count s).2)).
Proof using P_register.
  induction attrs as [|attr rest IH]; intros count s H; simpl; [done|].
  destruct (register_registry mn attr s) as (Ho & Hp & _ & _).
  assert (H1 : P (objects (register mn attr s).2)
                 (plugins (self (register mn attr s).2))).
  { rewrite Ho, Hp. by apply P_register. }
  destruct (register mn attr s) as [[[]|e] s1]; simpl in *; [|done].
  by apply IH.
Qed.

Lemma load_all_plugins_preserves dir s :
  P (objects s) (plugins (self s)) →
  P (objects (load_all_plugins dir s).2)
    (plugins (self (load_all_plugins dir s).2)).
Proof using P_register.
  destruct dir as [files|]; simpl; [|done].
  generalize 0%nat as count. revert s.
  induction files as [|f files IH]; intros s count H; simpl; [done|].
  unfold bind.
  assert (H1 : P (objects (load_file count f s).2)
                 (plugins (self (load_file count f s).2))).
  { unfold load_file. destruct (String.eqb _ _); [done|].
    destruct (body f) as [e|attrs]; [done|].
    pose proof (register_attrs_preserves (stem f) attrs count s H) as H1.
    destruct (register_attrs (stem f) attrs count s) as [[count' [e|]] s1];
      simpl in *; done. }
  destruct (load_file_objects count f s) as (c1 & s1 & k & Hf & _).
  rewrite Hf in *. simpl in H1. by apply IH.
Qed.

Lemma step_preserves s o :
  P (objects s) (plugins (self s)) →
  P (objects (step s o)) (plugins (self (step s o))).
Proof using P_register P_alter.
  intros H. destruct o as [dir|st ctx config|nm|nm]; simpl.
  - by apply load_all_plugins_preserves.
  - destruct (plugin_funcs (self s) !! st) as [entries|] eqn:E.
    + destruct (run_plugins_spec st ctx config s entries E) as (out & -> & _).
      done.
    + by rewrite run_plugins_none.
  - rewrite enable_plugin_spec.
    destruct (plugins (self s) !! nm); [|done]. by apply P_alter.
  - rewrite disable_plugin_spec.
    destruct (plugins (self s) !! nm); [|done]. by apply P_alter.
Qed.

Lemma reached_preserves dir lm w ops :
  P [] ∅ →
  P (objects (reached dir lm w ops)) (plugins (self (reached dir lm w ops))).
Proof using P_register P_alter.
  intros H0. unfold reached, after.
  assert (H : P (objects (start dir lm w)) (plugins (self (start dir lm w))))
    by done.
  revert H. generalize (start dir lm w).
  induction ops as [|o ops IH]; intros s Hs; simpl; [done|].
  apply IH. by apply step_preserves.
Qed.

End registry_induction.

Lemma names_latest_reached dir lm w ops :
  names_latest (objects (reached dir lm w ops))
    (plugins (self (reached dir lm w ops))).
Proof.
  apply reached_preserves.
  - intros objs pl md f mdl pth H r md0 Hr.
    apply lookup_app_Some in Hr as [Hr|[Hlen Hr]].
    + destruct (H r md0 Hr) as (info & Hi & Hle).
      destruct (decide (name md0 = name md)) as [Heq|Hne].
      * rewrite Heq, lookup_insert_eq. eexists. split; [done|]. simpl.
        apply lookup_lt_Some in Hr. lia.
      * rewrite lookup_insert_ne by done. by exists info.
    + apply list_lookup_singleton_Some in Hr as [Hr <-].
      rewrite lookup_insert_eq. eexists. split; [done|]. simpl. lia.
  - intros objs pl r0 b H r md Hr.
    destruct (decide (r = r0)) as [->|Hne].
    + rewrite list_lookup_alter_eq in Hr.
      destruct (objs !! r0) as [md0|] eqn:E; [|done].
      injection Hr as <-. by apply (H r0 md0).
    + rewrite list_lookup_alter_ne in Hr by done. by apply H.
  - intros r md Hr. by rewrite lookup_nil in Hr.
Qed.

(** X15. In every state the host can reach, each discovered entry point has
    its name in [plugins], and the entry of a name refers to a metadata
    object of that name, the one discovered last: when several entry points
    share a name, the name stands for the latest. *)
Theorem X15_a_name_stands_for_the_latest
    (dir : string) (lm : option localization.LocalizationManager) (w : World)
    (ops : list op) (r : ref) (md : PluginMetadata) :
  objects (reached dir lm w ops) !! r = Some md →
  ∃ info,
    plugins (self (reached dir lm w ops)) !! name md = Some info
    ∧ (r ≤ metadata info)%nat
    ∧ name_of (objects (reached dir lm w ops)) (metadata info) = name md.
Proof.
  intros Hr.
  destruct (names_latest_reached dir lm w ops r md Hr) as (info & Hi & Hle).
  exists info. split; [done|]. split; [done|].
  destruct (plugins_sound _ _ _ (reached_ok dir lm w ops) _ _ Hi)
    as (md' & Hmd' & Hname).
  unfold name_of, deref. by rewrite Hmd'.
Qed.

Lemma X15_witness :
  ∃ info,
    plugins (self (reached "/opt/dart/modules/plugins" None
                     catalog_notions.quiet_world [Load plugins_with_twins]))
      !! name (meta "twin" "splash" 2 true) = Some info
    ∧ (0 ≤ metadata info)%nat
    ∧ name_of (objects (reached "/opt/dart/modules/plugins" None
                          catalog_notions.quiet_world [Load plugins_with_twins]))
        (metadata info) = name (meta "twin" "splash" 2 true).
Proof.
  apply (X15_a_name_stands_for_the_latest "/opt/dart/modules/plugins" None
           catalog_notions.quiet_world [Load plugins_with_twins] 0
           (meta "twin" "splash" 2 true)).
  vm_compute. reflexivity.
Defined.

(** ** The stage runner as a whole *)



(** ** Disabling *)





(** ** Plugin information *)

(** X18. In every state the host can reach, [get_plugin_info(name)] for a
    registered, non-empty name gives a dictionary whose [name] is that name
    and whose [enabled] is the flag [enable_plugin] or [disable_plugin] set
    last: right after either returned [True] it reads [True], respectively
    [False].  For a name that is not registered it gives [None], exactly
    when the two would return [False]; and the empty name is taken as no
    name at all. *)
Theorem X18_info_follows_enable_and_disable
    (dir : string) (lm : option localization.LocalizationManager) (w : World)
    (ops : list op) (nm : string) (b : bool) :
  nm ≠ "" →
  (∀ s',
     (if b then enable_plugin nm else disable_plugin nm)
       (reached dir lm w ops) = (Ok true, s') →
     ∃ d, get_plugin_info (Some nm) s' = OneInfo d
          ∧ odict.get "name" d = Some (PyStr nm)
          ∧ odict.get "enabled" d = Some (PyBool b))
  ∧ (∀ s',
       (if b then enable_plugin nm else disable_plugin nm)
         (reached dir lm w ops) = (Ok false, s') →
       get_plugin_info (Some nm) s' = NoInfo)
  ∧ get_plugin_info (Some "") (reached dir lm w ops)
    = get_plugin_info None (reached dir lm w ops).
Proof.
  intros Hnm.
  pose proof (reached_ok dir lm w ops) as Hok.
  generalize dependent (reached dir lm w ops). intros s Hok.
  assert (Hspec : (if b then enable_plugin nm else disable_plugin nm) s
                  = match plugins (self s) !! nm with
                    | Some info =>
                        (Ok true,
                         {| objects := alter (set_enabled b) (metadata info)
                                         (objects s);
                            self := self s; os := os s;
                            invoked := invoked s |})
                    | None => (Ok false, s)
                    end).
  { destruct b; [apply enable_plugin_spec|apply disable_plugin_spec]. }
  rewrite Hspec. clear Hspec. unfold get_plugin_info.
  apply String.eqb_neq in Hnm. rewrite Hnm.
  split; [|split; [|done]].
  - intros s'. destruct (plugins (self s) !! nm) as [info|] eqn:Hi; [|done].
    intros [= <-]. cbn [self objects]. rewrite Hi.
    destruct (plugins_sound _ _ _ Hok _ _ Hi) as (md & Hmd & Hname).
    pose proof (lookup_lt_Some _ _ _ Hmd) as Hlt.
    eexists. split; [reflexivity|]. unfold info_dict. cbn [odict.get].
    rewrite deref_alter, decide_True by done. simpl.
    unfold deref. rewrite Hmd. simpl. by rewrite Hname.
  - intros s'. destruct (plugins (self s) !! nm) as [info|] eqn:Hi; [done|].
    intros [= <-]. by rewrite Hi.
Qed.

Lemma X18_witness :
  ∃ d, get_plugin_info (Some "twin")
         (disable_plugin "twin"
            (reached "/opt/dart/modules/plugins" None
               catalog_notions.quiet_world [Load plugins_with_twins])).2
       = OneInfo d
       ∧ odict.get "name" d = Some (PyStr "twin")
       ∧ odict.get "enabled" d = Some (PyBool false).
Proof.
  refine (proj1 (X18_info_follows_enable_and_disable
                   "/opt/dart/modules/plugins" None
                   catalog_notions.quiet_world [Load plugins_with_twins]
                   "twin" false _) _ _).
  - discriminate.
  - vm_compute. reflexivity.
Defined.

(** ** The three stages of main.py *)



(** ** Start-up *)



End registry_extras.

(** * Further proofs: the permission file utility *)

Module admin_extras.
Import catalog_notions more_notions admin_notions manage_permissions.

Lemma stored_delete_plugin (st : permission_store) name n q :
  stored (delete name st) n q
  = if decide (n = name) then None else stored st n q.
Proof.
  unfold stored. destruct (decide (n = name)) as [->|Hne].
  - by rewrite lookup_delete_eq.
  - by rewrite lookup_delete_ne.
Qed.

Lemma stored_delete_pair (st : permission_store) name perm perms n q :
  st !! name = Some perms →
  stored (if decide (delete perm perms = ∅) then delete name st
          else <[name := delete perm perms]> st) n q
  = if decide (n = name ∧ q = perm) then None else stored st n q.
Proof.
  intros Hst. unfold stored.
  destruct (decide (delete perm perms = ∅)) as [Hempty|Hne].
  - destruct (decide (n = name)) as [->|Hn].
    + rewrite lookup_delete_eq, Hst.
      destruct (decide (q = perm)) as [->|Hq].
      * by rewrite decide_True.
      * rewrite decide_False by (by intros [_ ?]).
        rewrite <- (lookup_delete_ne perms perm q) by done.
        by rewrite Hempty, lookup_empty.
    + rewrite lookup_delete_ne by done.
      by rewrite decide_False by (by intros [? _]).
  - destruct (decide (n = name)) as [->|Hn].
    + rewrite lookup_insert_eq, Hst.
      destruct (decide (q = perm)) as [->|Hq].
      * rewrite decide_True by done. apply lookup_delete_eq.
      * rewrite decide_False by (by intros [_ ?]).
        by apply lookup_delete_ne.
    + rewrite lookup_insert_ne by done.
      by rewrite decide_False by (by intros [? _]).
Qed.

Lemma reset_pair_spec
    (w : World) (st : permission_store) (name perm : string) :
  perm_file w = Stored st →
  perm_disk_error w = None →
  ∃ w',
    reset_plugin_permission name (Some perm) w = (Ok tt, w')
    ∧ (∀ n q, on_disk w' n q
              = if decide (n = name ∧ q = perm) then None else stored st n q)
    ∧ length (perm_writes w')
      = (length (perm_writes w)
         + if stored st name perm is Some _ then 1 else 0)%nat
    ∧ stdin w' = stdin w.
Proof.
  intros Hfile Hdisk.
  unfold reset_plugin_permission, bind at 1, get_state. rewrite Hfile.
  assert (Hkeep : ∀ w0 : World, perm_file w0 = Stored st →
            stored st name perm = None →
            ∀ n q, on_disk w0 n q
                   = if decide (n = name ∧ q = perm) then None
                     else stored st n q).
  { intros w0 Hw0 Hnone n q. unfold on_disk. rewrite Hw0.
    destruct (decide _) as [[-> ->]|]; done. }
  destruct (st !! name) as [perms|] eqn:Hst.
  - destruct (perms !! perm) as [b|] eqn:Hp.
    + unfold dump, print, modify, get_state, bind. simpl.
      rewrite Hdisk. eexists. split; [reflexivity|]. simpl.
      split; [|split; [|done]].
      * intros n q. unfold on_disk. simpl. by apply stored_delete_pair.
      * unfold stored. rewrite Hst, Hp. rewrite length_app. simpl. lia.
    + eexists. split; [reflexivity|]. simpl.
      assert (Hnone : stored st name perm = None)
        by (unfold stored; by rewrite Hst).
      split; [by apply Hkeep|]. rewrite Hnone. split; [lia|done].
  - eexists. split; [reflexivity|]. simpl.
    assert (Hnone : stored st name perm = None)
      by (unfold stored; by rewrite Hst).
    split; [by apply Hkeep|]. rewrite Hnone. split; [lia|done].
Qed.

(** X21. [reset_plugin_permission(plugin, permission)] on a permission file
    that loads and can be written: it returns, and afterwards the file
    holds no decision for that pair and the decisions it held for every
    other pair.  The file is rewritten once if the pair was there and not
    at all if it was not; the operator is not asked anything. *)
Theorem X21_reset_of_a_pair_removes_that_pair
    (w : World) (st : permission_store) (name perm : string) :
  perm_file w = Stored st →
  perm_disk_error w = None →
  ∃ w',
    reset_plugin_permission name (Some perm) w = (Ok tt, w')
    ∧ (∀ n q, on_disk w' n q
              = if decide (n = name ∧ q = perm) then None else stored st n q)
    ∧ length (perm_writes w')
      = (length (perm_writes w)
         + if stored st name perm is Some _ then 1 else 0)%nat
    ∧ stdin w' = stdin w.
Proof. apply reset_pair_spec. Qed.

Lemma X21_witness :
  ∃ w',
    reset_plugin_permission "weather_overlay" (Some "write_locales")
      (disk_with two_plugins_store []) = (Ok tt, w')
    ∧ on_disk w' "weather_overlay" "write_locales" = None
    ∧ on_disk w' "weather_overlay" "read_main_locales" = Some true.
Proof.
  destruct (X21_reset_of_a_pair_removes_that_pair
              (disk_with two_plugins_store []) two_plugins_store
              "weather_overlay" "write_locales" eq_refl eq_refl)
    as (w' & Hrun & Hdisk & _).
  exists w'. split; [exact Hrun|]. split.
  - rewrite Hdisk. reflexivity.
  - rewrite Hdisk. vm_compute. reflexivity.
Defined.

(** X22. [reset_plugin_permission(plugin)] on a permission file that loads
    and can be written: afterwards the file holds no decision for that
    plugin and the decisions it held for every other; it is rewritten once
    if the plugin was in it and not at all otherwise. *)
Theorem X22_reset_of_a_plugin_removes_its_pairs
    (w : World) (st : permission_store) (name : string) :
  perm_file w = Stored st →
  perm_disk_error w = None →
  ∃ w',
    reset_plugin_permission name None w = (Ok tt, w')
    ∧ (∀ n q, on_disk w' n q
              = if decide (n = name) then None else stored st n q)
    ∧ length (perm_writes w')
      = (length (perm_writes w)
         + if st !! name is Some _ then 1 else 0)%nat
    ∧ stdin w' = stdin w.
Proof.
  intros Hfile Hdisk.
  unfold reset_plugin_permission, bind at 1, get_state. rewrite Hfile.
  destruct (st !! name) as [perms|] eqn:Hst.
  - unfold dump, print, modify, get_state, bind. simpl.
    rewrite Hdisk. eexists. split; [reflexivity|]. simpl.
    split; [|split; [|done]].
    + intros n q. unfold on_disk. simpl. apply stored_delete_plugin.
    + rewrite length_app. simpl. lia.
  - eexists. split; [reflexivity|]. simpl. split; [|split; [lia|done]].
    intros n q. unfold on_disk. simpl. rewrite Hfile.
    destruct (decide (n = name)) as [->|]; [|done].
    unfold stored. by rewrite Hst.
Qed.

Lemma X22_witness :
  ∃ w',
    reset_plugin_permission "weather_overlay" None
      (disk_with two_plugins_store []) = (Ok tt, w')
    ∧ on_disk w' "weather_overlay" "read_main_locales" = None
    ∧ on_disk w' "sample" "write_locales" = Some true.
Proof.
  destruct (X22_reset_of_a_plugin_removes_its_pairs
              (disk_with two_plugins_store []) two_plugins_store
              "weather_overlay" eq_refl eq_refl)
    as (w' & Hrun & Hdisk & _).
  exists w'. split; [exact Hrun|]. split.
  - rewrite Hdisk. reflexivity.
  - rewrite Hdisk. vm_compute. reflexivity.
Defined.

(** X23. How [reset_plugin_permission] fails.  Without a permission file it
    prints that nothing is stored and creates no file.  A file that does
    not load makes it raise the loading error, with nothing printed and
    nothing changed.  And when there is something to remove but the file
    cannot be written, it raises the write error after it has printed that
    the reset succeeded, the file being as it was. *)
Theorem X23_reset_failures
    (w : World) (name : string) (permission_name : option string) :
  (perm_file w = Missing →
   reset_plugin_permission name permission_name w
   = (Ok tt, print_line "저장된 권한이 없습니다." w))
  ∧ (∀ err, perm_file w = Corrupt err →
       ∃ e, reset_plugin_permission name permission_name w = (Raise e, w)
            ∧ exc_msg e = err)
  ∧ (∀ st msg,
       perm_file w = Stored st →
       perm_disk_error w = Some msg →
       match permission_name with
       | None => is_Some (st !! name)
       | Some perm => is_Some (stored st name perm)
       end →
       ∃ e w' line,
         reset_plugin_permission name permission_name w = (Raise e, w')
         ∧ exc_msg e = msg
         ∧ console w' = console w ++ [Print line]
         ∧ same_disk w w').
Proof.
  split; [|split].
  - intros H. unfold reset_plugin_permission, bind at 1, get_state.
    by rewrite H.
  - intros err H. unfold reset_plugin_permission, bind at 1, get_state.
    rewrite H. by eexists.
  - intros st msg H Hdisk Hsome.
    unfold reset_plugin_permission, bind at 1, get_state. rewrite H.
    unfold stored in Hsome.
    destruct (st !! name) as [perms|]; [|destruct permission_name;
      by destruct Hsome].
    destruct permission_name as [perm|].
    + destruct (perms !! perm) as [b|]; [|by destruct Hsome].
      unfold dump, print, modify, get_state, bind. simpl. rewrite Hdisk.
      eexists _, _, _. split; [reflexivity|]. done.
    + unfold dump, print, modify, get_state, bind. simpl. rewrite Hdisk.
      eexists _, _, _. split; [reflexivity|]. done.
Qed.

Lemma X23_witness :
  ∃ e, reset_plugin_permission "weather_overlay" None
         {| home := "/home/op"; install_dir := "/opt/dart"; stdin := [];
            console := []; perm_file := Corrupt "Expecting value";
            perm_disk_error := None; perm_writes := []; locale_dirs := ∅ |}
       = (Raise e,
          {| home := "/home/op"; install_dir := "/opt/dart"; stdin := [];
             console := []; perm_file := Corrupt "Expecting value";
             perm_disk_error := None; perm_writes := []; locale_dirs := ∅ |})
       ∧ exc_msg e = "Expecting value".
Proof.
  apply (proj1 (proj2 (X23_reset_failures
           {| home := "/home/op"; install_dir := "/opt/dart"; stdin := [];
              console := []; perm_file := Corrupt "Expecting value";
              perm_disk_error := None; perm_writes := []; locale_dirs := ∅ |}
           "weather_overlay" None)) "Expecting value").
  reflexivity.
Defined.

(** ** After a reset *)

Lemma fresh_decision_on_disk w locales_dir system_language n q :
  localization.decision
    (localization.__init__ locales_dir system_language w).1 n q
  = on_disk w n q.
Proof.
  destruct (catalog_proofs.init_permissions w locales_dir system_language)
    as (_ & Hc & _).
  unfold localization.decision, on_disk, stored. rewrite Hc.
  destruct (perm_file w); try by rewrite lookup_empty. done.
Qed.

(** X24. A reset is what makes the manager ask again: a manager constructed
    after [reset_plugin_permission(plugin, permission)] has no decision for
    that pair, so a request for it goes to the operator, while every other
    pair keeps the decision the file held. *)
Theorem X24_a_reset_pair_is_asked_again
    (w : World) (st : permission_store) (name perm : string)
    (locales_dir system_language : option string) :
  perm_file w = Stored st →
  perm_disk_error w = None →
  (∀ n q,
     localization.decision
       (localization.__init__ locales_dir system_language
          (reset_plugin_permission name (Some perm) w).2).1 n q
     = if decide (n = name ∧ q = perm) then None else stored st n q)
  ∧ to_ask (localization.__init__ locales_dir system_language
              (reset_plugin_permission name (Some perm) w).2).1 name [perm]
    = [perm].
Proof.
  intros Hfile Hdisk.
  destruct (reset_pair_spec w st name perm Hfile Hdisk)
    as (w' & -> & Hon & _).
  cbn [snd].
  assert (Hdec : ∀ n q,
    localization.decision
      (localization.__init__ locales_dir system_language w').1 n q
    = if decide (n = name ∧ q = perm) then None else stored st n q).
  { intros n q. by rewrite fresh_decision_on_disk. }
  split; [exact Hdec|].
  unfold to_ask. rewrite filter_cons_True.
  - done.
  - rewrite Hdec. by rewrite decide_True.
Qed.

Lemma X24_witness :
  to_ask (localization.__init__ None None
            (reset_plugin_permission "weather_overlay" (Some "write_locales")
               (disk_with two_plugins_store [])).2).1
    "weather_overlay" ["write_locales"]
  = ["write_locales"].
Proof.
  apply (X24_a_reset_pair_is_asked_again
           (disk_with two_plugins_store []) two_plugins_store
           "weather_overlay" "write_locales" None None eq_refl eq_refl).
Defined.

(** ** Resetting everything *)

Lemma confirm_first_valid junk c rest : ∀ out,
  Forall (λ x, x ≠ "y" ∧ x ≠ "n") junk →
  c = "y" ∨ c = "n" →
  (confirm (junk ++ c :: rest) out).1 = (Ok (String.eqb c "y"), rest).
Proof.
  induction junk as [|j junk IH]; intros out Hjunk Hc.
  - cbn [app confirm]. by destruct Hc as [-> | ->].
  - apply Forall_cons in Hjunk as [[Hy Hn] Hjunk].
    cbn [app confirm].
    apply String.eqb_neq in Hy, Hn. rewrite Hy, Hn. by apply IH.
Qed.

(** X25. [reset_permissions] asks only when there is a permission file, and
    takes the first reply that is exactly [y] or [n] (after lower-casing
    and stripping), whatever came before it - [yes] is not an answer here.
    On [y] the file is deleted, so that a manager constructed afterwards
    has no decision at all; on [n] the file stays as it is.  Either way the
    replies after the answer are left unread. *)
Theorem X25_reset_all_needs_a_plain_y
    (w : World) (junk : list string) (c : string) (rest : list string) :
  perm_file w ≠ Missing →
  perm_disk_error w = None →
  stdin w = junk ++ c :: rest →
  Forall (λ x, x ≠ "y" ∧ x ≠ "n") junk →
  (c = "y" →
   ∃ w', reset_permissions w = (Ok tt, w')
         ∧ perm_file w' = Missing
         ∧ stdin w' = rest
         ∧ ∀ locales_dir system_language n q,
             localization.decision
               (localization.__init__ locales_dir system_language w').1 n q
             = None)
  ∧ (c = "n" →
     ∃ w', reset_permissions w = (Ok tt, w')
           ∧ same_disk w w'
           ∧ stdin w' = rest).
Proof.
  intros Hfile Hdisk Hin Hjunk.
  assert (Hrun : ∀ b, c = (if b : bool then "y" else "n") →
    ∃ out, reset_permissions w
      = (if b then
           print "✓ 모든 권한이 초기화되었습니다." ;;;
           print "  다음 실행 시 권한을 다시 묻게 됩니다."
         else print "초기화가 취소되었습니다.")
          ((if b then remove_perm_file else id)
             (set_stdin rest (set_console (λ c0, c0 ++ out) w)))).
  { intros b Hc. unfold reset_permissions, bind at 1, get_state.
    assert (Hconf : (confirm (stdin w) []).1 = (Ok b, rest)).
    { rewrite Hin, (confirm_first_valid junk c rest [] Hjunk).
      - rewrite Hc. by destruct b.
      - rewrite Hc. destruct b; auto. }
    exists (confirm (stdin w) []).2.
    destruct (perm_file w); [done|..];
      unfold bind at 1; cbn beta;
      destruct (confirm (stdin w) []) as [[r left] out];
      simpl in Hconf; injection Hconf as -> ->; cbn [snd];
      (destruct b; [|done]);
      unfold bind at 1, bind at 1, get_state; simpl; by rewrite Hdisk. }
  split.
  - intros Hc. destruct (Hrun true Hc) as (out & ->).
    eexists. split; [reflexivity|]. split; [done|]. split; [done|].
    intros ld sl n q. by rewrite fresh_decision_on_disk.
  - intros Hc. destruct (Hrun false Hc) as (out & ->).
    eexists. split; [reflexivity|]. done.
Qed.

Lemma X25_witness :
  ∃ w', reset_permissions (disk_with two_plugins_store ["yes"; "y"; "n"])
        = (Ok tt, w')
        ∧ perm_file w' = Missing
        ∧ stdin w' = ["n"].
Proof.
  destruct (proj1 (X25_reset_all_needs_a_plain_y
                     (disk_with two_plugins_store ["yes"; "y"; "n"])
                     ["yes"] "y" ["n"]
                     ltac:(discriminate) eq_refl eq_refl
                     ltac:(repeat constructor; discriminate)) eq_refl)
    as (w' & Hrun & Hgone & Hrest & _).
  exists w'. split; [exact Hrun|]. split; [exact Hgone|exact Hrest].
Defined.

End admin_extras.

(** * Further proofs: the module-level shorthand *)

Module shorthand_extras.
Import localization catalog_notions.

(** X26. The module-level functions share one manager, constructed at
    first use and not again.  After [set_language(lang)] with a supported
    language, [_(key)] gives the text the host catalog has for the key in
    that language; an unsupported language is refused and leaves the
    manager as it is. *)
Theorem X26_shorthand_shares_one_manager
    (g g0 : shorthand.globals) (m0 : LocalizationManager) (language : string) :
  shorthand.get_localization_manager g = (m0, g0) →
  shorthand.get_localization_manager g0 = (m0, g0)
  ∧ (language ∈ SUPPORTED_LANGUAGES →
     shorthand.set_language language g
     = (Ok true,
        {| shorthand._default_manager :=
             Some (set_current_language language m0);
           shorthand.world := shorthand.world g0 |})
     ∧ ∀ key v dflt,
         text_in (translations m0) language key = Some v →
         shorthand.translate key None dflt
           {| shorthand._default_manager :=
                Some (set_current_language language m0);
              shorthand.world := shorthand.world g0 |}
         = (Ok v,
            {| shorthand._default_manager :=
                 Some (set_current_language language m0);
               shorthand.world := shorthand.world g0 |}))
  ∧ (language ∉ SUPPORTED_LANGUAGES →
     shorthand.set_language language g
     = (Ok false,
        {| shorthand._default_manager := Some m0;
           shorthand.world := shorthand.world g0 |})).
Proof.
  intros Hget. split; [|split].
  - unfold shorthand.get_localization_manager in *.
    destruct (shorthand._default_manager g) as [m|] eqn:E.
    + injection Hget as <- <-. by rewrite E.
    + by injection Hget as <- <-.
  - intros Hin.
    assert (Hsup : str_in language SUPPORTED_LANGUAGES = true).
    { unfold str_in. apply existsb_exists. exists language.
      split; [by apply list_elem_of_In|apply String.eqb_refl]. }
    split.
    + unfold shorthand.set_language, shorthand.on_manager, set_language.
      by rewrite Hget, Hsup.
    + intros key v dflt Hv.
      unfold shorthand.translate, shorthand.on_manager,
        shorthand.get_localization_manager.
      cbn [shorthand._default_manager shorthand.world fst snd].
      unfold get_text, bind, get_state.
      cbn [extension_scope self os current_language set_current_language].
      unfold find_text.
      cbn [translations set_current_language]. by rewrite Hv.
  - intros Hout.
    assert (Hsup : str_in language SUPPORTED_LANGUAGES = false).
    { unfold str_in. apply not_true_is_false. intros H.
      apply existsb_exists in H as (x & Hx & Heq).
      apply String.eqb_eq in Heq as ->. by apply Hout, list_elem_of_In. }
    unfold shorthand.set_language, shorthand.on_manager, set_language.
    by rewrite Hget, Hsup.
Qed.

Lemma X26_witness :
  shorthand.translate "common.welcome" None None
    {| shorthand._default_manager :=
         Some (set_current_language "en" (catalog "ko"));
       shorthand.world := quiet_world |}
  = (Ok "Welcome",
     {| shorthand._default_manager :=
          Some (set_current_language "en" (catalog "ko"));
        shorthand.world := quiet_world |}).
Proof.
  refine (proj2 (proj1 (proj2 (X26_shorthand_shares_one_manager
            {| shorthand._default_manager := Some (catalog "ko");
               shorthand.world := quiet_world |}
            {| shorthand._default_manager := Some (catalog "ko");
               shorthand.world := quiet_world |}
            (catalog "ko") "en" eq_refl)) _)
            "common.welcome" "Welcome" None _).
  - apply list_elem_of_In. simpl. auto.
  - vm_compute. reflexivity.
Defined.

End shorthand_extras.
